(** * The CLF-QP network of neural_clf: Lyapunov network, learned controller,
      relaxed CLF quadratic program, losses and the training schedule.

    Tensors are nested lists of reals: a batch [B, n] is a list of B rows, a
    batch of matrices [B, r, c] is a list of B lists of rows.  Floating-point
    numbers are idealised as real numbers.  Shape errors that torch raises
    are made explicit through the error monad [res]. *)

From Stdlib Require Import Reals Lra Lia List.
From stdpp Require Import gmap strings.
Import ListNotations.
Open Scope R_scope.

(** ** Exceptions *)

Inductive exn : Type :=
| AssertionError (msg : string)
| IndexError
| ShapeError
| AttributeError
| ZeroDivisionError
| SolverError.

Inductive res (A : Type) : Type :=
| Ok (a : A)
| Raise (e : exn).
Arguments Ok {A} a.
Arguments Raise {A} e.

#[global] Instance res_ret : MRet res := fun A a => Ok a.
#[global] Instance res_bind : MBind res := fun A B f m =>
  match m with
  | Ok a => f a
  | Raise e => Raise e
  end.

Fixpoint mapM_res {A B : Type} (f : A -> res B) (l : list A) : res (list B) :=
  match l with
  | [] => Ok []
  | a :: l' => b ← f a; bs ← mapM_res f l'; Ok (b :: bs)
  end.

(** Pointwise combination of two batches; the batch sizes must agree. *)
Fixpoint zipM {A B C : Type} (f : A -> B -> res C) (l : list A) (k : list B)
  : res (list C) :=
  match l, k with
  | [], [] => Ok []
  | a :: l', b :: k' => c ← f a b; cs ← zipM f l' k'; Ok (c :: cs)
  | _, _ => Raise ShapeError
  end.

Definition index {A : Type} (l : list A) (i : nat) : res A :=
  match l !! i with
  | Some a => Ok a
  | None => Raise IndexError
  end.

(** ** Tensor primitives *)

Module Tensor.

Abbreviation vec := (list R).
Abbreviation mat := (list (list R)).

Definition Rsum (v : vec) : R := fold_right Rplus 0 v.
Definition dot (u v : vec) : R := Rsum (zip_with Rmult u v).
Definition vadd (u v : vec) : vec := zip_with Rplus u v.
Definition vscale (a : R) (v : vec) : vec := map (Rmult a) v.
Definition mscale (a : R) (M : mat) : mat := map (vscale a) M.

Definition ncols (M : mat) : nat :=
  match M with
  | [] => 0%nat
  | r :: _ => length r
  end.

Definition matvec (M : mat) (v : vec) : vec := map (fun row => dot row v) M.

(** Row vector times matrix: the combination of the rows of [M] with the
    coefficients [a]. *)
Definition vecmat (a : vec) (M : mat) : vec :=
  fold_right vadd (replicate (ncols M) 0) (zip_with vscale a M).

Definition matmul (A M : mat) : mat := map (fun a => vecmat a M) A.

(** The shape test of a matrix product: every row of [A] is as long as [M]
    has rows, and [M] is rectangular. *)
Definition matmul_ok (A M : mat) : bool :=
  forallb (fun a => Nat.eqb (length a) (length M)) A
  && forallb (fun r => Nat.eqb (length r) (ncols M)) M.

Definition matmul_chk (A M : mat) : res mat :=
  if matmul_ok A M then Ok (matmul A M) else Raise ShapeError.

(** torch.bmm: batched matrix product. *)
Definition bmm (As Ms : list mat) : res (list mat) := zipM matmul_chk As Ms.

(** torch.diag_embed on one batch element. *)
Fixpoint diag_embed (s : vec) : mat :=
  match s with
  | [] => []
  | a :: s' => (a :: replicate (length s') 0) :: map (cons 0) (diag_embed s')
  end.

(** tensor.T of a two-dimensional tensor. *)
Fixpoint transpose (M : mat) : mat :=
  match M with
  | [] => []
  | r :: M' =>
      match M' with
      | [] => map (fun a => [a]) r
      | _ => zip_with cons r (transpose M')
      end
  end.

(** unsqueeze(-1) of one row: [n] becomes [n, 1]. *)
Definition unsqueeze_last (v : vec) : mat := map (fun a => [a]) v.

(** Broadcasting of one dimension: equal sizes combine pointwise, a size
    of one is stretched, anything else is an error. *)
Definition bcast {A : Type} (op : A -> A -> res A) (u v : list A)
  : res (list A) :=
  if Nat.eqb (length u) (length v) then zipM op u v
  else match u, v with
       | [a], _ => mapM_res (fun b => op a b) v
       | _, [b] => mapM_res (fun a => op a b) u
       | _, _ => Raise ShapeError
       end.

Definition bcast_vec (op : R -> R -> R) (u v : vec) : res vec :=
  bcast (fun a b => Ok (op a b)) u v.
Definition bcast_mat (op : R -> R -> R) (A M : mat) : res mat :=
  bcast (bcast_vec op) A M.

(** squeeze() of a column [m, 1] to [m].  A tensor that keeps a last
    dimension larger than one is outside the model and stops it. *)
Definition squeeze_last (M : mat) : res vec :=
  mapM_res (fun row => match row with
                       | [a] => Ok a
                       | _ => Raise ShapeError
                       end) M.

Definition relu (a : R) : R := Rmax 0 a.
Definition mean (v : vec) : R := Rsum v / INR (length v).

End Tensor.
Import Tensor.

(** ** Network layers *)

(** nn.Linear(in_features, out_features): weight is [out, in], bias [out]. *)
Record Linear : Type := {
  in_features : nat;
  out_features : nat;
  weight : mat;
  bias : vec
}.

Definition wf_linear (L : Linear) : bool :=
  Nat.eqb (length (weight L)) (out_features L)
  && forallb (fun r => Nat.eqb (length r) (in_features L)) (weight L)
  && Nat.eqb (length (bias L)) (out_features L).

(** One row through a linear layer. *)
Definition linear_row (L : Linear) (x : vec) : vec :=
  vadd (matvec (weight L) x) (bias L).

(** A batch through a linear layer; the last dimension must be in_features. *)
Definition linear (L : Linear) (x : list vec) : res (list vec) :=
  if forallb (fun r => Nat.eqb (length r) (in_features L)) x
  then Ok (map (linear_row L) x)
  else Raise ShapeError.

Definition d_tanh_dx (t : vec) : mat := diag_embed (map (fun a => 1 - a ^ 2) t).

(** ** The relaxed CLF quadratic program *)

(** Values of the cvxpy parameters for one batch element.  A
    cp.Parameter(1) holds a single number and is modelled by it. *)
Record QPParams : Type := {
  p_L_f_Vs : list R;
  p_L_g_Vs : list vec;
  p_V : R;
  p_u_nominal : vec;
  p_relaxation_penalty : R
}.

(** Values of the decision variables: the control input and one relaxation
    per scenario. *)
Record QPVars : Type := {
  v_u : vec;
  v_clf_relaxations : list R
}.

Record Problem : Type := {
  objective : QPParams -> QPVars -> R;
  constraints : list (QPParams -> QPVars -> Prop)
}.

Record CvxpyLayer : Type := {
  layer_problem : Problem;
  layer_n_scenarios : nat;
  layer_n_controls : nat
}.

Definition sum_squares (v : vec) : R := Rsum (map (fun a => a ^ 2) v).

(** The two constraints appended for scenario [i]. *)
Definition clf_constraints_at (clf_lambda : R) (i : nat)
  : list (QPParams -> QPVars -> Prop) :=
  [ (fun p v => nth i (p_L_f_Vs p) 0 + dot (nth i (p_L_g_Vs p) []) (v_u v)
                + clf_lambda * p_V p - nth i (v_clf_relaxations v) 0 <= 0);
    (fun p v => nth i (v_clf_relaxations v) 0 >= 0) ].

Definition control_bound (G_u : mat) (h_u : vec) : QPParams -> QPVars -> Prop :=
  fun _ v => Forall2 Rle (matvec G_u (v_u v)) h_u.

Definition qp_objective (n_scenarios : nat) : QPParams -> QPVars -> R :=
  fold_left
    (fun obj i => fun p v =>
       obj p v + p_relaxation_penalty p * nth i (v_clf_relaxations v) 0)
    (seq 0 n_scenarios)
    (fun p v => sum_squares (zip_with Rminus (v_u v) (p_u_nominal p))).

(** Assembles the problem as __init__ does; a control-bound matrix whose
    rows are not n_controls long is refused by the product G_u @ u. *)
Definition build_problem (n_scenarios n_controls : nat) (clf_lambda : R)
    (G_u : mat) (h_u : vec) : res Problem :=
  let constraints := flat_map (clf_constraints_at clf_lambda) (seq 0 n_scenarios) in
  constraints ←
    (if Nat.ltb 0 (length G_u) then
       if forallb (fun r => Nat.eqb (length r) n_controls) G_u
       then Ok (constraints ++ [control_bound G_u h_u])
       else Raise ShapeError
     else Ok constraints);
  Ok {| objective := qp_objective n_scenarios; constraints := constraints |}.

(** A point of the problem: variables of the declared shapes that satisfy
    every constraint. *)
Definition feasible (layer : CvxpyLayer) (p : QPParams) (v : QPVars) : Prop :=
  length (v_u v) = layer_n_controls layer
  /\ length (v_clf_relaxations v) = layer_n_scenarios layer
  /\ Forall (fun c => c p v) (constraints (layer_problem layer)).

Definition qp_optimal (layer : CvxpyLayer) (p : QPParams) (v : QPVars) : Prop :=
  feasible layer p v
  /\ forall v', feasible layer p v' ->
       objective (layer_problem layer) p v <= objective (layer_problem layer) p v'.

(** ** The network object *)

Definition Scenario : Type := gmap string R.

Record CLF_K_QP_Net : Type := {
  dynamics : list vec -> Scenario -> list vec * list mat;
  u_nominal : list vec -> Scenario -> list vec;
  scenarios : list Scenario;
  nominal_scenario : Scenario;
  x_goal : mat;
  u_eq : mat;
  Vfc_layer_1 : Linear;
  Vfc_layer_2 : Linear;
  K1fc_layer_1 : Linear;
  K1fc_layer_2 : Linear;
  K2fc_layer_1 : Linear;
  K2fc_layer_2 : Linear;
  n_controls : nat;
  clf_lambda : R;
  clf_relaxation_penalty : R;
  G_u : mat;
  h_u : vec;
  use_QP : bool;
  qp_layer : CvxpyLayer;
  (** attributes that were not set by __init__ but assigned later *)
  extra_attrs : gmap string R
}.

Definition set_use_QP (b : bool) (net : CLF_K_QP_Net) : CLF_K_QP_Net :=
  {| dynamics := dynamics net; u_nominal := u_nominal net;
     scenarios := scenarios net; nominal_scenario := nominal_scenario net;
     x_goal := x_goal net; u_eq := u_eq net;
     Vfc_layer_1 := Vfc_layer_1 net; Vfc_layer_2 := Vfc_layer_2 net;
     K1fc_layer_1 := K1fc_layer_1 net; K1fc_layer_2 := K1fc_layer_2 net;
     K2fc_layer_1 := K2fc_layer_1 net; K2fc_layer_2 := K2fc_layer_2 net;
     n_controls := n_controls net; clf_lambda := clf_lambda net;
     clf_relaxation_penalty := clf_relaxation_penalty net;
     G_u := G_u net; h_u := h_u net; use_QP := b;
     qp_layer := qp_layer net; extra_attrs := extra_attrs net |}.

Definition set_clf_lambda (a : R) (net : CLF_K_QP_Net) : CLF_K_QP_Net :=
  {| dynamics := dynamics net; u_nominal := u_nominal net;
     scenarios := scenarios net; nominal_scenario := nominal_scenario net;
     x_goal := x_goal net; u_eq := u_eq net;
     Vfc_layer_1 := Vfc_layer_1 net; Vfc_layer_2 := Vfc_layer_2 net;
     K1fc_layer_1 := K1fc_layer_1 net; K1fc_layer_2 := K1fc_layer_2 net;
     K2fc_layer_1 := K2fc_layer_1 net; K2fc_layer_2 := K2fc_layer_2 net;
     n_controls := n_controls net; clf_lambda := a;
     clf_relaxation_penalty := clf_relaxation_penalty net;
     G_u := G_u net; h_u := h_u net; use_QP := use_QP net;
     qp_layer := qp_layer net; extra_attrs := extra_attrs net |}.

Definition set_clf_relaxation_penalty (a : R) (net : CLF_K_QP_Net) : CLF_K_QP_Net :=
  {| dynamics := dynamics net; u_nominal := u_nominal net;
     scenarios := scenarios net; nominal_scenario := nominal_scenario net;
     x_goal := x_goal net; u_eq := u_eq net;
     Vfc_layer_1 := Vfc_layer_1 net; Vfc_layer_2 := Vfc_layer_2 net;
     K1fc_layer_1 := K1fc_layer_1 net; K1fc_layer_2 := K1fc_layer_2 net;
     K2fc_layer_1 := K2fc_layer_1 net; K2fc_layer_2 := K2fc_layer_2 net;
     n_controls := n_controls net; clf_lambda := clf_lambda net;
     clf_relaxation_penalty := a;
     G_u := G_u net; h_u := h_u net; use_QP := use_QP net;
     qp_layer := qp_layer net; extra_attrs := extra_attrs net |}.

Definition set_extra_attr (name : string) (a : R) (net : CLF_K_QP_Net)
  : CLF_K_QP_Net :=
  {| dynamics := dynamics net; u_nominal := u_nominal net;
     scenarios := scenarios net; nominal_scenario := nominal_scenario net;
     x_goal := x_goal net; u_eq := u_eq net;
     Vfc_layer_1 := Vfc_layer_1 net; Vfc_layer_2 := Vfc_layer_2 net;
     K1fc_layer_1 := K1fc_layer_1 net; K1fc_layer_2 := K1fc_layer_2 net;
     K2fc_layer_1 := K2fc_layer_1 net; K2fc_layer_2 := K2fc_layer_2 net;
     n_controls := n_controls net; clf_lambda := clf_lambda net;
     clf_relaxation_penalty := clf_relaxation_penalty net;
     G_u := G_u net; h_u := h_u net; use_QP := use_QP net;
     qp_layer := qp_layer net; extra_attrs := <[name := a]> (extra_attrs net) |}.

(** Assignment [net.name = a] of a float attribute: an attribute that
    __init__ declared is overwritten, any other name creates a new
    attribute on the object. *)
Definition setattr_float (net : CLF_K_QP_Net) (name : string) (a : R)
  : CLF_K_QP_Net :=
  if String.eqb name "clf_relaxation_penalty" then set_clf_relaxation_penalty a net
  else if String.eqb name "clf_lambda" then set_clf_lambda a net
  else set_extra_attr name a net.

(** ** compute_controls and compute_lyapunov *)

(** torch.stack((K1, K2), dim=1): [B, n] and [B, n] give [B, 2, n]. *)
Definition stack2 (K1 K2 : list vec) : res (list mat) :=
  zipM (fun k1 k2 =>
          if Nat.eqb (length k1) (length k2) then Ok [k1; k2]
          else Raise ShapeError) K1 K2.

Definition compute_controls (net : CLF_K_QP_Net) (x : list vec) : res (list mat) :=
  K1fc1 ← linear (K1fc_layer_1 net) x;
  let K1fc1_act := map (map tanh) K1fc1 in
  K1 ← linear (K1fc_layer_2 net) K1fc1_act;
  K2fc1 ← linear (K2fc_layer_1 net) x;
  let K2fc1_act := map (map tanh) K2fc1 in
  K2 ← linear (K2fc_layer_2 net) K2fc1_act;
  K ← stack2 K1 K2;
  dx ← bcast_mat Rminus x (x_goal net);
  Kdx ← bmm K (map unsqueeze_last dx);
  bcast (bcast_mat Rplus) (map (mscale (-1)) Kdx) [u_eq net].

Definition compute_lyapunov (net : CLF_K_QP_Net) (x : list vec)
  : res (vec * list mat) :=
  Vfc1 ← linear (Vfc_layer_1 net) x;
  let Vfc1_act := map (map tanh) Vfc1 in
  Vfc2 ← linear (Vfc_layer_2 net) Vfc1_act;
  let Vfc2_act := map (map tanh) Vfc2 in
  let V := map (fun h => 0.5 * Rsum (zip_with Rmult h h)) Vfc2_act in
  DVfc1_act ← mapM_res (fun h => matmul_chk (d_tanh_dx h) (weight (Vfc_layer_1 net)))
                Vfc1_act;
  D2 ← mapM_res (fun h => matmul_chk (d_tanh_dx h) (weight (Vfc_layer_2 net)))
         Vfc2_act;
  DVfc2_act ← bmm D2 DVfc1_act;
  grad_V ← bmm (map (fun h => [h]) Vfc2_act) DVfc2_act;
  Ok (V, grad_V).

(** The Lyapunov value of a single state, as compute_lyapunov returns it. *)
Definition lyapunov_value (net : CLF_K_QP_Net) (y : vec) : R :=
  match compute_lyapunov net [y] with
  | Ok ([v], _) => v
  | _ => 0
  end.

(** The shapes that nn.Linear(n_input, n_hidden) and
    nn.Linear(n_hidden, n_hidden) give the two Lyapunov layers, with at
    least one hidden unit. *)
Definition wf_lyapunov (net : CLF_K_QP_Net) : bool :=
  wf_linear (Vfc_layer_1 net) && wf_linear (Vfc_layer_2 net)
  && Nat.eqb (out_features (Vfc_layer_1 net)) (in_features (Vfc_layer_2 net))
  && Nat.ltb 0 (out_features (Vfc_layer_1 net))
  && Nat.ltb 0 (out_features (Vfc_layer_2 net)).

(** ** Construction, forward pass and losses

    The convex solver behind the cvxpylayers layer, cvxpy's
    disciplined-parametrized-programming test and the random initialisation
    of nn.Linear are external to the repository. *)

Section Network.

(** The solve of the layer's problem for one batch element. *)
Variable cvx_solve : Problem -> QPParams -> res QPVars.
(** problem.is_dpp() *)
Variable is_dpp : Problem -> bool.
(** The k-th call nn.Linear(i, o) of the constructor. *)
Variable nn_Linear : nat -> nat -> nat -> Linear.

Definition __init__ (n_input n_hidden n_controls : nat)
    (clf_lambda clf_relaxation_penalty : R)
    (control_affine_dynamics : list vec -> Scenario -> list vec * list mat)
    (u_nominal : list vec -> Scenario -> list vec)
    (scenarios : list Scenario) (nominal_scenario : Scenario)
    (x_goal u_eq : mat) (G_u : mat) (h_u : vec) : res CLF_K_QP_Net :=
  if negb (Nat.ltb 0 (length scenarios))
  then Raise (AssertionError "Must pass at least one scenario")
  else
  if negb (Nat.eqb (length G_u) (length h_u))
  then Raise (AssertionError "G_u and h_u must have consistent dimensions")
  else
  problem ← build_problem (length scenarios) n_controls clf_lambda G_u h_u;
  if negb (is_dpp problem)
  then Raise (AssertionError "")
  else
  Ok {| dynamics := control_affine_dynamics;
        u_nominal := u_nominal;
        scenarios := scenarios;
        nominal_scenario := nominal_scenario;
        x_goal := x_goal;
        u_eq := transpose u_eq;
        Vfc_layer_1 := nn_Linear 0 n_input n_hidden;
        Vfc_layer_2 := nn_Linear 1 n_hidden n_hidden;
        K1fc_layer_1 := nn_Linear 2 n_input n_hidden;
        K1fc_layer_2 := nn_Linear 3 n_hidden n_input;
        K2fc_layer_1 := nn_Linear 4 n_input n_hidden;
        K2fc_layer_2 := nn_Linear 5 n_hidden n_input;
        n_controls := n_controls;
        clf_lambda := clf_lambda;
        clf_relaxation_penalty := clf_relaxation_penalty;
        G_u := G_u;
        h_u := h_u;
        use_QP := true;
        qp_layer := {| layer_problem := problem;
                       layer_n_scenarios := length scenarios;
                       layer_n_controls := n_controls |};
        extra_attrs := ∅ |}.

(** *** Calling the QP layer *)

Definition has_shape (B c : nat) (t : list vec) : bool :=
  Nat.eqb (length t) B && forallb (fun r => Nat.eqb (length r) c) t.

(** The parameter values of batch element [b]. *)
Definition qp_args (L_f_Vs L_g_Vs : list (list vec)) (V u_nom : list vec)
    (penalty : vec) (b : nat) : QPParams :=
  {| p_L_f_Vs := map (fun t => nth 0 (nth b t []) 0) L_f_Vs;
     p_L_g_Vs := map (fun t => nth b t []) L_g_Vs;
     p_V := nth 0 (nth b V []) 0;
     p_u_nominal := nth b u_nom [];
     p_relaxation_penalty := nth 0 penalty 0 |}.

(** The layer checks the arguments against the declared parameter shapes,
    solves every batch element and returns the control [B, n_controls]
    followed by one relaxation [B, 1] per scenario. *)
Definition qp_layer_call (layer : CvxpyLayer)
    (L_f_Vs L_g_Vs : list (list vec)) (V u_nom : list vec) (penalty : vec)
  : res (list vec * list vec) :=
  let B := length V in
  if Nat.eqb (length L_f_Vs) (layer_n_scenarios layer)
     && Nat.eqb (length L_g_Vs) (layer_n_scenarios layer)
     && forallb (has_shape B 1) L_f_Vs
     && forallb (has_shape B (layer_n_controls layer)) L_g_Vs
     && has_shape B 1 V
     && has_shape B (layer_n_controls layer) u_nom
     && Nat.eqb (length penalty) 1
  then
    sols ← mapM_res (fun b => cvx_solve (layer_problem layer)
                                (qp_args L_f_Vs L_g_Vs V u_nom penalty b))
             (seq 0 B);
    Ok (map v_u sols,
        map (fun i => map (fun s => nth i (v_clf_relaxations s) 0) sols)
            (seq 0 (layer_n_scenarios layer)))
  else Raise ShapeError.

(** *** forward *)

(** L_f_V.unsqueeze(-1) + bmm(L_g_V.unsqueeze(1), u) + clf_lambda * V.
    The first two summands are [B, 1, 1] and V is [B], so the sum
    broadcasts to [B, 1, B]. *)
Definition clf_term (lam : R) (L_f_V L_g_V : list vec) (u : list mat) (V : vec)
  : res (list (list vec)) :=
  LgVu ← bmm (map (fun r => [r]) L_g_V) u;
  s ← bcast (bcast_mat Rplus) (map unsqueeze_last L_f_V) LgVu;
  mapM_res (mapM_res (fun row => bcast_vec Rplus row (vscale lam V))) s.

Definition relu3 (t : list (list vec)) : list (list vec) :=
  map (map (map relu)) t.

(** In-place addition of tensors of one shape. *)
Definition iadd1 (a b : vec) : res vec := zipM (fun p q => Ok (p + q)) a b.
Definition iadd3 (a b : list (list vec)) : res (list (list vec)) :=
  zipM (zipM iadd1) a b.

(** [relaxation += rs[i]] on the tensor objects held in [heap]. *)
Definition heap_iadd (heap : list vec) (dst src : nat) : res (list vec) :=
  a ← index heap dst;
  b ← index heap src;
  c ← iadd1 a b;
  Ok (<[dst := c]> heap).

Definition heap_idiv (heap : list vec) (dst : nat) (n : nat) : res (list vec) :=
  a ← index heap dst;
  Ok (<[dst := map (fun p => p / INR n) a]> heap).

Definition lie_derivatives (net : CLF_K_QP_Net) (x : list vec) (grad_V : list mat)
  : res (list (list vec * list vec)) :=
  mapM_res (fun scenario =>
              let '(f, g) := dynamics net x scenario in
              LfV ← bmm grad_V (map unsqueeze_last f);
              LgV ← bmm grad_V g;
              Ok (map (@concat R) LfV, map (@concat R) LgV))
           (scenarios net).

Fixpoint accumulate (lam : R) (L_f_Vs L_g_Vs : list (list vec)) (u : list mat)
    (V : vec) (rs : list nat) (relaxation : nat) (range : list nat)
    (Vdot : list (list vec)) (heap : list vec)
  : res (list (list vec) * list vec) :=
  match range with
  | [] => Ok (Vdot, heap)
  | i :: range' =>
      L_f_V ← index L_f_Vs i;
      L_g_V ← index L_g_Vs i;
      t ← clf_term lam L_f_V L_g_V u V;
      Vdot ← iadd3 Vdot (relu3 t);
      r_i ← index rs i;
      heap ← heap_iadd heap relaxation r_i;
      accumulate lam L_f_Vs L_g_Vs u V rs relaxation range' Vdot heap
  end.

(** The tensors of the relaxations live in [heap]; [rs] lists their
    addresses.  With the QP every relaxation is an object of its own;
    without it [[torch.tensor([0.0])] * n] lists one object n times. *)
Definition forward (net : CLF_K_QP_Net) (x : list vec)
  : res (list mat * vec * vec * list (list vec)) :=
  '(V, grad_V) ← compute_lyapunov net x;
  u_learned ← compute_controls net x;
  Ls ← lie_derivatives net x grad_V;
  let L_f_Vs := map fst Ls in
  let L_g_Vs := map snd Ls in
  '(u, heap, rs) ←
    (if use_QP net then
       u_squeezed ← mapM_res squeeze_last u_learned;
       '(u, result_rs) ← qp_layer_call (qp_layer net) L_f_Vs L_g_Vs
                           (map (fun v => [v]) V)
                           u_squeezed
                           [clf_relaxation_penalty net];
       Ok (map unsqueeze_last u, result_rs, seq 0 (length result_rs))
     else
       Ok (u_learned, [[0]], replicate (length (scenarios net)) 0%nat));
  let n_scenarios := length (scenarios net) in
  L_f_V0 ← index L_f_Vs 0;
  L_g_V0 ← index L_g_Vs 0;
  t0 ← clf_term (clf_lambda net) L_f_V0 L_g_V0 u V;
  let Vdot := relu3 t0 in
  relaxation ← index rs 0;
  '(Vdot, heap) ← accumulate (clf_lambda net) L_f_Vs L_g_Vs u V rs relaxation
                    (seq 1 (n_scenarios - 1)) Vdot heap;
  let Vdot := map (map (map (fun p => p / INR n_scenarios))) Vdot in
  heap ← heap_idiv heap relaxation n_scenarios;
  r ← index heap relaxation;
  Ok (u, r, V, Vdot).

(** *** Losses *)

(** x[mask] for a boolean mask over the batch. *)
Fixpoint masked {A : Type} (x : list A) (mask : list bool) : res (list A) :=
  match x, mask with
  | [], [] => Ok []
  | a :: x', b :: mask' =>
      r ← masked x' mask';
      Ok (if b then a :: r else r)
  | _, _ => Raise IndexError
  end.

(** (100.0 * (t == 0)).mean() *)
Definition pct_zero (t : vec) : R :=
  mean (map (fun a => 100 * (if Req_dec_T a 0 then 1 else 0)) t).

(** tensor.squeeze() of a batch of columns [B, n, 1]: every dimension of
    size one goes.  For n = 1 and B > 1 what is left is the vector [B],
    which broadcasts against a matrix as its single row; in the other cases
    the rows [B, n] broadcast as the squeezed tensor does. *)
Definition squeeze (t : list mat) : res (list vec) :=
  rows ← mapM_res squeeze_last t;
  Ok (if Nat.ltb 1 (length rows)
         && forallb (fun row => Nat.eqb (length row) 1) rows
      then [concat rows]
      else rows).

(** One pass of the loop over the scenarios in lyapunov_loss.  The
    accumulator starts as the Python float 0.0 ([None]) and is a tensor
    from the first scenario on. *)
Fixpoint descent_sim (net : CLF_K_QP_Net) (x : list vec) (u : list mat) (V : vec)
    (lam timestep : R) (ss : list Scenario) (acc : option vec)
  : res (option vec) :=
  match ss with
  | [] => Ok acc
  | s :: ss' =>
      let '(f, g) := dynamics net x s in
      gu ← bmm g u;
      gu ← squeeze gu;
      xdot ← bcast_mat Rplus f gu;
      x_next ← bcast_mat Rplus x (mscale timestep xdot);
      '(V_next, _) ← compute_lyapunov net x_next;
      d ← bcast_vec Rminus V_next (vscale (1 - lam * timestep) V);
      let t := map relu d in
      acc ← match acc with
             | None => Ok (Some t)
             | Some a => a' ← iadd1 a t; Ok (Some a')
             end;
      descent_sim net x u V lam timestep ss' acc
  end.

(** The value returned and the lines printed. *)
Definition lyapunov_loss (x x_goal : list vec) (safe_mask unsafe_mask : list bool)
    (net : CLF_K_QP_Net) (lam safe_level timestep : R) (print_loss : bool)
  : res (R * list (string * R)) :=
  let loss := 0 in
  '(V0, _) ← compute_lyapunov net x_goal;
  let goal_term := map (fun v => relu v ^ 2) V0 in
  let loss := loss + mean goal_term in
  x_safe ← masked x safe_mask;
  '(V_safe, _) ← compute_lyapunov net x_safe;
  let safe_lyap_term := map (fun v => 100 * relu (v - safe_level)) V_safe in
  let loss := if Nat.ltb 0 (length safe_lyap_term)
              then loss + mean safe_lyap_term else loss in
  x_unsafe ← masked x unsafe_mask;
  '(V_unsafe, _) ← compute_lyapunov net x_unsafe;
  let unsafe_lyap_term := map (fun v => 100 * relu (safe_level - v)) V_unsafe in
  let loss := if Nat.ltb 0 (length unsafe_lyap_term)
              then loss + mean unsafe_lyap_term else loss in
  '(u, r, V, lyap_descent_term_expected) ← forward net x;
  sim ← descent_sim net x u V lam timestep (scenarios net) None;
  lyap_descent_term_sim ← match sim with
                           | Some t => Ok t
                           | None => Raise AttributeError
                           end;
  let loss := loss + (mean lyap_descent_term_sim
                      + mean (concat (concat lyap_descent_term_expected))) in
  let loss := loss + mean r in
  d ← bcast_mat Rminus x [map mean (transpose x_goal)];
  let tuning_signal := map (fun row => 0.1 * mean (map (fun a => a ^ 2) row)) d in
  t ← bcast_vec Rminus tuning_signal V;
  let lyap_tuning_term := map relu t in
  Ok (loss,
      if print_loss then
        [ ("CLF origin", mean goal_term);
          ("CLF safe region term", mean safe_lyap_term);
          ("(% satisfied)", pct_zero safe_lyap_term);
          ("CLF unsafe region term", mean unsafe_lyap_term);
          ("(% satisfied)", pct_zero unsafe_lyap_term);
          ("CLF descent term", mean lyap_descent_term_sim);
          ("(% satisfied)", pct_zero lyap_descent_term_sim);
          ("CLF relaxation term", mean r);
          ("CLF tuning term", mean lyap_tuning_term) ]%string
      else []).

(** sum(dim=-1) of the squared rows. *)
Definition row_sq_sums (t : mat) : vec :=
  map (fun row => Rsum (map (fun a => a ^ 2) row)) t.

Definition controller_loss (x : list vec) (net : CLF_K_QP_Net) (print_loss : bool)
    (use_nominal : bool) (use_eq : option (list vec)) (loss_coeff : R)
  : res (R * list (string * R)) :=
  '(u_learned, _, _, _) ← forward net x;
  u_learned ← mapM_res squeeze_last u_learned;
  controller_squared_error ←
    (if use_nominal then
       let u_nominal := u_nominal net x (nominal_scenario net) in
       d ← bcast_mat Rminus u_nominal u_learned;
       Ok (vscale loss_coeff (row_sq_sums d))
     else match use_eq with
          | Some x_eq =>
              let u_eq := u_nominal net x_eq (nominal_scenario net) in
              d ← bcast_mat Rminus u_eq u_learned;
              Ok (vscale loss_coeff (row_sq_sums d))
          | None => Ok (vscale loss_coeff (row_sq_sums u_learned))
          end);
  let loss := mean controller_squared_error in
  Ok (loss,
      if print_loss then [ ("controller term"%string, mean controller_squared_error) ]
      else []).

(** The controller loss in the words of the specification: loss_coeff
    times the batch mean of the squared deviation of the output of
    compute_controls from the nominal controller. *)
Definition spec_controller_loss (x : list vec) (net : CLF_K_QP_Net)
    (loss_coeff : R) : res R :=
  u ← compute_controls net x;
  u ← mapM_res squeeze_last u;
  d ← bcast_mat Rminus (u_nominal net x (nominal_scenario net)) u;
  Ok (loss_coeff * mean (row_sq_sums d)).

End Network.

(** The value a loss returns, without what it printed. *)
Definition returned {A B : Type} (r : res (A * B)) : res A :=
  match r with
  | Ok (a, _) => Ok a
  | Raise e => Raise e
  end.

(** ** The training script quad9d_robust_clf_qp *)

Record StateDict : Type := {
  sd_Vfc_layer_1 : Linear;
  sd_Vfc_layer_2 : Linear;
  sd_K1fc_layer_1 : Linear;
  sd_K1fc_layer_2 : Linear;
  sd_K2fc_layer_1 : Linear;
  sd_K2fc_layer_2 : Linear
}.

Definition state_dict (net : CLF_K_QP_Net) : StateDict :=
  {| sd_Vfc_layer_1 := Vfc_layer_1 net; sd_Vfc_layer_2 := Vfc_layer_2 net;
     sd_K1fc_layer_1 := K1fc_layer_1 net; sd_K1fc_layer_2 := K1fc_layer_2 net;
     sd_K2fc_layer_1 := K2fc_layer_1 net; sd_K2fc_layer_2 := K2fc_layer_2 net |}.

(** The learned parameters are replaced; every other attribute stays. *)
Definition load_state_dict (sd : StateDict) (net : CLF_K_QP_Net) : CLF_K_QP_Net :=
  {| dynamics := dynamics net; u_nominal := u_nominal net;
     scenarios := scenarios net; nominal_scenario := nominal_scenario net;
     x_goal := x_goal net; u_eq := u_eq net;
     Vfc_layer_1 := sd_Vfc_layer_1 sd; Vfc_layer_2 := sd_Vfc_layer_2 sd;
     K1fc_layer_1 := sd_K1fc_layer_1 sd; K1fc_layer_2 := sd_K1fc_layer_2 sd;
     K2fc_layer_1 := sd_K2fc_layer_1 sd; K2fc_layer_2 := sd_K2fc_layer_2 sd;
     n_controls := n_controls net; clf_lambda := clf_lambda net;
     clf_relaxation_penalty := clf_relaxation_penalty net;
     G_u := G_u net; h_u := h_u net; use_QP := use_QP net;
     qp_layer := qp_layer net; extra_attrs := extra_attrs net |}.

(** One call of a loss function, as the training loop issues it. *)
Record LossCall : Type := {
  lc_epoch : nat;
  lc_held_out : bool;
  lc_loss : string;
  lc_use_QP : bool;
  lc_print_loss : bool
}.

Record Checkpoint : Type := {
  ck_relaxation_penalty : R;
  ck_clf_net : StateDict
}.

Record TrainState : Type := {
  clf_net : CLF_K_QP_Net;
  optimizer_lr : R;
  test_losses : list R;
  saved : option Checkpoint
}.

(** Computations of the script: they read and write the script's state,
    may raise, and issue loss calls; the state survives an exception. *)
Definition Loop (A : Type) : Type :=
  TrainState -> list LossCall * (res A * TrainState).

Definition loop_ret {A : Type} (a : A) : Loop A := fun st => ([], (Ok a, st)).
Definition loop_bind {A B : Type} (m : Loop A) (k : A -> Loop B) : Loop B :=
  fun st =>
    match m st with
    | (log, (Ok a, st')) => let '(log', out) := k a st' in (log ++ log', out)
    | (log, (Raise e, st')) => (log, (Raise e, st'))
    end.
Definition lift {A : Type} (r : res A) : Loop A := fun st => ([], (r, st)).
Definition get_state : Loop TrainState := fun st => ([], (Ok st, st)).
Definition put_state (st : TrainState) : Loop unit := fun _ => ([], (Ok tt, st)).

Declare Scope loop_scope.
Delimit Scope loop_scope with loop.
Notation "x <- m ;; k" := (loop_bind m (fun x => k))
  (at level 100, m at next level, right associativity) : loop_scope.
Notation "m ;;; k" := (loop_bind m (fun _ => k))
  (at level 100, right associativity) : loop_scope.

Fixpoint for_each {A : Type} (body : A -> Loop unit) (range : list A) : Loop unit :=
  match range with
  | [] => loop_ret tt
  | a :: range' => loop_bind (body a) (fun _ => for_each body range')
  end.

Definition set_net (net : CLF_K_QP_Net) : Loop unit := fun st =>
  ([], (Ok tt, {| clf_net := net; optimizer_lr := optimizer_lr st;
                  test_losses := test_losses st; saved := saved st |})).

Definition Rleb (a b : R) : bool := if Rle_dec a b then true else false.
Definition Rltb (a b : R) : bool := if Rlt_dec a b then true else false.

Definition norm (v : vec) : R := sqrt (Rsum (map (fun a => a ^ 2) v)).
Definition list_min (l : list R) : R :=
  match l with
  | [] => 0
  | a :: l' => fold_left Rmin l' a
  end.

Module quad9d_robust_clf_qp.

Definition safe_z : R := 0.
Definition unsafe_z : R := 0.3.
Definition safe_radius : R := 3.
Definition unsafe_radius : R := 3.5.

Definition relaxation_penalty : R := 10.
Definition clf_lambda : R := 0.1.
Definition safe_level : R := 10.
Definition timestep : R := 0.001.
Definition learning_rate : R := 0.001.
Definition epochs : nat := 1000.
Definition batch_size : nat := 64.
Definition init_controller_loss_coeff : R := 0.1.

Definition adjust_learning_rate (epoch : nat) : Loop unit := fun st =>
  let lr := learning_rate in
  ([], (Ok tt, {| clf_net := clf_net st; optimizer_lr := Rmax lr 0.0001;
                  test_losses := test_losses st; saved := saved st |})).

Definition adjust_relaxation_penalty (clf_net : CLF_K_QP_Net) (epoch : nat)
  : CLF_K_QP_Net :=
  let penalty := relaxation_penalty * 2 ^ (epoch / 2) in
  setattr_float clf_net "relaxation_penalty" penalty.

Definition adjust_controller_penalty (epoch : nat) : R :=
  let penalty := init_controller_loss_coeff * 0.1 ^ (epoch / 1) in
  Rmax penalty 0.00001.

Section Script.

(** CLF_QP_Net, lyapunov_loss and controller_loss are imported by the script
    from neural_clf.controllers.clf_qp_net, which is not among the sources.
    The two losses are parameters here, with the arguments the script
    passes (x, x0, the masks, the network, clf_lambda, safe_level, timestep
    and print_loss; x, the network, print_loss, use_nominal and loss_coeff).
    The network object is represented by the record of CLF_K_QP_Net; the
    script itself only touches its attributes use_QP and relaxation_penalty
    and its learned parameters. *)
Variable lyapunov_loss :
  list vec -> list vec -> list bool -> list bool -> CLF_K_QP_Net ->
  R -> R -> R -> bool -> res (R * list (string * R)).
Variable controller_loss :
  list vec -> CLF_K_QP_Net -> bool -> bool -> R -> res (R * list (string * R)).
(** loss.backward() followed by optimizer.step(): the new values of the
    learned parameters. *)
Variable sgd_step : CLF_K_QP_Net -> list vec -> R -> R -> StateDict.
(** torch.randperm(N_train) of each epoch. *)
Variable randperm : nat -> list nat.
(** StateIndex.PZ of models.quad9d. *)
Variable PZ : nat.
(** The sampled data. *)
Variables x_train x_test x0 : list vec.
(** The network as constructed and loaded from the checkpoint. *)
Variable loaded_net : CLF_K_QP_Net.

Definition safe_mask_of (x : list vec) : res (list bool) :=
  mapM_res (fun row => z ← index row PZ;
                       Ok (Rleb z safe_z && Rleb (norm row) safe_radius)) x.
Definition unsafe_mask_of (x : list vec) : res (list bool) :=
  mapM_res (fun row => z ← index row PZ;
                       Ok (Rleb unsafe_z z || Rleb unsafe_radius (norm row))) x.

Definition call_lyapunov_loss (epoch : nat) (held_out : bool) (x x_goal : list vec)
    (safe_mask unsafe_mask : list bool) (print_loss : bool) : Loop R := fun st =>
  ([ {| lc_epoch := epoch; lc_held_out := held_out; lc_loss := "lyapunov_loss";
        lc_use_QP := use_QP (clf_net st); lc_print_loss := print_loss |} ],
   (returned (lyapunov_loss x x_goal safe_mask unsafe_mask (clf_net st)
                clf_lambda safe_level timestep print_loss), st)).

Definition call_controller_loss (epoch : nat) (held_out : bool) (x : list vec)
    (print_loss : bool) (loss_coeff : R) : Loop R := fun st =>
  ([ {| lc_epoch := epoch; lc_held_out := held_out; lc_loss := "controller_loss";
        lc_use_QP := use_QP (clf_net st); lc_print_loss := print_loss |} ],
   (returned (controller_loss x (clf_net st) print_loss true loss_coeff), st)).

Definition train_batch (epoch : nat) (permutation : list nat)
    (controller_loss_coeff : R) (i : nat) : Loop unit :=
  (let indices := take batch_size (drop i permutation) in
   x <- lift (mapM_res (index x_train) indices) ;;
   safe_mask <- lift (safe_mask_of x) ;;
   unsafe_mask <- lift (unsafe_mask_of x) ;;
   l1 <- call_lyapunov_loss epoch false x x0 safe_mask unsafe_mask false ;;
   l2 <- call_controller_loss epoch false x false controller_loss_coeff ;;
   st <- get_state ;;
   set_net (load_state_dict
              (sgd_step (clf_net st) x controller_loss_coeff (optimizer_lr st))
              (clf_net st)))%loop.

Definition save_if_best (loss : R) : Loop unit :=
  (st <- get_state ;;
   (if match test_losses st with
       | [] => true
       | _ => Rltb loss (list_min (test_losses st))
       end
    then
      penalty <- lift (match extra_attrs (clf_net st) !! "relaxation_penalty" with
                       | Some a => Ok a
                       | None => Raise AttributeError
                       end) ;;
      put_state {| clf_net := clf_net st; optimizer_lr := optimizer_lr st;
                   test_losses := test_losses st;
                   saved := Some {| ck_relaxation_penalty := penalty;
                                    ck_clf_net := state_dict (clf_net st) |} |}
    else loop_ret tt) ;;;
   st <- get_state ;;
   put_state {| clf_net := clf_net st; optimizer_lr := optimizer_lr st;
                test_losses := test_losses st ++ [loss]; saved := saved st |})%loop.

Definition test_evaluation (epoch : nat) (safe_mask_test unsafe_mask_test : list bool)
    (controller_loss_coeff : R) : Loop unit :=
  (l1 <- call_lyapunov_loss epoch true x_test x0 safe_mask_test unsafe_mask_test true ;;
   l2 <- call_controller_loss epoch true x_test true controller_loss_coeff ;;
   save_if_best (0 + l1 + l2))%loop.

Definition epoch_body (safe_mask_test unsafe_mask_test : list bool) (epoch : nat)
  : Loop unit :=
  (let N_train := length x_train in
   let permutation := randperm epoch in
   adjust_learning_rate epoch ;;;
   st <- get_state ;;
   set_net (adjust_relaxation_penalty (clf_net st) epoch) ;;;
   let controller_loss_coeff := adjust_controller_penalty epoch in
   for_each (train_batch epoch permutation controller_loss_coeff)
     (map (fun k => k * batch_size)%nat
          (seq 0 (Nat.div (N_train + batch_size - 1) batch_size))) ;;;
   (if Nat.eqb N_train 0 then lift (Raise ZeroDivisionError) else loop_ret tt) ;;;
   test_evaluation epoch safe_mask_test unsafe_mask_test controller_loss_coeff)%loop.

(** The script from the masks of the held-out set on, for the given
    number of epochs. *)
Definition run (n_epochs : nat) : Loop unit :=
  (safe_mask_test <- lift (safe_mask_of x_test) ;;
   unsafe_mask_test <- lift (unsafe_mask_of x_test) ;;
   set_net (set_use_QP false loaded_net) ;;;
   for_each (epoch_body safe_mask_test unsafe_mask_test) (seq 0 n_epochs))%loop.

Definition main : Loop unit := run epochs.

Definition initial_state : TrainState :=
  {| clf_net := loaded_net; optimizer_lr := learning_rate;
     test_losses := []; saved := None |}.

End Script.

End quad9d_robust_clf_qp.


(** ** Notions used in the statements *)

(** The point that is feasible whatever the parameters are. *)
Definition relaxed_point (n_scenarios n_controls : nat) (lam : R) (p : QPParams)
  : QPVars :=
  {| v_u := replicate n_controls 0;
     v_clf_relaxations :=
       map (fun i => Rmax 0 (nth i (p_L_f_Vs p) 0 + lam * p_V p)) (seq 0 n_scenarios) |}.

(** A triple for script computations: from a state in [P] every issued
    call satisfies [C], and a normal end yields a value and state in [Q]. *)
Definition triple {A : Type} (C : LossCall -> Prop) (P : TrainState -> Prop)
    (m : Loop A) (Q : A -> TrainState -> Prop) : Prop :=
  forall st, P st ->
    Forall C (fst (m st))
    /\ match snd (m st) with
       | (Ok a, st') => Q a st'
       | (Raise _, _) => True
       end.

(** What the script guarantees about a call on the held-out set. *)
Definition held_out_mode (call : LossCall) : Prop :=
  lc_held_out call = true -> lc_use_QP call = false /\ lc_print_loss call = true.

Definition qp_off (st : TrainState) : Prop := use_QP (clf_net st) = false.

(** A path of vectors is given by its component functions. *)
Definition eval (fs : list (R -> R)) (t : R) : vec := map (fun f => f t) fs.

Definition derivs (fs : list (R -> R)) (dfs : vec) : Prop :=
  Forall2 (fun f df => derivable_pt_lim f 0 df) fs dfs.

(** The affine path x + t * d. *)
Definition line (x d : vec) : list (R -> R) :=
  zip_with (fun a b => fun t => a + t * b) x d.

(** A linear layer along a path. *)
Definition linear_path (W : mat) (b : vec) (fs : list (R -> R)) : list (R -> R) :=
  zip_with (fun row c => fun t => dot row (eval fs t) + c) W b.

(** The activation along a path. *)
Definition tanh_path (fs : list (R -> R)) : list (R -> R) :=
  map (fun f => fun t => tanh (f t)) fs.

(** compute_lyapunov on one row of the batch: the activations, the value,
    the two Jacobians and the gradient. *)
Definition hidden_1 (net : CLF_K_QP_Net) (y : vec) : vec :=
  map tanh (linear_row (Vfc_layer_1 net) y).
Definition hidden_2 (net : CLF_K_QP_Net) (y : vec) : vec :=
  map tanh (linear_row (Vfc_layer_2 net) (hidden_1 net y)).
Definition lyapunov_row (net : CLF_K_QP_Net) (y : vec) : R :=
  0.5 * Rsum (zip_with Rmult (hidden_2 net y) (hidden_2 net y)).
Definition jacobian_1 (net : CLF_K_QP_Net) (y : vec) : mat :=
  matmul (d_tanh_dx (hidden_1 net y)) (weight (Vfc_layer_1 net)).
Definition jacobian_2 (net : CLF_K_QP_Net) (y : vec) : mat :=
  matmul (matmul (d_tanh_dx (hidden_2 net y)) (weight (Vfc_layer_2 net)))
    (jacobian_1 net y).
Definition gradient_row (net : CLF_K_QP_Net) (y : vec) : vec :=
  vecmat (hidden_2 net y) (jacobian_2 net y).

(** ** The planar quadrotor of models/pvtol.py

    The state is [x, z, theta, vx, vz, theta_dot] and the two controls are
    the rotor thrusts.  The LQR solver of models.utils is external. *)

Module pvtol.

Definition g : R := 9.81.
Definition low_m : R := 1.
Definition high_m : R := low_m * 1.5.
Definition low_I : R := 0.01.
Definition high_I : R := low_I * 1.5.
Definition r : R := 0.25.
Definition n_dims : nat := 6.
Definition n_controls : nat := 2.

Definition max_u : R := 100.
Definition G : mat := [[1; 0]; [-1; 0]; [0; 1]; [0; -1]].
Definition h : vec := [max_u; max_u; max_u; max_u].

(** One row of f_func: the columns 3, 4 and 5 of x are read, which needs a
    state of at least six entries; f has the shape of x. *)
Definition f_row (x : vec) : res vec :=
  vx ← index x 3;
  vz ← index x 4;
  theta_dot ← index x 5;
  let f := replicate (length x) 0 in
  let f := <[0%nat := vx]> f in
  let f := <[1%nat := vz]> f in
  let f := <[2%nat := theta_dot]> f in
  let f := <[3%nat := 0]> f in
  let f := <[4%nat := - g]> f in
  let f := <[5%nat := 0]> f in
  Ok f.

Definition f_func (x : list vec) (m inertia : R) : res (list vec) :=
  mapM_res f_row x.

(** g_func reads the column 2 of x; r / inertia is a division of Python
    floats and raises for a zero inertia, the division of a tensor by m
    does not raise. *)
Definition g_func (x : list vec) (m inertia : R) : res (list mat) :=
  thetas ← mapM_res (fun row => index row 2) x;
  if Req_dec_T inertia 0 then Raise ZeroDivisionError
  else
    Ok (map (fun theta =>
               [ [0; 0]; [0; 0]; [0; 0];
                 [- sin theta / m; - sin theta / m];
                 [cos theta / m; cos theta / m];
                 [r / inertia; - r / inertia] ]) thetas).

Definition control_affine_dynamics (x : list vec) (m inertia : R)
  : res (list vec * list mat) :=
  f ← f_func x m inertia;
  g ← g_func x m inertia;
  Ok (f, g).

(** The matrices of the linearisation that u_nominal hands to lqr. *)
Definition A : mat :=
  [ [0; 0; 0; 1; 0; 0];
    [0; 0; 0; 0; 1; 0];
    [0; 0; 0; 0; 0; 1];
    [0; 0; - g; 0; 0; 0];
    [0; 0; 0; 0; 0; 0];
    [0; 0; 0; 0; 0; 0] ].

Definition B (m inertia : R) : mat :=
  [ [0; 0]; [0; 0]; [0; 0]; [0; 0];
    [1 / m; 1 / m];
    [r / inertia; - r / inertia] ].

Definition eye (n : nat) : mat := diag_embed (replicate n 1).

Section Nominal.

(** lqr(A, B, Q, R) of models.utils: the feedback gain, or an exception. *)
Variable lqr : mat -> mat -> mat -> mat -> res mat.

(** The entries of B are quotients of Python floats, so a zero mass or a
    zero inertia raises before lqr is called. *)
Definition u_nominal (x : list vec) (m inertia : R) : res (list vec) :=
  if Req_dec_T m 0 then Raise ZeroDivisionError
  else if Req_dec_T inertia 0 then Raise ZeroDivisionError
  else
    K ← lqr A (B m inertia) (eye n_dims) (eye n_controls);
    KxT ← matmul_chk K (transpose x);
    let u_nom := map (map Ropp) (transpose KxT) in
    Ok (map (map (fun a => a + m * g / 2)) u_nom).

End Nominal.

End pvtol.

(** The control that u_nominal adds to the feedback: half the weight on
    each rotor. *)
Definition hover_control (m : R) : vec := [m * pvtol.g / 2; m * pvtol.g / 2].

(** x_dot = f(x) + g(x) u for one state, from control_affine_dynamics. *)
Definition x_dot (x : vec) (m inertia : R) (u : vec) : res vec :=
  '(f, g) ← pvtol.control_affine_dynamics [x] m inertia;
  match f, g with
  | [f0], [g0] => Ok (vadd f0 (matvec g0 u))
  | _, _ => Raise ShapeError
  end.

(** The state derivative under the hover control, as a function of the
    state. *)
Definition hover_drift (m inertia : R) (x : vec) : vec :=
  match x_dot x m inertia (hover_control m) with
  | Ok v => v
  | Raise _ => []
  end.

(** A state at rest: any position, no tilt and no velocity. *)
Definition at_rest (px pz : R) : vec := [px; pz; 0; 0; 0; 0].

(** ** The sampling of the training script

    The states of the script are uniform samples in [0, 1), stretched to a
    box column by column.  The number of state dimensions comes from
    models.quad9d. *)

Fixpoint foldM_res {S A : Type} (f : S -> A -> res S) (l : list A) (s : S)
  : res S :=
  match l with
  | [] => Ok s
  | a :: l' => s' ← f s a; foldM_res f l' s'
  end.

Module sampling.

Definition domain : list (R * R) :=
  [ (-4, 4); (-4, 4); (-4, 4);
    (-8, 8); (-8, 8); (-8, 8);
    (- PI / 2, PI / 2); (- PI / 2, PI / 2); (- PI / 2, PI / 2) ].

Definition domain_near_origin : list (R * R) :=
  [ (-0.5, 1); (-0.5, 1); (-0.5, 1);
    (-1, 1); (-1, 1); (-1, 1);
    (- PI / 3, PI / 3); (- PI / 3, PI / 3); (- PI / 3, PI / 3) ].

Definition goal_domain : list (R * R) :=
  [ (0, 0); (0, 0); (0, 0); (0, 0); (0, 0); (0, 0); (0, 0); (0, 0); (0, 0) ].

(** x[:, i] = x[:, i] * (max_val - min_val) + min_val *)
Definition rescale_column (dom : list (R * R)) (x : list vec) (i : nat)
  : res (list vec) :=
  '(min_val, max_val) ← index dom i;
  mapM_res (fun row => a ← index row i;
                       Ok (<[i := a * (max_val - min_val) + min_val]> row)) x.

(** for i in range(n_dims): ... *)
Definition rescale (n_dims : nat) (dom : list (R * R)) (x : list vec)
  : res (list vec) :=
  foldM_res (rescale_column dom) (seq 0 n_dims) x.

End sampling.

(** A row lies in a box given by (min, max) pairs. *)
Definition in_box (dom : list (R * R)) (row : vec) : Prop :=
  Forall2 (fun a b => fst b <= a <= snd b) row dom.

(** What torch.Tensor(N, n).uniform_(0.0, 1.0) returns, as far as it
    matters: rows of n numbers between 0 and 1. *)
Definition unit_sample (n : nat) (x : list vec) : Prop :=
  Forall (fun row => length row = n /\ Forall (fun a => 0 <= a <= 1) row) x.

(** ** Notions used in the further properties *)

(** Every entry of a [B, r, c] tensor is nonnegative. *)
Definition nonneg3 (t : list (list vec)) : Prop :=
  Forall (Forall (Forall (fun a => 0 <= a))) t.

(** The point that keeps the nominal control and relaxes nothing. *)
Definition nominal_point (n_scenarios : nat) (p : QPParams) : QPVars :=
  {| v_u := p_u_nominal p; v_clf_relaxations := replicate n_scenarios 0 |}.

(** The CLF condition of scenario [i] holds at the nominal control. *)
Definition clf_holds_at_nominal (lam : R) (p : QPParams) (i : nat) : Prop :=
  nth i (p_L_f_Vs p) 0 + dot (nth i (p_L_g_Vs p) []) (p_u_nominal p)
  + lam * p_V p <= 0.

(** The reference control that controller_loss compares the control of the
    network with, if there is one. *)
Definition loss_reference (net : CLF_K_QP_Net) (x : list vec)
    (use_nominal : bool) (use_eq : option (list vec)) : option (list vec) :=
  if use_nominal then Some (u_nominal net x (nominal_scenario net))
  else match use_eq with
       | Some x_eq => Some (u_nominal net x_eq (nominal_scenario net))
       | None => None
       end.

(** The checkpoint that the script writes in state [st]. *)
Definition checkpoint_of (penalty : R) (st : TrainState) : Checkpoint :=
  {| ck_relaxation_penalty := penalty; ck_clf_net := state_dict (clf_net st) |}.

(** A row whose first [k] columns have been stretched to the box and whose
    other columns are still between 0 and 1. *)
Definition stretched (dom : list (R * R)) (k : nat) (row : vec) : Prop :=
  length row = length dom
  /\ forall j a, row !! j = Some a ->
       if (j <? k)%nat
       then exists b, dom !! j = Some b /\ fst b <= a <= snd b
       else 0 <= a <= 1.

(** The relaxations of the first [k] scenarios in the solver's answer [s],
    summed, and the tensor of these sums over the batch. *)
Definition relaxation_sum (k : nat) (s : QPVars) : R :=
  Rsum (map (fun i => nth i (v_clf_relaxations s) 0) (seq 0 k)).

Definition relaxation_sums (k : nat) (sols : list QPVars) : vec :=
  map (relaxation_sum k) sols.

(** What the QP layer returns as the relaxations: one tensor per scenario,
    read off the solver's answers [sols] for the batch. *)
Definition layer_relaxations (n : nat) (sols : list QPVars) : list vec :=
  map (fun i => map (fun s => nth i (v_clf_relaxations s) 0) sols) (seq 0 n).

(** The attribute relaxation_penalty of the network holds the value that
    the schedule gives for [epoch], and the checkpoint on disk is [s0]. *)
Definition scheduled (epoch : nat) (s0 : option Checkpoint) (st : TrainState)
  : Prop :=
  extra_attrs (clf_net st) !! "relaxation_penalty"%string
  = Some (quad9d_robust_clf_qp.relaxation_penalty * 2 ^ (epoch / 2))
  /\ saved st = s0.

(** The checkpoint is still [s0], or it was written in [epoch]. *)
Definition saved_in (epoch : nat) (s0 : option Checkpoint) (st : TrainState)
  : Prop :=
  saved st = s0
  \/ exists sd,
       saved st = Some {| ck_relaxation_penalty :=
                            quad9d_robust_clf_qp.relaxation_penalty
                            * 2 ^ (epoch / 2);
                          ck_clf_net := sd |}.

(** No requirement on the loss calls. *)
Definition any_call (c : LossCall) : Prop := True.

(** ** A small network used in the examples

    One state dimension, one hidden unit, two controls and one scenario.
    The gain networks are zero, so the learned control is the equilibrium
    control [5, 0]. *)

Module Example.

Definition layer (w b : R) : Linear :=
  {| in_features := 1; out_features := 1; weight := [[w]]; bias := [b] |}.

Definition zero_init (k i o : nat) : Linear :=
  {| in_features := i; out_features := o;
     weight := replicate o (replicate i 0); bias := replicate o 0 |}.

Definition dpp_always (p : Problem) : bool := true.

Definition example_dynamics (x : list vec) (s : Scenario) : list vec * list mat :=
  (map (fun _ => [0]) x, map (fun _ => [[1; 0]]) x).

Definition example_nominal (x : list vec) (s : Scenario) : list vec :=
  map (fun _ => [5; 0]) x.

Definition example_scenario : Scenario := {[ "m"%string := 1 ]}.

Definition example_weights : StateDict :=
  {| sd_Vfc_layer_1 := layer 1 0; sd_Vfc_layer_2 := layer 1 1;
     sd_K1fc_layer_1 := layer 0 0; sd_K1fc_layer_2 := layer 0 0;
     sd_K2fc_layer_1 := layer 0 0; sd_K2fc_layer_2 := layer 0 0 |}.

(** What __init__ returns for these arguments, see [constructed_ok]. *)
Definition constructed : CLF_K_QP_Net :=
  {| dynamics := example_dynamics;
     u_nominal := example_nominal;
     scenarios := [example_scenario];
     nominal_scenario := example_scenario;
     x_goal := [[0]];
     u_eq := [[5]; [0]];
     Vfc_layer_1 := zero_init 0 1 1;
     Vfc_layer_2 := zero_init 1 1 1;
     K1fc_layer_1 := zero_init 2 1 1;
     K1fc_layer_2 := zero_init 3 1 1;
     K2fc_layer_1 := zero_init 4 1 1;
     K2fc_layer_2 := zero_init 5 1 1;
     n_controls := 2;
     clf_lambda := 0.1;
     clf_relaxation_penalty := 10;
     G_u := [];
     h_u := [];
     use_QP := true;
     qp_layer := {| layer_problem :=
                      {| objective := qp_objective 1;
                         constraints := flat_map (clf_constraints_at 0.1) (seq 0 1) |};
                    layer_n_scenarios := 1;
                    layer_n_controls := 2 |};
     extra_attrs := ∅ |}.

Definition net : CLF_K_QP_Net := load_state_dict example_weights constructed.

(** gamma is the slope of V at the state 0 and c0 is clf_lambda * V(0). *)
Definition gamma : R := tanh 1 * (1 - tanh 1 ^ 2).

(** A solver that answers with the minimiser of the example's problem at
    the state 0. *)
Definition example_solve (prob : Problem) (p : QPParams) : res QPVars :=
  let u1 := 5 - 5 * gamma in
  Ok {| v_u := [u1; 0];
        v_clf_relaxations := [gamma * u1 + 0.1 * p_V p] |}.

(** The parameter values that forward binds at the state 0 and the
    answer of [example_solve] there. *)
Definition example_params : QPParams :=
  {| p_L_f_Vs := [0]; p_L_g_Vs := [[gamma; 0]];
     p_V := 0.5 * (tanh 1 * tanh 1);
     p_u_nominal := [5; 0]; p_relaxation_penalty := 10 |}.

Definition example_solution : QPVars :=
  {| v_u := [5 - 5 * gamma; 0];
     v_clf_relaxations :=
       [gamma * (5 - 5 * gamma) + 0.1 * (0.5 * (tanh 1 * tanh 1))] |}.

Definition no_solve (prob : Problem) (p : QPParams) : res QPVars :=
  Raise SolverError.

(** The losses of clf_uK_qp_net in the place of the ones the script
    imports, with controller_loss's default use_eq = None. *)
Definition example_lyapunov_loss :=
  lyapunov_loss no_solve.

Definition example_controller_loss (x : list vec) (net : CLF_K_QP_Net)
    (print_loss use_nominal : bool) (loss_coeff : R)
  : res (R * list (string * R)) :=
  controller_loss no_solve x net print_loss use_nominal None loss_coeff.

Definition keep_weights (net : CLF_K_QP_Net) (x : list vec) (coeff lr : R)
  : StateDict := state_dict net.

(** A run of the script on one training point and one held-out point,
    both at the origin, with StateIndex.PZ = 0. *)
Definition script_state : TrainState :=
  {| clf_net := net; optimizer_lr := quad9d_robust_clf_qp.learning_rate;
     test_losses := []; saved := None |}.

Definition script_run : list LossCall * (res unit * TrainState) :=
  quad9d_robust_clf_qp.main example_lyapunov_loss example_controller_loss
    keep_weights (fun _ => [0%nat]) 0
    [[0]] [[0]] [[0]] net script_state.

Definition first_held_out_call : LossCall :=
  {| lc_epoch := 0; lc_held_out := true; lc_loss := "lyapunov_loss";
     lc_use_QP := false; lc_print_loss := true |}.

End Example.

Module Probe.

(** A solver that hands the penalty it was given back as the relaxation,
    which makes the bound parameter visible in the output of forward. *)
Definition probe_solve (prob : Problem) (p : QPParams) : res QPVars :=
  Ok {| v_u := p_u_nominal p; v_clf_relaxations := [p_relaxation_penalty p] |}.

(** Parameter values with a negative drift term L_f V. *)
Definition negative_drift : QPParams :=
  {| p_L_f_Vs := [-1]; p_L_g_Vs := [[0; 0]]; p_V := 0;
     p_u_nominal := [0; 0]; p_relaxation_penalty := 10 |}.

(** u = 0 and r_s = L_f V_s + lambda * V for these values. *)
Definition spec_point : QPVars :=
  {| v_u := [0; 0]; v_clf_relaxations := [-1 + 0.1 * 0] |}.

End Probe.

(** ** Further examples *)

Module Example2.

(** The example network with its scenario list emptied after construction. *)
Definition no_scenarios : CLF_K_QP_Net :=
  {| dynamics := dynamics Example.net; u_nominal := u_nominal Example.net;
     scenarios := []; nominal_scenario := nominal_scenario Example.net;
     x_goal := x_goal Example.net; u_eq := u_eq Example.net;
     Vfc_layer_1 := Vfc_layer_1 Example.net;
     Vfc_layer_2 := Vfc_layer_2 Example.net;
     K1fc_layer_1 := K1fc_layer_1 Example.net;
     K1fc_layer_2 := K1fc_layer_2 Example.net;
     K2fc_layer_1 := K2fc_layer_1 Example.net;
     K2fc_layer_2 := K2fc_layer_2 Example.net;
     n_controls := n_controls Example.net; clf_lambda := clf_lambda Example.net;
     clf_relaxation_penalty := clf_relaxation_penalty Example.net;
     G_u := G_u Example.net; h_u := h_u Example.net; use_QP := false;
     qp_layer := qp_layer Example.net; extra_attrs := extra_attrs Example.net |}.

(** An LQR solver that answers with a fixed 2 x 6 gain. *)
Definition lqr_gain (A B Q R' : mat) : res mat :=
  Ok [[1; 0; 2; 0; 0; 3]; [0; 1; 0; 4; 5; 0]].

(** The state of the script before the first epoch, with the QP switched
    off as the script does. *)
Definition before_first_epoch : TrainState :=
  {| clf_net := set_use_QP false Example.net;
     optimizer_lr := quad9d_robust_clf_qp.learning_rate;
     test_losses := []; saved := None |}.

(** The first epoch on one training and one held-out state at the origin. *)
Definition first_epoch : list LossCall * (res unit * TrainState) :=
  quad9d_robust_clf_qp.epoch_body Example.example_lyapunov_loss
    Example.example_controller_loss Example.keep_weights
    (fun _ => [0%nat]) 0 [[0]] [[0]] [[0]] [true] [false] 0 before_first_epoch.

End Example2.
(** * Properties *)

(** ** The error monad *)

Lemma bind_Ok {A B : Type} (m : res A) (f : A -> res B) (b : B) :
  m ≫= f = Ok b -> exists a, m = Ok a /\ f a = Ok b.
Proof. destruct m as [a|e]; simpl; [eauto | discriminate]. Qed.

Ltac inv_bind H :=
  let a := fresh "a" in
  let Ha := fresh "H" a in
  apply bind_Ok in H; destruct H as (a & Ha & H).

Ltac inv_res :=
  repeat match goal with
    | H : Ok _ = Ok _ |- _ => injection H as H; subst
    | H : Raise _ = Ok _ |- _ => discriminate H
    | H : (_, _) = (_, _) |- _ => injection H as H; subst
    | H : _ ≫= _ = Ok _ |- _ => inv_bind H
    | H : (let '(_, _) := ?p in _) = Ok _ |- _ => destruct p
    | H : (if ?c then _ else _) = Ok _ |- _ => destruct c eqn:?
    end.

(** The example network is what the constructor returns. *)
Lemma constructed_ok :
  __init__ Example.dpp_always Example.zero_init 1 1 2 0.1 10
    Example.example_dynamics Example.example_nominal
    [Example.example_scenario] Example.example_scenario [[0]] [[5; 0]] [] []
  = Ok Example.constructed.
Proof. reflexivity. Qed.

(** ** The Lyapunov value *)

Lemma Rsum_squares_nonneg (h : vec) : 0 <= Rsum (zip_with Rmult h h).
Proof.
  induction h as [|a h IH]; simpl; [lra |].
  unfold Rsum in *. simpl. nra.
Qed.

(** C7: every entry of the Lyapunov value that compute_lyapunov returns is
    nonnegative. *)
Theorem compute_lyapunov_nonneg (net : CLF_K_QP_Net) (x : list vec)
    (V : vec) (grad_V : list mat) :
  compute_lyapunov net x = Ok (V, grad_V) ->
  Forall (fun v => 0 <= v) V.
Proof.
  unfold compute_lyapunov. intros H. inv_res.
  apply List.Forall_forall. intros v Hv.
  apply in_map_iff in Hv. destruct Hv as (h & <- & _).
  pose proof (Rsum_squares_nonneg h). lra.
Qed.

Lemma compute_lyapunov_nonneg_witness :
  exists V grad_V,
    compute_lyapunov Example.net [[0]; [1]] = Ok (V, grad_V)
    /\ Forall (fun v => 0 <= v) V.
Proof.
  do 2 eexists. split; [reflexivity|].
  exact (compute_lyapunov_nonneg Example.net [[0]; [1]] _ _ eq_refl).
Defined.

(** ** The relaxation-penalty schedule *)

Lemma adjust_relaxation_penalty_forward
    (cvx_solve : Problem -> QPParams -> res QPVars)
    (net : CLF_K_QP_Net) (epoch : nat) (x : list vec) :
  forward cvx_solve (quad9d_robust_clf_qp.adjust_relaxation_penalty net epoch) x
  = forward cvx_solve net x.
Proof. reflexivity. Qed.

(** C1: at epoch 2 the schedule computes the penalty 20 and stores it in the
    attribute relaxation_penalty, while forward still binds the initial
    value 10 of clf_relaxation_penalty as the parameter of the QP. *)
Theorem relaxation_penalty_not_annealed :
  let net2 := quad9d_robust_clf_qp.adjust_relaxation_penalty Example.net 2 in
  extra_attrs net2 !! "relaxation_penalty"%string
    = Some (quad9d_robust_clf_qp.relaxation_penalty * 2 ^ (2 / 2))
  /\ quad9d_robust_clf_qp.relaxation_penalty * 2 ^ (2 / 2) = 20
  /\ clf_relaxation_penalty net2 = 10
  /\ (exists u V Vdot,
        forward Probe.probe_solve net2 [[0]] = Ok (u, [10 / INR 1], V, Vdot)).
Proof.
  repeat split.
  - unfold quad9d_robust_clf_qp.relaxation_penalty. simpl. lra.
  - do 3 eexists. reflexivity.
Qed.

(** ** Feasibility of the relaxed QP *)

Lemma dot_replicate_0 (v : vec) (n : nat) : dot v (replicate n 0) = 0.
Proof.
  unfold dot, Rsum. revert n.
  induction v as [|a v IH]; intros [|n]; simpl; try reflexivity.
  rewrite IH. lra.
Qed.

Lemma nth_map_seq (f : nat -> R) (n i : nat) :
  (i < n)%nat -> nth i (map f (seq 0 n)) 0 = f i.
Proof.
  intros Hi.
  rewrite (nth_indep _ 0 (f 0%nat)) by (rewrite length_map, length_seq; exact Hi).
  rewrite map_nth, seq_nth by exact Hi. reflexivity.
Qed.


Lemma clf_constraints_relaxed_point (n_scenarios n_controls : nat) (lam : R)
    (p : QPParams) :
  Forall (fun c => c p (relaxed_point n_scenarios n_controls lam p))
         (flat_map (clf_constraints_at lam) (seq 0 n_scenarios)).
Proof.
  apply List.Forall_forall. intros c Hc.
  apply in_flat_map in Hc. destruct Hc as (i & Hi & Hc).
  apply in_seq in Hi.
  assert (Hr : nth i (v_clf_relaxations (relaxed_point n_scenarios n_controls lam p)) 0
               = Rmax 0 (nth i (p_L_f_Vs p) 0 + lam * p_V p)).
  { unfold relaxed_point. simpl.
    apply (nth_map_seq (fun i => Rmax 0 (nth i (p_L_f_Vs p) 0 + lam * p_V p))). lia. }
  destruct Hc as [<- | [<- | []]].
  - rewrite Hr. unfold relaxed_point at 1. simpl. rewrite dot_replicate_0.
    pose proof (Rmax_r 0 (nth i (p_L_f_Vs p) 0 + lam * p_V p)). lra.
  - rewrite Hr. pose proof (Rmax_l 0 (nth i (p_L_f_Vs p) 0 + lam * p_V p)). lra.
Qed.

(** C2, as the code has it: for a network constructed without control
    bounds and for all parameter values, the point u = 0,
    r_s = max(0, L_f V_s + lambda * V) satisfies every constraint of the
    QP built by the constructor. *)
Theorem relaxed_qp_feasible
    (is_dpp : Problem -> bool) (nn_Linear : nat -> nat -> nat -> Linear)
    (n_input n_hidden n_controls : nat) (lam penalty : R)
    (dyn : list vec -> Scenario -> list vec * list mat)
    (u_nom : list vec -> Scenario -> list vec)
    (scenarios : list Scenario) (nominal_scenario : Scenario)
    (x_goal u_eq : mat) (h_u : vec) (net : CLF_K_QP_Net) (p : QPParams) :
  __init__ is_dpp nn_Linear n_input n_hidden n_controls lam penalty dyn u_nom
    scenarios nominal_scenario x_goal u_eq [] h_u = Ok net ->
  feasible (qp_layer net) p (relaxed_point (length scenarios) n_controls lam p).
Proof.
  unfold __init__, build_problem. simpl. intros H.
  repeat match type of H with
         | (if ?c then _ else _) = _ => destruct c; [discriminate H|]
         end.
  injection H as <-. unfold feasible. simpl.
  rewrite length_replicate, length_map, length_seq.
  repeat split. apply clf_constraints_relaxed_point.
Qed.

Lemma relaxed_qp_feasible_witness :
  feasible (qp_layer Example.constructed) Probe.negative_drift
    (relaxed_point 1 2 0.1 Probe.negative_drift).
Proof.
  apply (relaxed_qp_feasible Example.dpp_always Example.zero_init 1 1 2 0.1 10
           Example.example_dynamics Example.example_nominal
           [Example.example_scenario] Example.example_scenario [[0]] [[5; 0]] []
           Example.constructed Probe.negative_drift).
  reflexivity.
Defined.

(** C2 as stated fails: with L_f V = -1 and V = 0 the point u = 0,
    r = L_f V + lambda * V has a negative relaxation. *)
Lemma spec_point_infeasible :
  0 <= p_V Probe.negative_drift
  /\ 0 <= p_relaxation_penalty Probe.negative_drift
  /\ ~ feasible (qp_layer Example.constructed) Probe.negative_drift Probe.spec_point.
Proof.
  repeat split; simpl; try lra.
  intros (_ & _ & H). simpl in H.
  inversion H as [|c1 l1 _ H1]; subst.
  inversion H1 as [|c2 l2 H2 _]; subst.
  simpl in H2. lra.
Qed.

(** ** Construction *)



(** ** Diagnostics *)

Ltac case_bind :=
  match goal with
  | |- context [mbind _ ?m] => destruct m as [?|?]; simpl; try reflexivity
  | |- context [let '(_, _) := ?p in _] => destruct p; simpl
  | |- context [match ?o with Some _ => _ | None => _ end] =>
      destruct o; simpl; try reflexivity
  | |- context [if ?c then Ok _ else Raise _] => destruct c; simpl; try reflexivity
  end.

(** C9: with and without print_loss both losses return the same value (or
    raise the same exception). *)
Theorem print_loss_keeps_value
    (cvx_solve : Problem -> QPParams -> res QPVars)
    (x x_goal : list vec) (safe_mask unsafe_mask : list bool)
    (net : CLF_K_QP_Net) (lam safe_level timestep : R)
    (use_nominal : bool) (use_eq : option (list vec)) (loss_coeff : R) :
  returned (lyapunov_loss cvx_solve x x_goal safe_mask unsafe_mask net lam
              safe_level timestep true)
  = returned (lyapunov_loss cvx_solve x x_goal safe_mask unsafe_mask net lam
                safe_level timestep false)
  /\ returned (controller_loss cvx_solve x net true use_nominal use_eq loss_coeff)
     = returned (controller_loss cvx_solve x net false use_nominal use_eq loss_coeff).
Proof.
  split.
  - unfold lyapunov_loss. repeat case_bind.
  - unfold controller_loss. repeat case_bind.
Qed.

(** ** The loss calls of the training script *)


Section Triples.

Variable C : LossCall -> Prop.

Lemma triple_ret {A : Type} (P : TrainState -> Prop) (a : A) :
  triple C P (loop_ret a) (fun b st => b = a /\ P st).
Proof. intros st HP. simpl. split; [constructor | auto]. Qed.

Lemma triple_lift {A : Type} (P : TrainState -> Prop) (r : res A) :
  triple C P (lift r) (fun _ st => P st).
Proof. intros st HP. simpl. split; [constructor | destruct r; auto]. Qed.

Lemma triple_get (P : TrainState -> Prop) :
  triple C P get_state (fun a st => a = st /\ P st).
Proof. intros st HP. simpl. split; [constructor | auto]. Qed.

Lemma triple_bind {A B : Type} (P : TrainState -> Prop) (m : Loop A)
    (Q : A -> TrainState -> Prop) (k : A -> Loop B)
    (R' : B -> TrainState -> Prop) :
  triple C P m Q -> (forall a, triple C (Q a) (k a) R') ->
  triple C P (loop_bind m k) R'.
Proof.
  intros Hm Hk st HP. specialize (Hm st HP). unfold loop_bind.
  destruct (m st) as [log [[a|e] st']]; simpl in *.
  - destruct Hm as [Hlog HQ]. specialize (Hk a st' HQ).
    destruct (k a st') as [log' out]. simpl in *.
    destruct Hk as [Hlog' Hout]. split; [|exact Hout].
    apply Forall_app. split; assumption.
  - destruct Hm as [Hlog _]. split; [exact Hlog | exact I].
Qed.

Lemma triple_weaken {A : Type} (P P' : TrainState -> Prop) (m : Loop A)
    (Q Q' : A -> TrainState -> Prop) :
  triple C P m Q -> (forall st, P' st -> P st) ->
  (forall a st, Q a st -> Q' a st) -> triple C P' m Q'.
Proof.
  intros Hm HP HQ st Hst. specialize (Hm st (HP st Hst)).
  destruct Hm as [Hlog Hout]. split; [exact Hlog|].
  destruct (snd (m st)) as [[a|e] st']; auto.
Qed.

Lemma triple_for_each {A : Type} (P : TrainState -> Prop) (body : A -> Loop unit)
    (range : list A) :
  (forall a, triple C P (body a) (fun _ st => P st)) ->
  triple C P (for_each body range) (fun _ st => P st).
Proof.
  intros Hbody. induction range as [|a range IH]; simpl.
  - eapply (triple_weaken P P);
      [apply (triple_ret P) | auto | simpl; intros ? ? [_ H]; exact H].
  - eapply triple_bind; [apply Hbody | intros ?; exact IH].
Qed.

End Triples.


Section ScriptTriples.

Import quad9d_robust_clf_qp.

Variable imported_lyapunov_loss :
  list vec -> list vec -> list bool -> list bool -> CLF_K_QP_Net ->
  R -> R -> R -> bool -> res (R * list (string * R)).
Variable imported_controller_loss :
  list vec -> CLF_K_QP_Net -> bool -> bool -> R -> res (R * list (string * R)).
Variable sgd_step : CLF_K_QP_Net -> list vec -> R -> R -> StateDict.
Variable randperm : nat -> list nat.
Variable PZ : nat.
Variables x_train x_test x0 : list vec.
Variable loaded_net : CLF_K_QP_Net.

Ltac bind_with tac := eapply triple_bind; [tac | intros ?].
Ltac keep_state :=
  let st := fresh "st" in
  let Hst := fresh "Hst" in
  intros st Hst; simpl; split; [constructor | first [exact Hst | exact I]].

Lemma triple_set_net (P : TrainState -> Prop) (net : CLF_K_QP_Net) :
  use_QP net = false ->
  triple held_out_mode P (set_net net) (fun _ st => qp_off st).
Proof. intros Hnet st _. simpl. split; [constructor | exact Hnet]. Qed.

Ltac call_triple tac :=
  let st := fresh "st" in
  let Hst := fresh "Hst" in
  intros st Hst; simpl;
  split; [constructor; [tac Hst | constructor]
         | match goal with |- match ?r with _ => _ end => destruct r end; auto ].

Lemma triple_lyapunov_training epoch x x_goal sm um print :
  triple held_out_mode qp_off
    (call_lyapunov_loss imported_lyapunov_loss epoch false x x_goal sm um print)
    (fun _ st => qp_off st).
Proof. call_triple ltac:(fun _ => intros H; discriminate H). Qed.

Lemma triple_controller_training epoch x print coeff :
  triple held_out_mode qp_off
    (call_controller_loss imported_controller_loss epoch false x print coeff)
    (fun _ st => qp_off st).
Proof. call_triple ltac:(fun _ => intros H; discriminate H). Qed.

Lemma triple_lyapunov_held_out epoch x x_goal sm um :
  triple held_out_mode qp_off
    (call_lyapunov_loss imported_lyapunov_loss epoch true x x_goal sm um true)
    (fun _ st => qp_off st).
Proof. call_triple ltac:(fun Hst => intros _; split; [exact Hst | reflexivity]). Qed.

Lemma triple_controller_held_out epoch x coeff :
  triple held_out_mode qp_off
    (call_controller_loss imported_controller_loss epoch true x true coeff)
    (fun _ st => qp_off st).
Proof. call_triple ltac:(fun Hst => intros _; split; [exact Hst | reflexivity]). Qed.

Lemma triple_train_batch epoch permutation coeff i :
  triple held_out_mode qp_off
    (train_batch imported_lyapunov_loss imported_controller_loss
      sgd_step PZ x_train x0 epoch permutation coeff i)
    (fun _ st => qp_off st).
Proof.
  unfold train_batch.
  do 3 bind_with ltac:(apply triple_lift).
  bind_with ltac:(apply triple_lyapunov_training).
  bind_with ltac:(apply triple_controller_training).
  bind_with ltac:(apply triple_get).
  intros st [-> Hst]. simpl. split; [constructor | exact Hst].
Qed.

Lemma triple_save_if_best loss :
  triple held_out_mode qp_off (save_if_best loss) (fun _ st => qp_off st).
Proof.
  unfold save_if_best.
  bind_with ltac:(apply triple_get).
  eapply (triple_bind _ _ _ (fun _ st => qp_off st)).
  - destruct (match test_losses a with [] => true | _ => _ end).
    + eapply (triple_bind _ _ _ (fun _ st => a = st /\ qp_off st)).
      * intros st Hst. simpl. split; [constructor|].
        destruct (extra_attrs (clf_net a) !! _); [exact Hst | exact I].
      * intros ? st [-> Hst]. simpl. split; [constructor | exact Hst].
    + intros st [_ Hst]. simpl. split; [constructor | exact Hst].
  - intros ?. bind_with ltac:(apply triple_get).
    intros st [-> Hst]. simpl. split; [constructor | exact Hst].
Qed.

Lemma triple_epoch_body m1 m2 epoch :
  triple held_out_mode qp_off
    (epoch_body imported_lyapunov_loss imported_controller_loss
      sgd_step randperm PZ x_train x_test x0 m1 m2 epoch)
    (fun _ st => qp_off st).
Proof.
  unfold epoch_body.
  eapply (triple_bind _ _ _ (fun _ st => qp_off st)); [keep_state | intros ?].
  bind_with ltac:(apply triple_get).
  eapply (triple_bind _ _ _ (fun _ st => qp_off st));
    [intros st [-> Hst]; simpl; split; [constructor | exact Hst] | intros ?].
  bind_with ltac:(apply triple_for_each; intros ?; apply triple_train_batch).
  eapply (triple_bind _ _ _ (fun _ st => qp_off st));
    [destruct (length x_train =? 0)%nat; keep_state | intros ?].
  unfold test_evaluation.
  bind_with ltac:(apply triple_lyapunov_held_out).
  bind_with ltac:(apply triple_controller_held_out).
  apply triple_save_if_best.
Qed.

Lemma triple_run n_epochs :
  triple held_out_mode (fun _ => True)
    (run imported_lyapunov_loss imported_controller_loss
      sgd_step randperm PZ x_train x_test x0 loaded_net n_epochs)
    (fun _ st => qp_off st).
Proof.
  unfold run.
  do 2 bind_with ltac:(apply triple_lift).
  bind_with ltac:(apply triple_set_net; reflexivity).
  apply triple_for_each. intros epoch. apply triple_epoch_body.
Qed.

End ScriptTriples.

(** C6, as the code has it: every loss call that the script issues on the
    held-out set runs the network with the QP switched off (use_QP is
    false) and with print_loss on, whatever the imported losses and the
    loaded network are. *)
Theorem held_out_calls_without_qp
    (imported_lyapunov_loss :
       list vec -> list vec -> list bool -> list bool -> CLF_K_QP_Net ->
       R -> R -> R -> bool -> res (R * list (string * R)))
    (imported_controller_loss :
       list vec -> CLF_K_QP_Net -> bool -> bool -> R ->
       res (R * list (string * R)))
    (sgd_step : CLF_K_QP_Net -> list vec -> R -> R -> StateDict)
    (randperm : nat -> list nat) (PZ : nat) (x_train x_test x0 : list vec)
    (loaded_net : CLF_K_QP_Net) (st : TrainState) (call : LossCall) :
  In call (fst (quad9d_robust_clf_qp.main imported_lyapunov_loss
                  imported_controller_loss sgd_step randperm PZ
                  x_train x_test x0 loaded_net st)) ->
  lc_held_out call = true ->
  lc_use_QP call = false /\ lc_print_loss call = true.
Proof.
  intros Hin Hheld.
  destruct (triple_run imported_lyapunov_loss imported_controller_loss
      sgd_step randperm PZ x_train x_test x0 loaded_net
              quad9d_robust_clf_qp.epochs st I) as [Hlog _].
  rewrite List.Forall_forall in Hlog.
  exact (Hlog call Hin Hheld).
Qed.

(** *** A run of the script *)

Lemma in_bind_r {A B : Type} (m : Loop A) (k : A -> Loop B) (st st' : TrainState)
    (log : list LossCall) (a : A) (c : LossCall) :
  m st = (log, (Ok a, st')) -> In c (fst (k a st')) -> In c (fst (loop_bind m k st)).
Proof.
  intros Hm Hk. unfold loop_bind. rewrite Hm.
  destruct (k a st') as [log' out]. simpl in *. apply in_or_app. right. exact Hk.
Qed.

Lemma in_for_each_head {A : Type} (body : A -> Loop unit) (a : A) (l : list A)
    (st : TrainState) (c : LossCall) :
  In c (fst (body a st)) -> In c (fst (for_each body (a :: l) st)).
Proof.
  intros H. simpl. unfold loop_bind.
  destruct (body a st) as [log [[u|e] st']]; simpl in *.
  - destruct (for_each body l st') as [log' out]. apply in_or_app. left. exact H.
  - exact H.
Qed.

Lemma bind_eq {A B : Type} (m : Loop A) (k : A -> Loop B) (st st' : TrainState)
    (log log' : list LossCall) (a : A) (out : res B * TrainState) :
  m st = (log, (Ok a, st')) -> k a st' = (log', out) ->
  loop_bind m k st = (log ++ log', out).
Proof. intros Hm Hk. unfold loop_bind. rewrite Hm, Hk. reflexivity. Qed.

Lemma Rleb_true (a b : R) : a <= b -> Rleb a b = true.
Proof. intros H. unfold Rleb. destruct (Rle_dec a b); [reflexivity | contradiction]. Qed.

Lemma Rleb_false (a b : R) : b < a -> Rleb a b = false.
Proof. intros H. unfold Rleb. destruct (Rle_dec a b); [lra | reflexivity]. Qed.

Lemma norm_origin : norm [0] = 0.
Proof. unfold norm. simpl. replace (0 * (0 * 1) + 0) with 0 by lra. apply sqrt_0. Qed.

Section ExampleRun.

Import quad9d_robust_clf_qp.
Import Example.

Lemma safe_mask_origin : safe_mask_of 0 [[0]] = Ok [true].
Proof.
  unfold safe_mask_of. simpl. rewrite norm_origin.
  rewrite !Rleb_true; [reflexivity | unfold safe_radius; lra | unfold safe_z; lra].
Qed.

Lemma unsafe_mask_origin : unsafe_mask_of 0 [[0]] = Ok [false].
Proof.
  unfold unsafe_mask_of. simpl. rewrite norm_origin.
  rewrite !Rleb_false; [reflexivity | unfold unsafe_radius; lra | unfold unsafe_z; lra].
Qed.

(** The single training batch of the first epoch ends normally. *)
Lemma train_batch_origin (st : TrainState) (coeff : R) :
  clf_net st = adjust_relaxation_penalty (set_use_QP false net) 0 ->
  train_batch example_lyapunov_loss example_controller_loss keep_weights 0
    [[0]] [[0]] 0 [0%nat] coeff 0 st
  = ([ {| lc_epoch := 0; lc_held_out := false; lc_loss := "lyapunov_loss";
          lc_use_QP := false; lc_print_loss := false |};
       {| lc_epoch := 0; lc_held_out := false; lc_loss := "controller_loss";
          lc_use_QP := false; lc_print_loss := false |} ], (Ok tt, st)).
Proof.
  intros Hnet. destruct st as [n lr tl sv]. simpl in Hnet. subst n.
  unfold train_batch. etransitivity.
  { eapply (bind_eq _ _ _ _ _ _ [[0]]); [reflexivity|]. cbv beta.
    eapply bind_eq; [unfold lift; rewrite safe_mask_origin; reflexivity|]. cbv beta.
    eapply bind_eq; [unfold lift; rewrite unsafe_mask_origin; reflexivity|]. cbv beta.
    eapply bind_eq; [reflexivity|]. cbv beta.
    eapply bind_eq; [reflexivity|]. cbv beta.
    eapply bind_eq; [reflexivity|]. cbv beta.
    reflexivity. }
  reflexivity.
Qed.

(** The first epoch of the run reaches the held-out evaluation. *)
Lemma script_run_held_out_call : In first_held_out_call (fst script_run).
Proof.
  unfold script_run, main, run.
  eapply in_bind_r; [unfold lift; rewrite safe_mask_origin; reflexivity|]. cbv beta.
  eapply in_bind_r; [unfold lift; rewrite unsafe_mask_origin; reflexivity|]. cbv beta.
  eapply in_bind_r; [reflexivity|]. cbv beta.
  change (seq 0 epochs) with (0%nat :: seq 1 999).
  apply in_for_each_head. unfold epoch_body.
  do 3 (eapply in_bind_r; [reflexivity|]; cbv beta).
  eapply in_bind_r.
  { change (map _ (seq 0 _)) with [0%nat]. unfold for_each.
    eapply bind_eq; [|reflexivity].
    match goal with
    | |- train_batch _ _ _ _ _ _ _ _ ?c _ ?st = _ =>
        exact (train_batch_origin st c eq_refl)
    end. }
  cbv beta.
  eapply in_bind_r; [reflexivity|]. cbv beta.
  unfold test_evaluation.
  unfold loop_bind at 1. unfold call_lyapunov_loss at 1.
  match goal with |- context [returned ?r] => destruct (returned r) end.
  - match goal with
    | |- In _ (fst (let '(log', out) := ?k in _)) => destruct k
    end.
    simpl. left. reflexivity.
  - simpl. left. reflexivity.
Qed.

End ExampleRun.

Lemma held_out_calls_without_qp_witness :
  In Example.first_held_out_call (fst Example.script_run)
  /\ lc_held_out Example.first_held_out_call = true
  /\ lc_use_QP Example.first_held_out_call = false
  /\ lc_print_loss Example.first_held_out_call = true.
Proof.
  split; [exact script_run_held_out_call|].
  split; [reflexivity|].
  exact (held_out_calls_without_qp Example.example_lyapunov_loss
           Example.example_controller_loss Example.keep_weights
           (fun _ => [0%nat]) 0%nat [[0]] [[0]] [[0]] Example.net
           Example.script_state Example.first_held_out_call
           script_run_held_out_call eq_refl).
Defined.

(** C6 as stated fails: in the run of the script on the example, the
    held-out evaluation after the first epoch calls lyapunov_loss on a
    network whose use_QP is false. *)
Lemma held_out_call_with_qp_off :
  In Example.first_held_out_call (fst Example.script_run)
  /\ lc_held_out Example.first_held_out_call = true
  /\ lc_epoch Example.first_held_out_call = 0%nat
  /\ lc_use_QP Example.first_held_out_call <> true.
Proof.
  split; [exact script_run_held_out_call|].
  repeat split. simpl. discriminate.
Qed.

(** ** The forward pass without the QP *)

Lemma index_replicate {A : Type} (n i : nat) (a b : A) :
  index (replicate n a) i = Ok b -> b = a.
Proof.
  unfold index. destruct (replicate n a !! i) as [c|] eqn:Hc; [|discriminate].
  intros H. injection H as <-. apply lookup_replicate in Hc. apply Hc.
Qed.

(** All relaxations point to the one tensor at address 0, so the loop adds
    that tensor to itself; it holds 0 and keeps holding 0. *)
Lemma accumulate_shared_zero (lam : R) (L_f_Vs L_g_Vs : list (list vec))
    (u : list mat) (V : vec) (n : nat) (range : list nat) :
  forall (Vdot Vdot' : list (list vec)) (heap' : list vec),
    accumulate lam L_f_Vs L_g_Vs u V (replicate n 0%nat) 0 range Vdot [[0]]
      = Ok (Vdot', heap') ->
    heap' = [[0]].
Proof.
  induction range as [|i range IH]; intros Vdot Vdot' heap' H; simpl in H.
  - inv_res. reflexivity.
  - inv_res.
    match goal with Hr : index (replicate _ _) _ = Ok ?r |- _ =>
      apply index_replicate in Hr; subst r end.
    match goal with Hh : heap_iadd _ _ _ = Ok ?h |- _ =>
      assert (h = [[0]])
        by (unfold heap_iadd in Hh; simpl in Hh; injection Hh as <-;
            simpl; rewrite Rplus_0_l; reflexivity); subst h end.
    eapply IH. eassumption.
Qed.

(** Without the QP the control that forward returns is the learned one. *)
Lemma forward_qp_off_control
    (cvx_solve : Problem -> QPParams -> res QPVars)
    (net : CLF_K_QP_Net) (x : list vec)
    (u : list mat) (r V : vec) (Vdot : list (list vec)) :
  use_QP net = false ->
  forward cvx_solve net x = Ok (u, r, V, Vdot) ->
  compute_controls net x = Ok u.
Proof.
  intros Hqp H. unfold forward in H. rewrite Hqp in H.
  apply bind_Ok in H. destruct H as ([V0 grad_V] & _ & H).
  apply bind_Ok in H. destruct H as (u_learned & Hu & H).
  apply bind_Ok in H. destruct H as (Ls & _ & H).
  simpl in H. inv_res. exact Hu.
Qed.

(** C3: with use_QP false, what forward returns as the control is the
    output of compute_controls and the relaxation it returns is the tensor
    [0]. *)
Theorem forward_without_qp
    (cvx_solve : Problem -> QPParams -> res QPVars)
    (net : CLF_K_QP_Net) (x : list vec)
    (u : list mat) (r V : vec) (Vdot : list (list vec)) :
  use_QP net = false ->
  forward cvx_solve net x = Ok (u, r, V, Vdot) ->
  compute_controls net x = Ok u /\ r = [0].
Proof.
  intros Hqp H. unfold forward in H. rewrite Hqp in H.
  apply bind_Ok in H. destruct H as ([V0 grad_V] & _ & H).
  apply bind_Ok in H. destruct H as (u_learned & Hu & H).
  apply bind_Ok in H. destruct H as (Ls & _ & H).
  simpl in H.
  apply bind_Ok in H. destruct H as (L_f_V0 & _ & H).
  apply bind_Ok in H. destruct H as (L_g_V0 & _ & H).
  apply bind_Ok in H. destruct H as (t0 & _ & H).
  apply bind_Ok in H. destruct H as (relaxation & Hrel & H).
  apply index_replicate in Hrel. subst relaxation.
  apply bind_Ok in H. destruct H as ([Vdot1 heap1] & Hacc & H).
  apply accumulate_shared_zero in Hacc. subst heap1.
  unfold heap_idiv in H. simpl in H. injection H as <- <- <- <-.
  split; [exact Hu|].
  unfold Rdiv. rewrite Rmult_0_l. reflexivity.
Qed.

Lemma forward_without_qp_witness :
  exists u r V Vdot,
    use_QP (set_use_QP false Example.net) = false
    /\ forward Example.no_solve (set_use_QP false Example.net) [[0]]
       = Ok (u, r, V, Vdot)
    /\ compute_controls (set_use_QP false Example.net) [[0]] = Ok u
    /\ r = [0].
Proof.
  do 4 eexists.
  split; [reflexivity|].
  split; [reflexivity|].
  exact (forward_without_qp Example.no_solve (set_use_QP false Example.net) [[0]]
           _ _ _ _ eq_refl eq_refl).
Defined.

(** ** The shape of the learned control *)

Lemma mapM_res_Forall2 {A B : Type} (f : A -> res B) (l : list A) (r : list B) :
  mapM_res f l = Ok r -> Forall2 (fun a b => f a = Ok b) l r.
Proof.
  revert r. induction l as [|a l IH]; intros r H; simpl in H.
  - inv_res. constructor.
  - inv_res. constructor; auto.
Qed.

Lemma zipM_Forall3 {A B C : Type} (f : A -> B -> res C) (l : list A) (k : list B)
    (r : list C) :
  zipM f l k = Ok r -> Forall3 (fun a b c => f a b = Ok c) l k r.
Proof.
  revert k r. induction l as [|a l IH]; intros [|b k] r H; simpl in H;
    try discriminate H.
  - inv_res. constructor.
  - inv_res. constructor; auto.
Qed.

(** Broadcasting against a single operand applies the operation to every
    element of the other side. *)
Lemma bcast_single {A : Type} (op : A -> A -> res A) (X W : list A) (b : A) :
  bcast op X [b] = Ok W -> Forall2 (fun a w => op a b = Ok w) X W.
Proof.
  unfold bcast. destruct (length X =? length [b])%nat eqn:Hlen.
  - destruct X as [|a [|a' X]]; try discriminate Hlen.
    simpl. intros H. inv_res. repeat constructor. assumption.
  - destruct X as [|a [|a' X]].
    + simpl. intros H. inv_res. constructor.
    + discriminate Hlen.
    + intros H. apply mapM_res_Forall2 in H. exact H.
Qed.

Lemma bcast_length_2 {A : Type} (op : A -> A -> res A) (u v w : list A) :
  length u = 2%nat -> bcast op u v = Ok w -> length w = 2%nat.
Proof.
  intros Hu. destruct u as [|a [|a' [|a'' u]]]; try discriminate Hu.
  unfold bcast. destruct (length [a; a'] =? length v)%nat eqn:Hlen.
  - intros H. apply zipM_Forall3 in H. apply Forall3_length_lr in H.
    rewrite <- H. reflexivity.
  - destruct v as [|b [|b' v]]; try discriminate.
    intros H. apply mapM_res_Forall2 in H. apply Forall2_length in H.
    rewrite <- H. reflexivity.
Qed.

Lemma linear_length (L : Linear) (x y : list vec) :
  linear L x = Ok y -> length y = length x.
Proof.
  unfold linear. intros H.
  match type of H with (if ?c then _ else _) = _ =>
    destruct c; [|discriminate H] end.
  injection H as <-. apply length_map.
Qed.

Lemma compute_controls_rows (net : CLF_K_QP_Net) (x : list vec) (u : list mat) :
  compute_controls net x = Ok u ->
  length u = length x /\ Forall (fun ub => length ub = 2%nat) u.
Proof.
  unfold compute_controls. intros H.
  apply bind_Ok in H. destruct H as (K1fc1 & HK1fc1 & H).
  apply bind_Ok in H. destruct H as (K1 & HK1 & H).
  apply bind_Ok in H. destruct H as (K2fc1 & _ & H).
  apply bind_Ok in H. destruct H as (K2 & _ & H).
  apply bind_Ok in H. destruct H as (K & HK & H).
  apply bind_Ok in H. destruct H as (dx & _ & H).
  apply bind_Ok in H. destruct H as (Kdx & HKdx & H).
  apply zipM_Forall3 in HK. apply zipM_Forall3 in HKdx.
  apply bcast_single in H.
  assert (HlenK : length K = length x).
  { pose proof (Forall3_length_lr _ _ _ _ HK) as HlenK. rewrite <- HlenK.
    apply linear_length in HK1fc1, HK1. rewrite length_map in HK1.
    exact (eq_trans HK1 HK1fc1). }
  assert (HK2 : Forall (fun Kb => length Kb = 2%nat) K).
  { clear -HK. induction HK as [|k1 k2 Kb ? ? ? Hf ? IH]; constructor; [|exact IH].
    destruct (length k1 =? length k2)%nat; [|discriminate Hf].
    injection Hf as <-. reflexivity. }
  assert (HKdx2 : length Kdx = length K
                  /\ Forall (fun M => length M = 2%nat) Kdx).
  { split; [symmetry; eapply Forall3_length_lr; exact HKdx|].
    clear -HKdx HK2. induction HKdx as [|Kb d M ? ? ? Hf ? IH].
    - constructor.
    - inversion HK2; subst. constructor; [|apply IH; assumption].
      unfold matmul_chk in Hf. destruct (matmul_ok Kb d); [|discriminate Hf].
      injection Hf as <-. unfold matmul. rewrite length_map. assumption. }
  destruct HKdx2 as [HlenKdx HKdx2].
  split.
  - apply Forall2_length in H. rewrite <- H, length_map. congruence.
  - assert (HX : Forall (fun M => length M = 2%nat) (map (mscale (-1)) Kdx)).
    { clear -HKdx2. induction HKdx2; simpl; constructor;
        [unfold mscale; rewrite length_map; assumption | assumption]. }
    clear -H HX. induction H as [|M ub ? ? Hb ? IH]; [constructor|].
    inversion HX; subst. constructor; [|apply IH; assumption].
    eapply bcast_length_2; eassumption.
Qed.

Lemma squeeze_last_length (M : mat) (v : vec) :
  squeeze_last M = Ok v -> length v = length M.
Proof.
  intros H. apply mapM_res_Forall2 in H. apply Forall2_length in H. congruence.
Qed.

(** C10: whatever n_controls is, every control that compute_controls
    returns has exactly two rows; on a nonempty batch it has n_controls
    rows only if n_controls is 2, and the QP layer accepts it only if the
    layer was declared with two controls. *)
Theorem learned_control_has_two_rows (net : CLF_K_QP_Net) (x : list vec)
    (u : list mat) :
  compute_controls net x = Ok u ->
  Forall (fun ub => length ub = 2%nat) u
  /\ (x <> [] ->
      (Forall (fun ub => length ub = n_controls net) u <-> n_controls net = 2%nat))
  /\ (forall cvx_solve out,
        x <> [] -> use_QP net = true -> forward cvx_solve net x = Ok out ->
        layer_n_controls (qp_layer net) = 2%nat).
Proof.
  intros Hu. destruct (compute_controls_rows net x u Hu) as [Hlen Hrows].
  split; [exact Hrows|]. split.
  - intros Hx. destruct u as [|ub u]; [destruct x; [congruence | discriminate Hlen]|].
    inversion Hrows; subst. split.
    + intros Hn. inversion Hn; subst. congruence.
    + intros Hn. rewrite Hn. exact Hrows.
  - intros cvx_solve out Hx Hqp H. unfold forward in H. rewrite Hqp, Hu in H.
    apply bind_Ok in H. destruct H as ([V grad_V] & HV & H).
    simpl in H.
    apply bind_Ok in H. destruct H as (Ls & _ & H).
    apply bind_Ok in H. destruct H as ([[u' heap] rs] & Hcall & _).
    apply bind_Ok in Hcall. destruct Hcall as (u_squeezed & Hsq & Hcall).
    apply bind_Ok in Hcall. destruct Hcall as ([u'' result_rs] & Hcall & _).
    unfold qp_layer_call in Hcall.
    match type of Hcall with (if ?c then _ else _) = _ =>
      destruct c eqn:Hchk; [|discriminate Hcall] end.
    repeat (apply andb_prop in Hchk; destruct Hchk as [Hchk ?]).
    match goal with Hx : has_shape _ _ u_squeezed = true |- _ =>
      rename Hx into Hs end.
    unfold has_shape in Hs. apply andb_prop in Hs. destruct Hs as [_ Hs].
    apply mapM_res_Forall2 in Hsq.
    destruct u as [|ub u]; [destruct x; [congruence | discriminate Hlen]|].
    inversion Hsq as [|? v ? ? Hv]; subst. inversion Hrows; subst.
    simpl in Hs. apply andb_prop in Hs. destruct Hs as [Hs _].
    apply Nat.eqb_eq in Hs. apply squeeze_last_length in Hv. congruence.
Qed.

Lemma learned_control_has_two_rows_witness :
  exists u,
    compute_controls Example.net [[0]] = Ok u
    /\ Forall (fun ub => length ub = 2%nat) u.
Proof.
  eexists. split; [reflexivity|].
  exact (proj1 (learned_control_has_two_rows Example.net [[0]] _ eq_refl)).
Defined.

(** ** The controller loss *)

Lemma Rsum_vscale (c : R) (v : vec) : Rsum (vscale c v) = c * Rsum v.
Proof.
  unfold Rsum, vscale. induction v as [|a v IH]; simpl; [lra|].
  rewrite IH. lra.
Qed.

Lemma mean_vscale (c : R) (v : vec) : mean (vscale c v) = c * mean v.
Proof.
  unfold mean. rewrite Rsum_vscale. unfold vscale. rewrite length_map.
  unfold Rdiv. ring.
Qed.

(** C5, as the code has it: with use_nominal the loss is loss_coeff times
    the batch mean of the squared deviation of the control that forward
    returns from the nominal controller; that control is the output of
    compute_controls when use_QP is false. *)
Theorem controller_loss_nominal
    (cvx_solve : Problem -> QPParams -> res QPVars)
    (x : list vec) (net : CLF_K_QP_Net) (print_loss : bool)
    (use_eq : option (list vec)) (loss_coeff loss : R)
    (printed : list (string * R)) :
  controller_loss cvx_solve x net print_loss true use_eq loss_coeff
    = Ok (loss, printed) ->
  exists u r V Vdot u_squeezed d,
    forward cvx_solve net x = Ok (u, r, V, Vdot)
    /\ mapM_res squeeze_last u = Ok u_squeezed
    /\ bcast_mat Rminus (u_nominal net x (nominal_scenario net)) u_squeezed = Ok d
    /\ loss = loss_coeff * mean (row_sq_sums d)
    /\ (use_QP net = false -> compute_controls net x = Ok u).
Proof.
  unfold controller_loss. intros H.
  apply bind_Ok in H. destruct H as ([[[u r] V] Vdot] & Hf & H).
  apply bind_Ok in H. destruct H as (u_squeezed & Hsq & H).
  apply bind_Ok in H. destruct H as (err & Herr & H).
  apply bind_Ok in Herr. destruct Herr as (d & Hd & Herr).
  injection Herr as <-. injection H as <- _.
  exists u, r, V, Vdot, u_squeezed, d.
  repeat split; try assumption.
  - apply mean_vscale.
  - intros Hqp. exact (forward_qp_off_control cvx_solve net x u r V Vdot Hqp Hf).
Qed.

Lemma controller_loss_nominal_witness :
  exists loss printed u r V Vdot u_squeezed d,
    controller_loss Example.no_solve [[0]] (set_use_QP false Example.net)
      false true None 1 = Ok (loss, printed)
    /\ forward Example.no_solve (set_use_QP false Example.net) [[0]]
       = Ok (u, r, V, Vdot)
    /\ mapM_res squeeze_last u = Ok u_squeezed
    /\ bcast_mat Rminus [[5; 0]] u_squeezed = Ok d
    /\ loss = 1 * mean (row_sq_sums d).
Proof.
  destruct (controller_loss_nominal Example.no_solve [[0]]
              (set_use_QP false Example.net) false None 1 _ _ eq_refl)
    as (u & r & V & Vdot & u_squeezed & d & H1 & H2 & H3 & H4 & _).
  do 8 eexists. split; [reflexivity|].
  split; [exact H1|]. split; [exact H2|]. split; [exact H3 | exact H4].
Defined.

(** *** The QP changes the control *)

Lemma tanh_0 : tanh 0 = 0.
Proof. unfold tanh. rewrite sinh_0. unfold Rdiv. apply Rmult_0_l. Qed.

Lemma tanh_1_bounds : 0 < tanh 1 < 1.
Proof.
  unfold tanh, sinh, cosh.
  pose proof (exp_pos 1) as H1. pose proof (exp_pos (Ropp 1)) as H2.
  assert (H3 : exp (Ropp 1) < exp 1) by (apply exp_increasing; lra).
  split.
  - apply Rdiv_lt_0_compat; lra.
  - apply (Rmult_lt_reg_r ((exp 1 + exp (Ropp 1)) / 2)); [lra|].
    unfold Rdiv at 1. rewrite Rmult_assoc, Rinv_l by lra. lra.
Qed.

Lemma gamma_bounds : 0 < Example.gamma < 1.
Proof.
  unfold Example.gamma. pose proof tanh_1_bounds as [H0 H1]. split; nra.
Qed.

Lemma example_solution_optimal :
  qp_optimal (qp_layer Example.net) Example.example_params Example.example_solution.
Proof.
  pose proof gamma_bounds as [Hg0 Hg1]. pose proof tanh_1_bounds as [Ht0 Ht1].
  assert (HV : 0 <= 0.5 * (tanh 1 * tanh 1)) by nra.
  split.
  - unfold feasible. simpl. repeat split.
    constructor; [|constructor; [|constructor]]; simpl; unfold dot, Rsum; simpl.
    + apply Req_le. ring.
    + nra.
  - intros [u' rs'] (Hu & Hr & Hc). simpl in Hu, Hr, Hc.
    destruct u' as [|a [|b [|? ?]]]; try discriminate Hu.
    destruct rs' as [|r [|? ?]]; try discriminate Hr.
    inversion Hc as [|? ? H1 Hc']; subst. clear Hc.
    simpl in H1. unfold dot, Rsum in H1. simpl in H1.
    simpl. unfold qp_objective. simpl. unfold sum_squares, Rsum. simpl.
    set (V := 0.5 * (tanh 1 * tanh 1)) in *.
    set (g := Example.gamma) in *.
    pose proof (Rle_0_sqr (a - 5 + 5 * g)) as Hsq. unfold Rsqr in Hsq.
    nra.
Qed.

Lemma controller_loss_at_example (s : Problem -> QPParams -> res QPVars) :
  s (layer_problem (qp_layer Example.net)) Example.example_params
    = Ok Example.example_solution ->
  exists loss,
    returned (controller_loss s [[0]] Example.net false true None 1) = Ok loss
    /\ loss = 25 * Example.gamma ^ 2.
Proof.
  intros Hs. unfold controller_loss, forward. simpl.
  unfold qp_layer_call. simpl. unfold qp_args. simpl.
  assert (E1 : dot [1] [0] + 0 = 0) by (unfold dot, Rsum; simpl; lra).
  assert (E3 : dot [0] [0] + 0 = 0) by (unfold dot, Rsum; simpl; lra).
  rewrite !E1, !E3, !tanh_0.
  assert (E2 : dot [1] [0] + 1 = 1) by (unfold dot, Rsum; simpl; lra).
  rewrite !E2.
  match goal with
  | |- context [s ?prob ?p] =>
      replace p with Example.example_params
  end.
  2: { unfold Example.example_params, Example.gamma. unfold dot, Rsum. simpl.
       f_equal; repeat f_equal; ring. }
  simpl in Hs. rewrite Hs. simpl.
  eexists. split; [reflexivity|].
  unfold mean, vscale, row_sq_sums, Rsum. simpl. field.
Qed.

Lemma spec_controller_loss_at_example :
  exists spec, spec_controller_loss [[0]] Example.net 1 = Ok spec /\ spec = 0.
Proof.
  eexists. split; [unfold spec_controller_loss; simpl; reflexivity|].
  assert (E3 : dot [0] [0] + 0 = 0) by (unfold dot, Rsum; simpl; lra).
  rewrite !E3, !tanh_0.
  unfold mean, vscale, row_sq_sums, dot, Rsum. simpl. field.
Qed.

(** C5 as stated fails: at the state 0 of the example the QP moves the
    control away from the output of compute_controls, and the loss that
    controller_loss returns differs from the one computed from that
    output.  The solver's answer is the minimiser of the QP at the
    parameter values that forward binds there. *)
Lemma controller_loss_uses_filtered_control :
  use_QP Example.net = true
  /\ Example.example_solve (layer_problem (qp_layer Example.net))
       Example.example_params = Ok Example.example_solution
  /\ qp_optimal (qp_layer Example.net) Example.example_params
       Example.example_solution
  /\ exists loss spec,
       returned (controller_loss Example.example_solve [[0]] Example.net
                   false true None 1) = Ok loss
       /\ spec_controller_loss [[0]] Example.net 1 = Ok spec
       /\ loss <> spec.
Proof.
  split; [reflexivity|]. split; [reflexivity|].
  split; [exact example_solution_optimal|].
  destruct (controller_loss_at_example Example.example_solve eq_refl)
    as (loss & Hloss & Hval).
  destruct spec_controller_loss_at_example as (spec & Hspec & Hzero).
  exists loss, spec. split; [exact Hloss|]. split; [exact Hspec|].
  rewrite Hval, Hzero. pose proof gamma_bounds as [Hg _]. nra.
Qed.

(** ** The gradient of the Lyapunov function *)

(** *** Derivatives along a path *)

Lemma cosh_pos (x : R) : 0 < cosh x.
Proof.
  unfold cosh. pose proof (exp_pos x). pose proof (exp_pos (Ropp x)). lra.
Qed.

Lemma derivable_pt_lim_tanh (x : R) : derivable_pt_lim tanh x (1 - tanh x ^ 2).
Proof.
  pose proof (cosh_pos x) as Hc.
  apply (derivable_pt_lim_ext (sinh / cosh)%F); [intros z; reflexivity|].
  replace (1 - tanh x ^ 2)
    with ((cosh x * cosh x - sinh x * sinh x) / Rsqr (cosh x)).
  - apply derivable_pt_lim_div;
      [apply derivable_pt_lim_sinh | apply derivable_pt_lim_cosh | lra].
  - unfold tanh, Rsqr. field. lra.
Qed.


Lemma dot_cons (a b : R) (u v : vec) : dot (a :: u) (b :: v) = a * b + dot u v.
Proof. reflexivity. Qed.

Lemma dlim_const (c : R) : derivable_pt_lim (fun _ => c) 0 0.
Proof. exact (derivable_pt_lim_const c 0). Qed.

Lemma dlim_id : derivable_pt_lim (fun t => t) 0 1.
Proof. exact (derivable_pt_lim_id 0). Qed.

Lemma dlim_plus (f g : R -> R) (l1 l2 l : R) :
  derivable_pt_lim f 0 l1 -> derivable_pt_lim g 0 l2 -> l = l1 + l2 ->
  derivable_pt_lim (fun t => f t + g t) 0 l.
Proof. intros Hf Hg ->. exact (derivable_pt_lim_plus f g 0 l1 l2 Hf Hg). Qed.

Lemma dlim_scal (a : R) (f : R -> R) (l l' : R) :
  derivable_pt_lim f 0 l -> l' = a * l ->
  derivable_pt_lim (fun t => a * f t) 0 l'.
Proof. intros Hf ->. exact (derivable_pt_lim_scal f a 0 l Hf). Qed.

Lemma dlim_mult (f g : R -> R) (l1 l2 l : R) :
  derivable_pt_lim f 0 l1 -> derivable_pt_lim g 0 l2 ->
  l = l1 * g 0 + f 0 * l2 ->
  derivable_pt_lim (fun t => f t * g t) 0 l.
Proof. intros Hf Hg ->. exact (derivable_pt_lim_mult f g 0 l1 l2 Hf Hg). Qed.

Lemma derivs_dot (w : vec) (fs : list (R -> R)) (dfs : vec) :
  derivs fs dfs ->
  derivable_pt_lim (fun t => dot w (eval fs t)) 0 (dot w dfs).
Proof.
  intros H. revert w. induction H as [|f df fs dfs Hf _ IH]; intros w.
  - destruct w; exact (derivable_pt_lim_const 0 0).
  - destruct w as [|a w]; [exact (derivable_pt_lim_const 0 0)|].
    apply (dlim_plus (fun t => a * f t) (fun t => dot w (eval fs t))
             (a * df) (dot w dfs)); [|apply IH | reflexivity].
    apply (dlim_scal a f df); [exact Hf | reflexivity].
Qed.


Lemma eval_line (x d : vec) (t : R) : eval (line x d) t = vadd x (vscale t d).
Proof.
  unfold eval, line, vadd, vscale. revert d.
  induction x as [|a x IH]; intros [|b d]; simpl; try reflexivity.
  rewrite IH. reflexivity.
Qed.

Lemma derivs_line (x d : vec) : length x = length d -> derivs (line x d) d.
Proof.
  unfold derivs, line. revert d.
  induction x as [|a x IH]; intros [|b d] Hlen; simpl; try discriminate Hlen.
  - constructor.
  - constructor; [|apply IH; injection Hlen as Hlen; exact Hlen].
    apply (dlim_plus (fun _ => a) (fun t => t * b) 0 b);
      [apply dlim_const | | ring].
    apply (dlim_mult (fun t => t) (fun _ => b) 1 0);
      [apply dlim_id | apply dlim_const | ring].
Qed.


Lemma eval_linear_path (L : Linear) (fs : list (R -> R)) (t : R) :
  eval (linear_path (weight L) (bias L) fs) t = linear_row L (eval fs t).
Proof.
  unfold eval, linear_path, linear_row, vadd, matvec.
  generalize (bias L). induction (weight L) as [|row W IH]; intros [|c b];
    simpl; try reflexivity.
  rewrite IH. reflexivity.
Qed.

Lemma derivs_linear_path (W : mat) (b : vec) (fs : list (R -> R)) (dfs : vec) :
  length W = length b -> derivs fs dfs ->
  derivs (linear_path W b fs) (matvec W dfs).
Proof.
  intros Hlen H. unfold derivs, linear_path, matvec. revert b Hlen.
  induction W as [|row W IH]; intros [|c b] Hlen; simpl; try discriminate Hlen.
  - constructor.
  - constructor; [|apply IH; injection Hlen as Hlen; exact Hlen].
    apply (dlim_plus (fun t => dot row (eval fs t)) (fun _ => c) (dot row dfs) 0);
      [apply derivs_dot; exact H | apply dlim_const | ring].
Qed.


Lemma eval_tanh_path (fs : list (R -> R)) (t : R) :
  eval (tanh_path fs) t = map tanh (eval fs t).
Proof. unfold eval, tanh_path. rewrite !map_map. reflexivity. Qed.

Lemma derivs_tanh_path (fs : list (R -> R)) (dfs : vec) :
  derivs fs dfs ->
  derivs (tanh_path fs)
    (zip_with Rmult (map (fun a => 1 - a ^ 2) (map tanh (eval fs 0))) dfs).
Proof.
  intros H. unfold derivs, tanh_path, eval.
  induction H as [|f df fs dfs Hf _ IH]; simpl; constructor; [|exact IH].
  exact (derivable_pt_lim_comp f tanh 0 df (1 - tanh (f 0) ^ 2) Hf
           (derivable_pt_lim_tanh (f 0))).
Qed.

(** Half the squared norm along a path. *)
Lemma derivs_half_sum_squares (fs : list (R -> R)) (dfs : vec) :
  derivs fs dfs ->
  derivable_pt_lim
    (fun t => 0.5 * Rsum (zip_with Rmult (eval fs t) (eval fs t))) 0
    (dot (eval fs 0) dfs).
Proof.
  intros H.
  assert (Hsum : derivable_pt_lim
                   (fun t => Rsum (zip_with Rmult (eval fs t) (eval fs t))) 0
                   (2 * dot (eval fs 0) dfs)).
  { induction H as [|f df fs dfs Hf _ IH].
    - replace (2 * dot (eval [] 0) []) with 0 by (unfold dot, Rsum; simpl; ring).
      exact (dlim_const 0).
    - apply (dlim_plus (fun t => f t * f t)
               (fun t => Rsum (zip_with Rmult (eval fs t) (eval fs t)))
               (df * f 0 + f 0 * df) (2 * dot (eval fs 0) dfs));
        [|exact IH | simpl; rewrite dot_cons; ring].
      apply (dlim_mult f f df df _ Hf Hf). reflexivity. }
  apply (dlim_scal 0.5 _ _ _ Hsum). lra.
Qed.

(** *** Matrix identities *)

Lemma dot_nil_r (u : vec) : dot u [] = 0.
Proof. destruct u; reflexivity. Qed.

Lemma dot_zeros_l (m : nat) (d : vec) : dot (replicate m 0) d = 0.
Proof.
  revert d. induction m as [|m IH]; intros [|b d]; simpl; try reflexivity.
  rewrite dot_cons, IH. ring.
Qed.

Lemma dot_vscale (x : R) (r d : vec) : dot (vscale x r) d = x * dot r d.
Proof.
  revert d. induction r as [|a r IH]; intros [|b d]; simpl;
    try (unfold dot, Rsum; simpl; ring).
  rewrite !dot_cons, IH. ring.
Qed.

Lemma dot_vadd (u v d : vec) :
  length u = length v -> dot (vadd u v) d = dot u d + dot v d.
Proof.
  revert v d. induction u as [|a u IH]; intros [|b v] [|c d] Hlen;
    try discriminate Hlen; simpl; try (unfold dot, Rsum; simpl; ring).
  unfold vadd in *. simpl. rewrite !dot_cons, IH by (injection Hlen; auto). ring.
Qed.

Lemma fold_vadd_length (m : nat) (rows : list vec) :
  Forall (fun r => length r = m) rows ->
  length (fold_right vadd (replicate m 0) rows) = m.
Proof.
  induction 1 as [|r rows Hr _ IH]; simpl; [apply length_replicate|].
  unfold vadd at 1. rewrite length_zip_with, IH, Hr. lia.
Qed.

Lemma Forall_zip_with_vscale (m : nat) (a : vec) (M : mat) :
  Forall (fun r => length r = m) M ->
  Forall (fun r => length r = m) (zip_with vscale a M).
Proof.
  intros H. revert a. induction H as [|r M Hr _ IH]; intros [|x a]; simpl;
    try constructor; [|apply IH].
  unfold vscale. rewrite length_map. exact Hr.
Qed.

Lemma dot_combination (m : nat) (a d : vec) (M : mat) :
  Forall (fun r => length r = m) M -> length d = m ->
  dot (fold_right vadd (replicate m 0) (zip_with vscale a M)) d
  = dot a (matvec M d).
Proof.
  intros HM Hd. revert a. induction HM as [|r M Hr HM IH]; intros [|x a]; simpl;
    try (rewrite dot_zeros_l; unfold dot, Rsum; simpl; ring).
  rewrite dot_vadd, dot_vscale, IH, dot_cons; [ring|].
  unfold vscale. rewrite length_map, fold_vadd_length;
    [exact Hr | apply Forall_zip_with_vscale; exact HM].
Qed.

Lemma ncols_rows (m : nat) (M : mat) :
  Forall (fun r => length r = m) M -> M <> [] -> ncols M = m.
Proof. intros H Hne. destruct H; [congruence | assumption]. Qed.

Lemma vecmat_length (m : nat) (a : vec) (M : mat) :
  Forall (fun r => length r = m) M -> M <> [] -> length (vecmat a M) = m.
Proof.
  intros H Hne. unfold vecmat. rewrite (ncols_rows m M H Hne).
  apply fold_vadd_length, Forall_zip_with_vscale, H.
Qed.

Lemma dot_vecmat (a d : vec) (M : mat) :
  Forall (fun r => length r = length d) M ->
  dot (vecmat a M) d = dot a (matvec M d).
Proof.
  intros H. destruct M as [|r M].
  - unfold vecmat. simpl. destruct a; simpl; rewrite ?dot_nil_r; reflexivity.
  - unfold vecmat. rewrite (ncols_rows (length d) (r :: M) H) by discriminate.
    apply dot_combination; [exact H | reflexivity].
Qed.

Lemma matvec_matmul (A M : mat) (d : vec) :
  Forall (fun r => length r = length d) M ->
  matvec (matmul A M) d = matvec A (matvec M d).
Proof.
  intros H. unfold matvec at 1 3, matmul. rewrite map_map.
  apply map_ext. intros a. apply dot_vecmat, H.
Qed.

Lemma matvec_diag_embed (s v : vec) :
  length v = length s -> matvec (diag_embed s) v = zip_with Rmult s v.
Proof.
  revert v. induction s as [|a s IH]; intros [|b v] Hlen; try discriminate Hlen;
    [reflexivity|].
  simpl. f_equal.
  - rewrite dot_cons, dot_zeros_l. ring.
  - rewrite <- IH by (injection Hlen; auto). unfold matvec. rewrite map_map.
    apply map_ext. intros row. rewrite dot_cons. ring.
Qed.

Lemma diag_embed_length (s : vec) : length (diag_embed s) = length s.
Proof.
  induction s as [|a s IH]; simpl; [reflexivity|].
  rewrite length_map, IH. reflexivity.
Qed.

Lemma diag_embed_rows (s : vec) :
  Forall (fun r => length r = length s) (diag_embed s).
Proof.
  induction s as [|a s IH]; simpl; constructor.
  - simpl. rewrite length_replicate. reflexivity.
  - apply Forall_map. eapply Forall_impl; [exact IH|].
    intros r Hr. simpl. rewrite Hr. reflexivity.
Qed.

(** *** compute_lyapunov row by row *)

Lemma bind_ok_eq {A B : Type} (m : res A) (a : A) (f : A -> res B) :
  m = Ok a -> m ≫= f = f a.
Proof. intros ->. reflexivity. Qed.

Lemma mapM_res_map {A B : Type} (f : A -> res B) (g : A -> B) (l : list A) :
  Forall (fun a => f a = Ok (g a)) l -> mapM_res f l = Ok (map g l).
Proof.
  induction 1 as [|a l Ha _ IH]; simpl; [reflexivity|].
  rewrite Ha. simpl. rewrite IH. reflexivity.
Qed.

Lemma zipM_map {A B C D : Type} (f : B -> C -> res D) (g1 : A -> B) (g2 : A -> C)
    (h : A -> D) (l : list A) :
  Forall (fun a => f (g1 a) (g2 a) = Ok (h a)) l ->
  zipM f (map g1 l) (map g2 l) = Ok (map h l).
Proof.
  induction 1 as [|a l Ha _ IH]; simpl; [reflexivity|].
  rewrite Ha. simpl. rewrite IH. reflexivity.
Qed.

Lemma forallb_Forall {A : Type} (p : A -> bool) (l : list A) :
  forallb p l = true <-> Forall (fun a => p a = true) l.
Proof.
  rewrite forallb_forall, List.Forall_forall. reflexivity.
Qed.

Lemma matmul_chk_ok (A M : mat) :
  Forall (fun a => length a = length M) A ->
  Forall (fun r => length r = ncols M) M ->
  matmul_chk A M = Ok (matmul A M).
Proof.
  intros HA HM. unfold matmul_chk, matmul_ok.
  replace (forallb _ A) with true.
  - replace (forallb _ M) with true; [reflexivity|].
    symmetry. apply forallb_Forall. eapply Forall_impl; [exact HM|].
    intros r Hr. apply Nat.eqb_eq. exact Hr.
  - symmetry. apply forallb_Forall. eapply Forall_impl; [exact HA|].
    intros r Hr. apply Nat.eqb_eq. exact Hr.
Qed.

Lemma rows_ncols (m : nat) (M : mat) :
  Forall (fun r => length r = m) M -> Forall (fun r => length r = ncols M) M.
Proof.
  intros H. destruct M as [|r M]; [constructor|].
  rewrite (ncols_rows m (r :: M) H) by discriminate. exact H.
Qed.

Lemma matmul_rows (m : nat) (A M : mat) :
  Forall (fun r => length r = m) M -> M <> [] ->
  Forall (fun r => length r = m) (matmul A M).
Proof.
  intros H Hne. unfold matmul. apply Forall_map, Forall_true.
  intros a. simpl. apply vecmat_length; assumption.
Qed.

Lemma matmul_length (A M : mat) : length (matmul A M) = length A.
Proof. unfold matmul. apply length_map. Qed.

Lemma nonempty_length {A : Type} (l : list A) : (0 < length l)%nat -> l <> [].
Proof. destruct l; simpl; [lia | discriminate]. Qed.

Section LyapunovRows.

Variable net : CLF_K_QP_Net.


Hypothesis wf : wf_lyapunov net = true.

Lemma wf_lyapunov_shapes :
  length (weight (Vfc_layer_1 net)) = out_features (Vfc_layer_1 net)
  /\ Forall (fun r => length r = in_features (Vfc_layer_1 net)) (weight (Vfc_layer_1 net))
  /\ length (bias (Vfc_layer_1 net)) = out_features (Vfc_layer_1 net)
  /\ length (weight (Vfc_layer_2 net)) = out_features (Vfc_layer_2 net)
  /\ Forall (fun r => length r = out_features (Vfc_layer_1 net)) (weight (Vfc_layer_2 net))
  /\ length (bias (Vfc_layer_2 net)) = out_features (Vfc_layer_2 net)
  /\ (0 < out_features (Vfc_layer_1 net))%nat /\ (0 < out_features (Vfc_layer_2 net))%nat.
Proof.
  pose proof wf as H. unfold wf_lyapunov, wf_linear in H.
  repeat match goal with
         | Hx : _ && _ = true |- _ => apply andb_prop in Hx; destruct Hx
         | Hx : (_ =? _)%nat = true |- _ => apply Nat.eqb_eq in Hx
         | Hx : (_ <? _)%nat = true |- _ => apply Nat.ltb_lt in Hx
         | Hx : forallb _ _ = true |- _ => apply forallb_Forall in Hx
         end.
  repeat split; try assumption.
  - eapply Forall_impl; [eassumption|]. intros r Hr. apply Nat.eqb_eq. exact Hr.
  - eapply Forall_impl; [eassumption|]. intros r Hr. apply Nat.eqb_eq in Hr.
    congruence.
Qed.

Lemma linear_row_length_1 (y : vec) : length (linear_row (Vfc_layer_1 net) y) = out_features (Vfc_layer_1 net).
Proof.
  destruct wf_lyapunov_shapes as (HW & _ & Hb & _).
  unfold linear_row, vadd, matvec. rewrite length_zip_with, length_map.
  lia.
Qed.

Lemma linear_row_length_2 (y : vec) : length (linear_row (Vfc_layer_2 net) y) = out_features (Vfc_layer_2 net).
Proof.
  destruct wf_lyapunov_shapes as (_ & _ & _ & HW & _ & Hb & _).
  unfold linear_row, vadd, matvec. rewrite length_zip_with, length_map.
  lia.
Qed.

Lemma hidden_1_length (y : vec) : length (hidden_1 net y) = out_features (Vfc_layer_1 net).
Proof. unfold hidden_1. rewrite length_map. apply linear_row_length_1. Qed.

Lemma hidden_2_length (y : vec) : length (hidden_2 net y) = out_features (Vfc_layer_2 net).
Proof. unfold hidden_2. rewrite length_map. apply linear_row_length_2. Qed.

Lemma jacobian_1_rows (y : vec) :
  length (jacobian_1 net y) = out_features (Vfc_layer_1 net)
  /\ Forall (fun r => length r = in_features (Vfc_layer_1 net)) (jacobian_1 net y).
Proof.
  destruct wf_lyapunov_shapes as (HW & Hrows & _ & _ & _ & _ & Hpos & _).
  unfold jacobian_1. split.
  - rewrite matmul_length. unfold d_tanh_dx.
    rewrite diag_embed_length, length_map. apply hidden_1_length.
  - apply matmul_rows; [exact Hrows | apply nonempty_length; lia].
Qed.

Lemma jacobian_2_rows (y : vec) :
  length (jacobian_2 net y) = out_features (Vfc_layer_2 net)
  /\ Forall (fun r => length r = in_features (Vfc_layer_1 net)) (jacobian_2 net y).
Proof.
  destruct (jacobian_1_rows y) as [Hlen Hrows].
  destruct wf_lyapunov_shapes as (_ & _ & _ & _ & _ & _ & Hpos & _).
  unfold jacobian_2. split.
  - rewrite !matmul_length. unfold d_tanh_dx.
    rewrite diag_embed_length, length_map. apply hidden_2_length.
  - apply matmul_rows; [exact Hrows | apply nonempty_length; lia].
Qed.

Lemma jacobian_1_chk (y : vec) :
  matmul_chk (d_tanh_dx (hidden_1 net y)) (weight (Vfc_layer_1 net)) = Ok (jacobian_1 net y).
Proof.
  destruct wf_lyapunov_shapes as (HW & Hrows & _).
  apply matmul_chk_ok.
  - unfold d_tanh_dx. eapply Forall_impl; [apply diag_embed_rows|].
    intros r Hr. simpl in Hr. rewrite Hr, length_map, hidden_1_length. lia.
  - eapply rows_ncols. exact Hrows.
Qed.

Lemma jacobian_2_chk (y : vec) :
  matmul_chk (d_tanh_dx (hidden_2 net y)) (weight (Vfc_layer_2 net))
    = Ok (matmul (d_tanh_dx (hidden_2 net y)) (weight (Vfc_layer_2 net)))
  /\ matmul_chk (matmul (d_tanh_dx (hidden_2 net y)) (weight (Vfc_layer_2 net))) (jacobian_1 net y)
     = Ok (jacobian_2 net y).
Proof.
  destruct wf_lyapunov_shapes as (_ & _ & _ & HW & Hrows & _ & _ & Hpos).
  destruct (jacobian_1_rows y) as [Hlen1 Hrows1].
  split.
  - apply matmul_chk_ok.
    + unfold d_tanh_dx. eapply Forall_impl; [apply diag_embed_rows|].
      intros r Hr. simpl in Hr. rewrite Hr, length_map, hidden_2_length. lia.
    + eapply rows_ncols. exact Hrows.
  - apply matmul_chk_ok.
    + eapply Forall_impl;
        [apply (matmul_rows _ _ _ Hrows); apply nonempty_length; lia|].
      intros r Hr. simpl in Hr. lia.
    + eapply rows_ncols. exact Hrows1.
Qed.

Lemma gradient_chk (y : vec) :
  matmul_chk [hidden_2 net y] (jacobian_2 net y) = Ok [gradient_row net y].
Proof.
  destruct (jacobian_2_rows y) as [Hlen Hrows].
  rewrite matmul_chk_ok; [reflexivity | | eapply rows_ncols; exact Hrows].
  constructor; [|constructor]. rewrite hidden_2_length. lia.
Qed.

(** Under the layer shapes compute_lyapunov returns, and it returns the
    value and the gradient of every row of the batch. *)
Lemma compute_lyapunov_rows (x : list vec) :
  Forall (fun y => length y = in_features (Vfc_layer_1 net)) x ->
  compute_lyapunov net x
  = Ok (map (lyapunov_row net) x, map (fun y => [gradient_row net y]) x).
Proof.
  intros Hx. unfold compute_lyapunov.
  destruct wf_lyapunov_shapes as (_ & _ & _ & _ & Hrows2 & _).
  assert (H1 : linear (Vfc_layer_1 net) x
               = Ok (map (linear_row (Vfc_layer_1 net)) x)).
  { unfold linear. replace (forallb _ x) with true; [reflexivity|].
    symmetry. apply forallb_Forall. eapply Forall_impl; [exact Hx|].
    intros y Hy. apply Nat.eqb_eq. exact Hy. }
  rewrite (bind_ok_eq _ _ _ H1). cbv zeta.
  rewrite map_map.
  change (fun y => map tanh (linear_row (Vfc_layer_1 net) y)) with (hidden_1 net).
  assert (H2 : linear (Vfc_layer_2 net) (map (hidden_1 net) x)
               = Ok (map (linear_row (Vfc_layer_2 net)) (map (hidden_1 net) x))).
  { unfold linear. replace (forallb _ (map (hidden_1 net) x)) with true; [reflexivity|].
    symmetry. apply forallb_Forall, Forall_map, Forall_true.
    intros y. simpl. apply Nat.eqb_eq. rewrite hidden_1_length.
    pose proof wf as H. unfold wf_lyapunov in H.
    repeat (apply andb_prop in H; destruct H as [H ?]).
    match goal with Hx : (_ =? _)%nat = true |- _ => apply Nat.eqb_eq in Hx; exact Hx end. }
  rewrite (bind_ok_eq _ _ _ H2). cbv zeta.
  rewrite !map_map.
  change (fun y => map tanh (linear_row (Vfc_layer_2 net) (hidden_1 net y)))
    with (hidden_2 net).
  rewrite (bind_ok_eq _ (map (jacobian_1 net) x)).
  2: { rewrite <- (map_map (hidden_1 net)
                    (fun h => matmul (d_tanh_dx h) (weight (Vfc_layer_1 net)))).
       apply mapM_res_map, Forall_map, Forall_true. intros y. simpl.
       apply jacobian_1_chk. }
  rewrite (bind_ok_eq _ (map (fun y => matmul (d_tanh_dx (hidden_2 net y))
                                        (weight (Vfc_layer_2 net))) x)).
  2: { rewrite <- (map_map (hidden_2 net)
                    (fun h => matmul (d_tanh_dx h) (weight (Vfc_layer_2 net)))).
       apply mapM_res_map, Forall_map, Forall_true. intros y. simpl.
       apply jacobian_2_chk. }
  unfold bmm.
  rewrite (bind_ok_eq _ (map (jacobian_2 net) x)).
  2: { apply zipM_map, Forall_true. intros y. apply jacobian_2_chk. }
  rewrite (bind_ok_eq _ (map (fun y => [gradient_row net y]) x)).
  2: { apply (zipM_map matmul_chk (fun y => [hidden_2 net y]) (jacobian_2 net)).
       apply Forall_true. intros y. apply gradient_chk. }
  reflexivity.
Qed.

End LyapunovRows.

(** *** The gradient is the derivative *)

Lemma line_at_0 (x d : vec) : length x = length d -> eval (line x d) 0 = x.
Proof.
  unfold eval, line. revert d.
  induction x as [|a x IH]; intros [|b d] Hlen; try discriminate Hlen;
    [reflexivity|].
  simpl. rewrite IH by (injection Hlen; auto). f_equal. ring.
Qed.

Lemma vadd_vscale_length (x d : vec) (t : R) :
  length x = length d -> length (vadd x (vscale t d)) = length x.
Proof.
  intros H. unfold vadd, vscale. rewrite length_zip_with, length_map. lia.
Qed.

Section Gradient.

Variable net : CLF_K_QP_Net.
Hypothesis wf : wf_lyapunov net = true.

(** The product of the code's Jacobians applied to a direction is the
    chain rule read from the inside out. *)
Lemma gradient_row_dot (y d : vec) :
  length d = in_features (Vfc_layer_1 net) ->
  dot (gradient_row net y) d
  = dot (hidden_2 net y)
      (zip_with Rmult (map (fun a => 1 - a ^ 2) (hidden_2 net y))
         (matvec (weight (Vfc_layer_2 net))
            (zip_with Rmult (map (fun a => 1 - a ^ 2) (hidden_1 net y))
               (matvec (weight (Vfc_layer_1 net)) d)))).
Proof.
  intros Hd.
  destruct (wf_lyapunov_shapes net wf) as (HW1 & Hrows1 & _ & HW2 & Hrows2 & _).
  destruct (jacobian_1_rows net wf y) as [_ HJ1].
  destruct (jacobian_2_rows net wf y) as [_ HJ2]. rewrite <- Hd in HJ1, HJ2, Hrows1.
  unfold gradient_row. rewrite dot_vecmat by exact HJ2.
  unfold jacobian_2.
  rewrite (matvec_matmul _ (jacobian_1 net y) d HJ1).
  unfold jacobian_1.
  rewrite (matvec_matmul (d_tanh_dx (hidden_1 net y)) (weight (Vfc_layer_1 net)) d Hrows1).
  unfold d_tanh_dx.
  rewrite (matvec_diag_embed _ (matvec (weight (Vfc_layer_1 net)) d)).
  2: { unfold matvec. rewrite !length_map, HW1.
       symmetry. apply (hidden_1_length net wf). }
  rewrite matvec_matmul.
  2: { eapply Forall_impl; [exact Hrows2|]. intros r Hr. simpl.
       rewrite Hr, length_zip_with, !length_map.
       rewrite (hidden_1_length net wf).
       unfold matvec. rewrite length_map, HW1. lia. }
  rewrite matvec_diag_embed; [reflexivity|].
  unfold matvec at 1. rewrite !length_map, HW2.
  symmetry. apply (hidden_2_length net wf).
Qed.

(** On a state of the right length the value of the code is the row
    function. *)
Lemma lyapunov_value_row (y : vec) :
  length y = in_features (Vfc_layer_1 net) -> lyapunov_value net y = lyapunov_row net y.
Proof.
  intros Hy. unfold lyapunov_value.
  rewrite (compute_lyapunov_rows net wf [y]) by (constructor; [exact Hy | constructor]).
  reflexivity.
Qed.

Lemma lyapunov_row_derivative (y d : vec) :
  length y = in_features (Vfc_layer_1 net) -> length d = in_features (Vfc_layer_1 net) ->
  derivable_pt_lim (fun t => lyapunov_row net (vadd y (vscale t d))) 0
    (dot (gradient_row net y) d).
Proof.
  intros Hy Hd.
  assert (Hlen : length y = length d) by congruence.
  destruct (wf_lyapunov_shapes net wf) as (HW1 & _ & Hb1 & HW2 & _ & Hb2 & _).
  set (fs1 := linear_path (weight (Vfc_layer_1 net)) (bias (Vfc_layer_1 net)) (line y d)).
  set (fs2 := tanh_path fs1).
  set (fs3 := linear_path (weight (Vfc_layer_2 net)) (bias (Vfc_layer_2 net)) fs2).
  set (fs4 := tanh_path fs3).
  assert (D1 : derivs fs1 (matvec (weight (Vfc_layer_1 net)) d)).
  { apply derivs_linear_path; [congruence | apply derivs_line; exact Hlen]. }
  pose proof (derivs_tanh_path fs1 _ D1) as D2. fold fs2 in D2.
  pose proof (derivs_linear_path (weight (Vfc_layer_2 net)) (bias (Vfc_layer_2 net)) fs2 _
                (eq_trans HW2 (eq_sym Hb2)) D2) as D3.
  fold fs3 in D3.
  pose proof (derivs_tanh_path fs3 _ D3) as D4. fold fs4 in D4.
  pose proof (derivs_half_sum_squares fs4 _ D4) as DV.
  assert (E1 : forall t, eval fs1 t = linear_row (Vfc_layer_1 net) (vadd y (vscale t d))).
  { intros t. unfold fs1. rewrite eval_linear_path, eval_line. reflexivity. }
  assert (E2 : forall t, eval fs2 t = hidden_1 net (vadd y (vscale t d))).
  { intros t. unfold fs2. rewrite eval_tanh_path, E1. reflexivity. }
  assert (E3 : forall t, eval fs3 t = linear_row (Vfc_layer_2 net) (hidden_1 net (vadd y (vscale t d)))).
  { intros t. unfold fs3. rewrite eval_linear_path, E2. reflexivity. }
  assert (E4 : forall t, eval fs4 t = hidden_2 net (vadd y (vscale t d))).
  { intros t. unfold fs4. rewrite eval_tanh_path, E3. reflexivity. }
  assert (E0 : vadd y (vscale 0 d) = y).
  { rewrite <- eval_line. apply line_at_0. exact Hlen. }
  apply (derivable_pt_lim_ext
           (fun t => 0.5 * Rsum (zip_with Rmult (eval fs4 t) (eval fs4 t)))).
  { intros t. rewrite E4. reflexivity. }
  rewrite gradient_row_dot by exact Hd.
  rewrite E4, E3, E1, E0 in DV.
  exact DV.
Qed.

End Gradient.

(** C4: for layers of the shapes the constructor gives them and a batch of
    states of length n_input, compute_lyapunov returns, for every state y
    of the batch, the value V(y) and as gradient the chain-rule product
    h2 * (diag(1 - h2^2) W2) * (diag(1 - h1^2) W1); this gradient is the
    derivative of V at y: along every direction d the derivative of
    t |-> V(y + t d) at 0 is the gradient times d. *)
Theorem compute_lyapunov_gradient (net : CLF_K_QP_Net) (x : list vec) :
  wf_lyapunov net = true ->
  Forall (fun y => length y = in_features (Vfc_layer_1 net)) x ->
  exists V grad_V,
    compute_lyapunov net x = Ok (V, grad_V)
    /\ Forall3
         (fun y v G =>
            v = lyapunov_value net y
            /\ G = [gradient_row net y]
            /\ forall d, length d = length y ->
                 derivable_pt_lim
                   (fun t => lyapunov_value net (vadd y (vscale t d))) 0
                   (dot (gradient_row net y) d))
         x V grad_V.
Proof.
  intros wf Hx.
  exists (map (lyapunov_row net) x), (map (fun y => [gradient_row net y]) x).
  split; [apply compute_lyapunov_rows; assumption|].
  induction Hx as [|y x Hy Hx IH]; simpl; constructor; [|exact IH].
  split; [symmetry; apply lyapunov_value_row; assumption|].
  split; [reflexivity|].
  intros d Hd.
  apply (derivable_pt_lim_ext (fun t => lyapunov_row net (vadd y (vscale t d)))).
  - intros t. symmetry. apply lyapunov_value_row; [exact wf|].
    rewrite vadd_vscale_length by (symmetry; exact Hd). exact Hy.
  - apply lyapunov_row_derivative; [exact wf | exact Hy | congruence].
Qed.

Lemma compute_lyapunov_gradient_witness :
  wf_lyapunov Example.net = true
  /\ Forall (fun y => length y = in_features (Vfc_layer_1 Example.net)) [[0]; [1]]
  /\ exists V grad_V,
       compute_lyapunov Example.net [[0]; [1]] = Ok (V, grad_V)
       /\ Forall3
            (fun y v G =>
               v = lyapunov_value Example.net y
               /\ G = [gradient_row Example.net y]
               /\ forall d, length d = length y ->
                    derivable_pt_lim
                      (fun t => lyapunov_value Example.net (vadd y (vscale t d))) 0
                      (dot (gradient_row Example.net y) d))
            [[0]; [1]] V grad_V.
Proof.
  assert (Hx : Forall (fun y => length y = in_features (Vfc_layer_1 Example.net))
                 [[0]; [1]])
    by (repeat constructor).
  split; [reflexivity|]. split; [exact Hx|].
  exact (compute_lyapunov_gradient Example.net [[0]; [1]] eq_refl Hx).
Defined.

(** * Further properties of the network *)

(** ** Bounds *)

Lemma tanh_bounds (x : R) : -1 < tanh x < 1.
Proof.
  unfold tanh, sinh, cosh.
  pose proof (exp_pos x) as H1. pose proof (exp_pos (Ropp x)) as H2.
  assert (Hc : 0 < (exp x + exp (Ropp x)) / 2) by lra.
  split.
  - apply (Rmult_lt_reg_r ((exp x + exp (Ropp x)) / 2)); [exact Hc|].
    unfold Rdiv at 2. rewrite Rmult_assoc, Rinv_l by lra. lra.
  - apply (Rmult_lt_reg_r ((exp x + exp (Ropp x)) / 2)); [exact Hc|].
    unfold Rdiv at 1. rewrite Rmult_assoc, Rinv_l by lra. lra.
Qed.

Lemma Rsum_tanh_squares (y : vec) :
  Rsum (zip_with Rmult (map tanh y) (map tanh y)) <= INR (length y).
Proof.
  induction y as [|a y IH]; [simpl; unfold Rsum; simpl; lra|].
  change (tanh a * tanh a + Rsum (zip_with Rmult (map tanh y) (map tanh y))
          <= INR (S (length y))).
  rewrite S_INR. pose proof (tanh_bounds a). nra.
Qed.

Lemma Rsum_nonneg (v : vec) : Forall (fun a => 0 <= a) v -> 0 <= Rsum v.
Proof.
  induction 1 as [|a v Ha _ IH]; unfold Rsum in *; simpl; lra.
Qed.

Lemma mean_nonneg (v : vec) : Forall (fun a => 0 <= a) v -> 0 <= mean v.
Proof.
  intros H. unfold mean. destruct v as [|a v].
  - unfold Rdiv, Rsum. simpl. rewrite Rmult_0_l. lra.
  - apply Rmult_le_pos; [apply Rsum_nonneg; exact H|].
    apply Rlt_le, Rinv_0_lt_compat. apply lt_0_INR. simpl. lia.
Qed.

(** X1: The Lyapunov value is at most half the number of hidden units: every
    activation of the second layer lies strictly between -1 and 1. *)
Theorem compute_lyapunov_bounded (net : CLF_K_QP_Net) (x : list vec)
    (V : vec) (grad_V : list mat) :
  compute_lyapunov net x = Ok (V, grad_V) ->
  Forall (fun v => v <= 0.5 * INR (length (bias (Vfc_layer_2 net)))) V.
Proof.
  unfold compute_lyapunov. intros H. inv_res.
  apply List.Forall_forall. intros v Hv.
  apply in_map_iff in Hv. destruct Hv as (h & <- & Hh).
  apply in_map_iff in Hh. destruct Hh as (y & <- & Hy).
  match goal with Hl : linear (Vfc_layer_2 net) _ = Ok _ |- _ =>
    unfold linear in Hl;
    match type of Hl with (if ?c then _ else _) = _ =>
      destruct c; [|discriminate Hl] end;
    injection Hl as <- end.
  apply in_map_iff in Hy. destruct Hy as (h1 & <- & _).
  pose proof (Rsum_tanh_squares (linear_row (Vfc_layer_2 net) h1)) as Hb.
  assert (Hlen : (length (linear_row (Vfc_layer_2 net) h1)
                  <= length (bias (Vfc_layer_2 net)))%nat).
  { unfold linear_row, vadd. rewrite length_zip_with. lia. }
  apply le_INR in Hlen. lra.
Qed.

Lemma compute_lyapunov_bounded_witness :
  exists V grad_V,
    compute_lyapunov Example.net [[0]; [1]] = Ok (V, grad_V)
    /\ Forall (fun v => v <= 0.5 * INR 1) V.
Proof.
  do 2 eexists. split; [reflexivity|].
  exact (compute_lyapunov_bounded Example.net [[0]; [1]] _ _ eq_refl).
Defined.

(** ** Signs of the outputs *)

Lemma sq_sum_nonneg (row : vec) : 0 <= Rsum (map (fun a => a ^ 2) row).
Proof.
  apply Rsum_nonneg, Forall_map, Forall_true. intros a. simpl. nra.
Qed.

Lemma vscale_row_sq_sums_nonneg (c : R) (d : mat) :
  0 <= c -> Forall (fun a => 0 <= a) (vscale c (row_sq_sums d)).
Proof.
  intros Hc. unfold vscale, row_sq_sums. rewrite map_map.
  apply Forall_map, Forall_true. intros row. simpl.
  apply Rmult_le_pos; [exact Hc | apply sq_sum_nonneg].
Qed.

(** X9: On a nonempty batch and with a nonnegative coefficient the controller
    loss is nonnegative in each of its three modes.  (The batch and the
    reference control are taken nonempty because torch's mean of an empty
    tensor is not a number.) *)
Theorem controller_loss_nonneg
    (cvx_solve : Problem -> QPParams -> res QPVars)
    (x : list vec) (net : CLF_K_QP_Net) (print_loss use_nominal : bool)
    (use_eq : option (list vec)) (loss_coeff loss : R)
    (printed : list (string * R)) :
  0 <= loss_coeff ->
  x <> [] ->
  loss_reference net x use_nominal use_eq <> Some [] ->
  controller_loss cvx_solve x net print_loss use_nominal use_eq loss_coeff
    = Ok (loss, printed) ->
  0 <= loss.
Proof.
  intros Hc _ _ H. unfold controller_loss in H.
  apply bind_Ok in H. destruct H as ([[[u r] V] Vdot] & _ & H).
  apply bind_Ok in H. destruct H as (u_squeezed & _ & H).
  apply bind_Ok in H. destruct H as (err & Herr & H).
  injection H as <- _. apply mean_nonneg.
  destruct use_nominal; [|destruct use_eq].
  - apply bind_Ok in Herr. destruct Herr as (d & _ & Herr).
    injection Herr as <-. apply vscale_row_sq_sums_nonneg, Hc.
  - apply bind_Ok in Herr. destruct Herr as (d & _ & Herr).
    injection Herr as <-. apply vscale_row_sq_sums_nonneg, Hc.
  - injection Herr as <-. apply vscale_row_sq_sums_nonneg, Hc.
Qed.

Lemma controller_loss_nonneg_witness :
  exists loss printed,
    controller_loss Example.no_solve [[0]] (set_use_QP false Example.net)
      false true None 1 = Ok (loss, printed)
    /\ 0 <= loss.
Proof.
  do 2 eexists. split; [reflexivity|].
  refine (controller_loss_nonneg Example.no_solve [[0]]
            (set_use_QP false Example.net) false true None 1 _ _ _ _ _ eq_refl).
  - lra.
  - discriminate.
  - discriminate.
Defined.

Lemma relu_nonneg (a : R) : 0 <= relu a.
Proof. unfold relu. apply Rmax_l. Qed.

Lemma relu3_nonneg (t : list (list vec)) : nonneg3 (relu3 t).
Proof.
  unfold nonneg3, relu3.
  apply Forall_map, Forall_true. intros M. simpl.
  apply Forall_map, Forall_true. intros row. simpl.
  apply Forall_map, Forall_true. intros a. simpl. apply relu_nonneg.
Qed.

Lemma iadd1_nonneg (a b c : vec) :
  Forall (fun p => 0 <= p) a -> Forall (fun p => 0 <= p) b ->
  iadd1 a b = Ok c -> Forall (fun p => 0 <= p) c.
Proof.
  intros Ha. revert b c. induction Ha as [|p a Hp _ IH]; intros b c Hb H;
    destruct b as [|q b]; simpl in H; try discriminate H.
  - injection H as <-. constructor.
  - unfold iadd1 in H. simpl in H. inv_res. inversion Hb; subst.
    constructor; [lra|]. eapply IH; eassumption.
Qed.

Lemma zipM_Forall {A : Type} (P : A -> Prop) (f : A -> A -> res A)
    (a b c : list A) :
  (forall p q s, P p -> P q -> f p q = Ok s -> P s) ->
  Forall P a -> Forall P b -> zipM f a b = Ok c -> Forall P c.
Proof.
  intros Hf Ha. revert b c. induction Ha as [|p a Hp _ IH]; intros b c Hb H;
    destruct b as [|q b]; simpl in H; try discriminate H.
  - injection H as <-. constructor.
  - inv_res. inversion Hb; subst.
    constructor; [eapply Hf; [| |eassumption]; assumption|].
    eapply IH; eassumption.
Qed.

Lemma iadd3_nonneg (a b c : list (list vec)) :
  nonneg3 a -> nonneg3 b -> iadd3 a b = Ok c -> nonneg3 c.
Proof.
  unfold nonneg3, iadd3.
  apply zipM_Forall. intros p q s. apply zipM_Forall.
  intros p' q' s'. apply iadd1_nonneg.
Qed.

Lemma accumulate_nonneg (lam : R) (L_f_Vs L_g_Vs : list (list vec))
    (u : list mat) (V : vec) (rs : list nat) (relaxation : nat)
    (range : list nat) :
  forall (Vdot Vdot' : list (list vec)) (heap heap' : list vec),
    nonneg3 Vdot ->
    accumulate lam L_f_Vs L_g_Vs u V rs relaxation range Vdot heap
      = Ok (Vdot', heap') ->
    nonneg3 Vdot'.
Proof.
  induction range as [|i range IH]; intros Vdot Vdot' heap heap' Hn H;
    simpl in H.
  - inv_res. exact Hn.
  - apply bind_Ok in H. destruct H as (L_f_V & _ & H).
    apply bind_Ok in H. destruct H as (L_g_V & _ & H).
    apply bind_Ok in H. destruct H as (t & _ & H).
    apply bind_Ok in H. destruct H as (Vdot1 & Hadd & H).
    apply bind_Ok in H. destruct H as (r_i & _ & H).
    apply bind_Ok in H. destruct H as (heap1 & _ & H).
    eapply IH; [|exact H].
    eapply iadd3_nonneg; [exact Hn | apply relu3_nonneg | exact Hadd].
Qed.

Lemma index_0_nonempty {A : Type} (l : list A) (a : A) :
  index l 0 = Ok a -> l <> [].
Proof. destruct l; [discriminate | discriminate]. Qed.

(** The Vdot of forward is the accumulated rectified terms divided by the
    number of scenarios, and there is at least one scenario. *)
Lemma forward_Vdot_average
    (cvx_solve : Problem -> QPParams -> res QPVars)
    (net : CLF_K_QP_Net) (x : list vec)
    (u : list mat) (r V : vec) (Vdot : list (list vec)) :
  forward cvx_solve net x = Ok (u, r, V, Vdot) ->
  (0 < length (scenarios net))%nat
  /\ exists Vdot1, nonneg3 Vdot1
       /\ Vdot = map (map (map (fun p => p / INR (length (scenarios net))))) Vdot1.
Proof.
  intros H. unfold forward in H.
  apply bind_Ok in H. destruct H as ([V0 grad_V] & _ & H).
  apply bind_Ok in H. destruct H as (u_learned & _ & H).
  apply bind_Ok in H. destruct H as (Ls & HLs & H).
  apply bind_Ok in H. destruct H as ([[u' heap] rs] & _ & H).
  apply bind_Ok in H. destruct H as (L_f_V0 & H0 & H).
  apply bind_Ok in H. destruct H as (L_g_V0 & _ & H).
  apply bind_Ok in H. destruct H as (t0 & _ & H).
  apply bind_Ok in H. destruct H as (relaxation & _ & H).
  apply bind_Ok in H. destruct H as ([Vdot1 heap1] & Hacc & H).
  apply bind_Ok in H. destruct H as (heap2 & _ & H).
  apply bind_Ok in H. destruct H as (r' & _ & H).
  injection H as <- <- <- <-.
  apply accumulate_nonneg in Hacc; [|apply relu3_nonneg].
  split; [|exists Vdot1; split; [exact Hacc | reflexivity]].
  apply index_0_nonempty in H0.
  apply mapM_res_Forall2 in HLs. apply Forall2_length in HLs.
  destruct (scenarios net); [|simpl; lia].
  destruct Ls; [exfalso; apply H0; reflexivity | discriminate HLs].
Qed.

Lemma nonneg3_div (n : nat) (t : list (list vec)) :
  (0 < n)%nat -> nonneg3 t ->
  nonneg3 (map (map (map (fun p => p / INR n))) t).
Proof.
  intros Hn Ht. apply lt_0_INR in Hn. unfold nonneg3 in *.
  eapply Forall_map, Forall_impl; [exact Ht|]. intros M HM. simpl.
  eapply Forall_map, Forall_impl; [exact HM|]. intros row Hrow. simpl.
  eapply Forall_map, Forall_impl; [exact Hrow|]. intros a Ha. simpl.
  apply Rmult_le_pos; [exact Ha | apply Rlt_le, Rinv_0_lt_compat, Hn].
Qed.

(** X2: Whatever the branch, every entry of the Vdot that forward returns is
    nonnegative: it is an average of rectified terms. *)
Theorem forward_Vdot_nonneg
    (cvx_solve : Problem -> QPParams -> res QPVars)
    (net : CLF_K_QP_Net) (x : list vec)
    (u : list mat) (r V : vec) (Vdot : list (list vec)) :
  forward cvx_solve net x = Ok (u, r, V, Vdot) ->
  Forall (Forall (Forall (fun a => 0 <= a))) Vdot.
Proof.
  intros H. apply forward_Vdot_average in H.
  destruct H as (Hn & Vdot1 & Hpos & ->).
  apply (nonneg3_div _ _ Hn Hpos).
Qed.

Lemma forward_Vdot_nonneg_witness :
  exists u r V Vdot,
    forward Example.example_solve Example.net [[0]] = Ok (u, r, V, Vdot)
    /\ Forall (Forall (Forall (fun a => 0 <= a))) Vdot.
Proof.
  do 4 eexists. split; [reflexivity|].
  exact (forward_Vdot_nonneg Example.example_solve Example.net [[0]] _ _ _ _ eq_refl).
Defined.

(** ** A network without scenarios *)

Lemma mapM_res_nil_inv {A B : Type} (f : A -> res B) (r : list B) :
  mapM_res f [] = Ok r -> r = [].
Proof. simpl. intros H. injection H as <-. reflexivity. Qed.

(** X3: On a network whose scenario list is empty forward never returns: the
    first scenario is read unconditionally. *)
Theorem forward_without_scenarios
    (cvx_solve : Problem -> QPParams -> res QPVars)
    (net : CLF_K_QP_Net) (x : list vec) :
  scenarios net = [] ->
  exists e, forward cvx_solve net x = Raise e.
Proof.
  intros Hs. destruct (forward cvx_solve net x) as [out|e] eqn:H; [|eauto].
  exfalso. unfold forward in H.
  apply bind_Ok in H. destruct H as ([V0 grad_V] & _ & H).
  apply bind_Ok in H. destruct H as (u_learned & _ & H).
  apply bind_Ok in H. destruct H as (Ls & HLs & H).
  apply bind_Ok in H. destruct H as ([[u' heap] rs] & _ & H).
  apply bind_Ok in H. destruct H as (L_f_V0 & H0 & _).
  unfold lie_derivatives in HLs. rewrite Hs in HLs.
  apply mapM_res_nil_inv in HLs. subst Ls. discriminate H0.
Qed.

Lemma forward_without_scenarios_witness :
  scenarios Example2.no_scenarios = []
  /\ forward Example.no_solve Example2.no_scenarios [[0]] = Raise IndexError.
Proof.
  split; [reflexivity|].
  destruct (forward_without_scenarios Example.no_solve Example2.no_scenarios
              [[0]] eq_refl) as [e He].
  reflexivity.
Defined.

(** ** The quadratic program built by the constructor *)

Lemma Rsum_app (u v : vec) : Rsum (u ++ v) = Rsum u + Rsum v.
Proof.
  unfold Rsum. induction u as [|a u IH]; simpl; [lra|]. rewrite IH. lra.
Qed.

(** The objective in closed form. *)
Lemma qp_objective_eq (n : nat) (p : QPParams) (v : QPVars) :
  qp_objective n p v
  = sum_squares (zip_with Rminus (v_u v) (p_u_nominal p))
    + p_relaxation_penalty p
      * Rsum (map (fun i => nth i (v_clf_relaxations v) 0) (seq 0 n)).
Proof.
  unfold qp_objective. induction n as [|n IH].
  - simpl. unfold Rsum. simpl. lra.
  - rewrite seq_S, fold_left_app, map_app, Rsum_app. simpl.
    rewrite IH. unfold Rsum. simpl. lra.
Qed.

Lemma sum_squares_nonneg (v : vec) : 0 <= sum_squares v.
Proof.
  induction v as [|a v IH]; [unfold sum_squares, Rsum; simpl; lra|].
  change (sum_squares (a :: v)) with (a ^ 2 + sum_squares v).
  pose proof (pow2_ge_0 a). lra.
Qed.

Lemma sum_squares_zero (u w : vec) :
  length u = length w -> sum_squares (zip_with Rminus u w) = 0 -> u = w.
Proof.
  revert w. induction u as [|a u IH]; intros [|b w] Hl H; try discriminate.
  - reflexivity.
  - simpl in Hl. injection Hl as Hl.
    change (sum_squares (zip_with Rminus (a :: u) (b :: w)))
      with ((a - b) ^ 2 + sum_squares (zip_with Rminus u w)) in H.
    pose proof (sum_squares_nonneg (zip_with Rminus u w)) as Hs.
    pose proof (pow2_ge_0 (a - b)) as Ha.
    assert (Hab : (a - b) ^ 2 = 0) by lra.
    assert (a = b) by nra.
    f_equal; [assumption|]. apply IH; [exact Hl | lra].
Qed.

Lemma sum_squares_self (u : vec) : sum_squares (zip_with Rminus u u) = 0.
Proof.
  induction u as [|a u IH]; [reflexivity|].
  change (sum_squares (zip_with Rminus (a :: u) (a :: u)))
    with ((a - a) ^ 2 + sum_squares (zip_with Rminus u u)).
  rewrite IH. ring.
Qed.

(** The constraints of the scenarios, read one scenario at a time. *)
Lemma clf_constraints_iff (n : nat) (lam : R) (p : QPParams) (v : QPVars) :
  Forall (fun c => c p v) (flat_map (clf_constraints_at lam) (seq 0 n))
  <-> forall i, (i < n)%nat ->
        nth i (p_L_f_Vs p) 0 + dot (nth i (p_L_g_Vs p) []) (v_u v)
        + lam * p_V p - nth i (v_clf_relaxations v) 0 <= 0
        /\ nth i (v_clf_relaxations v) 0 >= 0.
Proof.
  split.
  - intros H i Hi. rewrite List.Forall_forall in H.
    split.
    + apply (H (fun p v => nth i (p_L_f_Vs p) 0
                           + dot (nth i (p_L_g_Vs p) []) (v_u v)
                           + lam * p_V p - nth i (v_clf_relaxations v) 0 <= 0)).
      apply in_flat_map. exists i. split; [apply in_seq; lia | simpl; auto].
    + apply (H (fun p v => nth i (v_clf_relaxations v) 0 >= 0)).
      apply in_flat_map. exists i. split; [apply in_seq; lia | simpl; auto].
  - intros H. apply List.Forall_forall. intros c Hc.
    apply in_flat_map in Hc. destruct Hc as (i & Hi & Hc).
    apply in_seq in Hi. destruct (H i ltac:(lia)) as [H1 H2].
    destruct Hc as [<- | [<- | []]]; assumption.
Qed.

Lemma Rsum_relaxations_nonneg (n : nat) (r : list R) :
  (forall i, (i < n)%nat -> nth i r 0 >= 0) ->
  0 <= Rsum (map (fun i => nth i r 0) (seq 0 n)).
Proof.
  intros H. apply Rsum_nonneg. apply Forall_map, List.Forall_forall.
  intros i Hi. apply in_seq in Hi. simpl. apply Rge_le, H. lia.
Qed.

Lemma nth_replicate_0 (n i : nat) : nth i (replicate n 0) 0 = 0.
Proof.
  revert i. induction n as [|n IH]; intros [|i]; simpl; auto.
Qed.

Lemma Rsum_map_zero (f : nat -> R) (l : list nat) :
  (forall i, f i = 0) -> Rsum (map f l) = 0.
Proof.
  intros H. unfold Rsum. induction l as [|a l IH]; simpl; [reflexivity|].
  rewrite H, IH. lra.
Qed.

(** What the constructor hands to the layer. *)
Lemma init_qp_layer
    (is_dpp : Problem -> bool) (nn_Linear : nat -> nat -> nat -> Linear)
    (n_input n_hidden n_controls : nat) (lam penalty : R)
    (dyn : list vec -> Scenario -> list vec * list mat)
    (u_nom : list vec -> Scenario -> list vec)
    (scenarios : list Scenario) (nominal_scenario : Scenario)
    (x_goal u_eq : mat) (G_u : mat) (h_u : vec) (net : CLF_K_QP_Net) :
  __init__ is_dpp nn_Linear n_input n_hidden n_controls lam penalty dyn u_nom
    scenarios nominal_scenario x_goal u_eq G_u h_u = Ok net ->
  length G_u = length h_u
  /\ layer_n_scenarios (qp_layer net) = length scenarios
  /\ layer_n_controls (qp_layer net) = n_controls
  /\ objective (layer_problem (qp_layer net)) = qp_objective (length scenarios)
  /\ (forall p v,
        Forall (fun c => c p v) (constraints (layer_problem (qp_layer net)))
        <-> Forall (fun c => c p v)
              (flat_map (clf_constraints_at lam) (seq 0 (length scenarios)))
            /\ (G_u <> [] -> control_bound G_u h_u p v)).
Proof.
  unfold __init__. intros H.
  destruct (negb (0 <? length scenarios)%nat); [discriminate H|].
  destruct (length G_u =? length h_u)%nat eqn:Hlen; [|discriminate H].
  apply Nat.eqb_eq in Hlen. simpl in H.
  apply bind_Ok in H. destruct H as (problem & Hp & H).
  destruct (negb (is_dpp problem)); [discriminate H|].
  injection H as <-. simpl. split; [exact Hlen|].
  split; [reflexivity|]. split; [reflexivity|].
  unfold build_problem in Hp.
  apply bind_Ok in Hp. destruct Hp as (cs & Hcs & Hp).
  injection Hp as <-. simpl. split; [reflexivity|].
  intros p v. destruct G_u as [|row G_u].
  - simpl in Hcs. injection Hcs as <-. split.
    + intros Hc. split; [exact Hc | congruence].
    + intros [Hc _]. exact Hc.
  - change (0 <? length (row :: G_u))%nat with true in Hcs.
    cbv iota in Hcs.
    destruct (forallb _ (row :: G_u)); [|discriminate Hcs].
    injection Hcs as <-. rewrite Forall_app. split.
    + intros [Hc Hb]. split; [exact Hc|]. intros _. inversion Hb. assumption.
    + intros [Hc Hb]. split; [exact Hc|]. constructor; [|constructor].
      apply Hb. discriminate.
Qed.

(** X6: If the nominal control passed to the layer already meets the CLF
    condition of every scenario and the control bounds, the QP of the
    constructor leaves it alone: the nominal control with zero relaxations is
    optimal, and every optimum has the nominal control. *)
Theorem qp_keeps_admissible_nominal
    (is_dpp : Problem -> bool) (nn_Linear : nat -> nat -> nat -> Linear)
    (n_input n_hidden n_controls : nat) (lam penalty : R)
    (dyn : list vec -> Scenario -> list vec * list mat)
    (u_nom : list vec -> Scenario -> list vec)
    (scenarios : list Scenario) (nominal_scenario : Scenario)
    (x_goal u_eq : mat) (G_u : mat) (h_u : vec) (net : CLF_K_QP_Net)
    (p : QPParams) :
  __init__ is_dpp nn_Linear n_input n_hidden n_controls lam penalty dyn u_nom
    scenarios nominal_scenario x_goal u_eq G_u h_u = Ok net ->
  length (p_u_nominal p) = n_controls ->
  0 <= p_relaxation_penalty p ->
  (forall i, (i < length scenarios)%nat -> clf_holds_at_nominal lam p i) ->
  Forall2 Rle (matvec G_u (p_u_nominal p)) h_u ->
  qp_optimal (qp_layer net) p (nominal_point (length scenarios) p)
  /\ forall v, qp_optimal (qp_layer net) p v -> v_u v = p_u_nominal p.
Proof.
  intros Hinit Hlen Hpen Hclf Hbound.
  destruct (init_qp_layer _ _ _ _ _ _ _ _ _ _ _ _ _ _ _ _ Hinit)
    as (_ & Hns & Hnc & Hobj & Hcs).
  assert (Hfeas : feasible (qp_layer net) p (nominal_point (length scenarios) p)).
  { unfold feasible. rewrite Hns, Hnc. simpl.
    rewrite length_replicate. repeat split; [exact Hlen|].
    apply Hcs. split; [|intros _; exact Hbound].
    apply clf_constraints_iff. intros i Hi. simpl.
    rewrite nth_replicate_0. specialize (Hclf i Hi).
    unfold clf_holds_at_nominal in Hclf. split; lra. }
  assert (Hzero : objective (layer_problem (qp_layer net)) p
                    (nominal_point (length scenarios) p) = 0).
  { rewrite Hobj, qp_objective_eq. simpl. rewrite sum_squares_self.
    rewrite Rsum_map_zero by (intros i; apply nth_replicate_0). lra. }
  assert (Hge : forall v, feasible (qp_layer net) p v ->
                  0 <= p_relaxation_penalty p
                       * Rsum (map (fun i => nth i (v_clf_relaxations v) 0)
                                 (seq 0 (length scenarios)))).
  { intros v (_ & _ & Hv). apply Hcs in Hv. destruct Hv as [Hv _].
    rewrite clf_constraints_iff in Hv.
    apply Rmult_le_pos; [exact Hpen|].
    apply Rsum_relaxations_nonneg. intros i Hi. apply (Hv i Hi). }
  split.
  - split; [exact Hfeas|]. intros v' Hv'. rewrite Hzero, Hobj, qp_objective_eq.
    pose proof (sum_squares_nonneg (zip_with Rminus (v_u v') (p_u_nominal p))).
    pose proof (Hge v' Hv'). lra.
  - intros v [Hv Hmin]. specialize (Hmin _ Hfeas).
    rewrite Hzero, Hobj, qp_objective_eq in Hmin.
    pose proof (sum_squares_nonneg (zip_with Rminus (v_u v) (p_u_nominal p))).
    pose proof (Hge v Hv).
    apply sum_squares_zero; [|lra].
    destruct Hv as (Hu & _). rewrite Hu, Hnc, Hlen. reflexivity.
Qed.

Lemma qp_keeps_admissible_nominal_witness :
  qp_optimal (qp_layer Example.constructed) Probe.negative_drift
    (nominal_point 1 Probe.negative_drift)
  /\ forall v, qp_optimal (qp_layer Example.constructed) Probe.negative_drift v ->
       v_u v = [0; 0].
Proof.
  apply (qp_keeps_admissible_nominal Example.dpp_always Example.zero_init 1 1 2
           0.1 10 Example.example_dynamics Example.example_nominal
           [Example.example_scenario] Example.example_scenario [[0]] [[5; 0]]
           [] [] Example.constructed Probe.negative_drift).
  - reflexivity.
  - reflexivity.
  - simpl. lra.
  - intros i Hi. simpl in Hi. assert (i = 0%nat) by lia. subst i.
    unfold clf_holds_at_nominal, dot, Rsum. simpl. lra.
  - constructor.
Defined.

(** X7: With control bounds the relaxed QP still has a feasible point when no
    entry of h_u is negative: the zero control with the relaxations
    max(0, L_f V_s + lambda * V). *)
Theorem bounded_qp_feasible
    (is_dpp : Problem -> bool) (nn_Linear : nat -> nat -> nat -> Linear)
    (n_input n_hidden n_controls : nat) (lam penalty : R)
    (dyn : list vec -> Scenario -> list vec * list mat)
    (u_nom : list vec -> Scenario -> list vec)
    (scenarios : list Scenario) (nominal_scenario : Scenario)
    (x_goal u_eq : mat) (G_u : mat) (h_u : vec) (net : CLF_K_QP_Net)
    (p : QPParams) :
  __init__ is_dpp nn_Linear n_input n_hidden n_controls lam penalty dyn u_nom
    scenarios nominal_scenario x_goal u_eq G_u h_u = Ok net ->
  Forall (fun a => 0 <= a) h_u ->
  feasible (qp_layer net) p (relaxed_point (length scenarios) n_controls lam p).
Proof.
  intros Hinit Hh.
  destruct (init_qp_layer _ _ _ _ _ _ _ _ _ _ _ _ _ _ _ _ Hinit)
    as (HGh & Hns & Hnc & _ & Hcs).
  unfold feasible. rewrite Hns, Hnc. simpl.
  rewrite length_replicate, length_map, length_seq. repeat split.
  apply Hcs. split; [apply clf_constraints_relaxed_point|].
  intros _. unfold control_bound. simpl.
  clear Hcs Hinit. revert h_u HGh Hh.
  induction G_u as [|row G_u IH]; intros [|a h_u] HGh Hh; try discriminate.
  - constructor.
  - simpl. inversion Hh; subst. constructor.
    + rewrite dot_replicate_0. assumption.
    + apply IH; [simpl in HGh; lia | assumption].
Qed.

Lemma bounded_qp_feasible_witness :
  exists net,
    __init__ Example.dpp_always Example.zero_init 1 1 2 0.1 10
      Example.example_dynamics Example.example_nominal
      [Example.example_scenario] Example.example_scenario [[0]] [[5; 0]]
      pvtol.G pvtol.h = Ok net
    /\ feasible (qp_layer net) Probe.negative_drift
         (relaxed_point 1 2 0.1 Probe.negative_drift).
Proof.
  eexists. split; [reflexivity|].
  apply (bounded_qp_feasible Example.dpp_always Example.zero_init 1 1 2 0.1 10
           Example.example_dynamics Example.example_nominal
           [Example.example_scenario] Example.example_scenario [[0]] [[5; 0]]
           pvtol.G pvtol.h).
  - reflexivity.
  - unfold pvtol.h, pvtol.max_u. repeat (constructor; [lra|]). constructor.
Defined.

(** ** The Lyapunov loss *)

(** Without the QP the relaxation that forward returns is the tensor [0]. *)
Lemma forward_qp_off_relaxation
    (cvx_solve : Problem -> QPParams -> res QPVars)
    (net : CLF_K_QP_Net) (x : list vec)
    (u : list mat) (r V : vec) (Vdot : list (list vec)) :
  use_QP net = false ->
  forward cvx_solve net x = Ok (u, r, V, Vdot) ->
  r = [0].
Proof.
  intros Hqp H. unfold forward in H. rewrite Hqp in H.
  apply bind_Ok in H. destruct H as ([V0 grad_V] & _ & H).
  apply bind_Ok in H. destruct H as (u_learned & _ & H).
  apply bind_Ok in H. destruct H as (Ls & _ & H).
  simpl in H.
  apply bind_Ok in H. destruct H as (L_f_V0 & _ & H).
  apply bind_Ok in H. destruct H as (L_g_V0 & _ & H).
  apply bind_Ok in H. destruct H as (t0 & _ & H).
  apply bind_Ok in H. destruct H as (relaxation & Hrel & H).
  apply index_replicate in Hrel. subst relaxation.
  apply bind_Ok in H. destruct H as ([Vdot1 heap1] & Hacc & H).
  apply accumulate_shared_zero in Hacc. subst heap1.
  unfold heap_idiv in H. simpl in H. injection H as <- <- <- <-.
  unfold Rdiv. rewrite Rmult_0_l. reflexivity.
Qed.

Lemma Forall_relu (v : vec) : Forall (fun a => 0 <= a) (map relu v).
Proof. apply Forall_map, Forall_true. intros a. apply relu_nonneg. Qed.

(** The simulated descent term is a sum of rectified differences. *)
Lemma descent_sim_nonneg (net : CLF_K_QP_Net) (x : list vec) (u : list mat)
    (V : vec) (lam timestep : R) (ss : list Scenario) :
  forall (acc : option vec) (t : vec),
    match acc with Some a => Forall (fun p => 0 <= p) a | None => True end ->
    descent_sim net x u V lam timestep ss acc = Ok (Some t) ->
    Forall (fun p => 0 <= p) t.
Proof.
  induction ss as [|s ss IH]; intros acc t Hacc H; simpl in H.
  - injection H as ->. exact Hacc.
  - destruct (dynamics net x s) as [f g].
    apply bind_Ok in H. destruct H as (gu & _ & H).
    apply bind_Ok in H. destruct H as (gu' & _ & H).
    apply bind_Ok in H. destruct H as (xdot & _ & H).
    apply bind_Ok in H. destruct H as (x_next & _ & H).
    apply bind_Ok in H. destruct H as ([V_next grad] & _ & H).
    apply bind_Ok in H. destruct H as (d & _ & H).
    apply bind_Ok in H. destruct H as (acc' & Hacc' & H).
    eapply IH; [|exact H].
    destruct acc as [a|].
    + apply bind_Ok in Hacc'. destruct Hacc' as (a' & Ha' & Hacc').
      injection Hacc' as <-.
      eapply iadd1_nonneg; [exact Hacc | apply Forall_relu | exact Ha'].
    + injection Hacc' as <-. apply Forall_relu.
Qed.

Lemma Forall_concat_nonneg (t : list vec) :
  Forall (Forall (fun a => 0 <= a)) t -> Forall (fun a => 0 <= a) (concat t).
Proof.
  induction 1 as [|row t Hrow _ IH]; simpl; [constructor|].
  apply Forall_app. split; assumption.
Qed.

Lemma nonneg3_concat (t : list (list vec)) :
  nonneg3 t -> Forall (fun a => 0 <= a) (concat (concat t)).
Proof.
  intros H. apply Forall_concat_nonneg.
  induction H as [|M t HM _ IH]; simpl; [constructor|].
  apply Forall_app. split; assumption.
Qed.

(** X8: Without the QP the Lyapunov loss is nonnegative: every term is the
    mean of rectified or squared quantities and the relaxation is zero.
    (The batch and the goal are taken nonempty, with a drift for every
    state, because torch's mean of an empty tensor is not a number.) *)
Theorem lyapunov_loss_nonneg
    (cvx_solve : Problem -> QPParams -> res QPVars)
    (x x_goal : list vec) (safe_mask unsafe_mask : list bool)
    (net : CLF_K_QP_Net) (lam safe_level timestep : R) (print_loss : bool)
    (loss : R) (printed : list (string * R)) :
  use_QP net = false ->
  x <> [] -> x_goal <> [] ->
  (forall s, In s (scenarios net) -> length (fst (dynamics net x s)) = length x) ->
  lyapunov_loss cvx_solve x x_goal safe_mask unsafe_mask net lam safe_level
    timestep print_loss = Ok (loss, printed) ->
  0 <= loss.
Proof.
  intros Hqp _ _ _ H. unfold lyapunov_loss in H.
  apply bind_Ok in H. destruct H as ([V0 g0] & _ & H).
  apply bind_Ok in H. destruct H as (x_safe & _ & H).
  apply bind_Ok in H. destruct H as ([V_safe g1] & _ & H).
  apply bind_Ok in H. destruct H as (x_unsafe & _ & H).
  apply bind_Ok in H. destruct H as ([V_unsafe g2] & _ & H).
  apply bind_Ok in H. destruct H as ([[[u r] V] Vdot] & Hfwd & H).
  apply bind_Ok in H. destruct H as (sim & Hsim & H).
  apply bind_Ok in H. destruct H as (t_sim & Ht & H).
  apply bind_Ok in H. destruct H as (d & _ & H).
  apply bind_Ok in H. destruct H as (t & _ & H).
  injection H as <- _.
  destruct sim as [t'|]; [|discriminate Ht]. injection Ht as ->.
  apply descent_sim_nonneg in Hsim; [|exact I].
  pose proof (forward_qp_off_relaxation _ _ _ _ _ _ _ Hqp Hfwd) as ->.
  apply forward_Vdot_average in Hfwd.
  destruct Hfwd as (Hn & Vdot1 & Hpos & ->).
  pose proof (nonneg3_concat _ (nonneg3_div _ _ Hn Hpos)) as HV.
  apply mean_nonneg in HV. apply mean_nonneg in Hsim.
  assert (Hgoal : 0 <= mean (map (fun v => relu v * (relu v * 1)) V0)).
  { apply mean_nonneg, Forall_map, Forall_true. intros v. simpl. nra. }
  assert (Hsafe : 0 <= mean (map (fun v => 100 * relu (v - safe_level)) V_safe)).
  { apply mean_nonneg, Forall_map, Forall_true. intros v.
    pose proof (relu_nonneg (v - safe_level)). simpl. lra. }
  assert (Hunsafe : 0 <= mean (map (fun v => 100 * relu (safe_level - v)) V_unsafe)).
  { apply mean_nonneg, Forall_map, Forall_true. intros v.
    pose proof (relu_nonneg (safe_level - v)). simpl. lra. }
  assert (Hr : mean [0] = 0).
  { unfold mean, Rsum. simpl. lra. }
  rewrite Hr.
  repeat match goal with
         | |- context [if ?c then _ else _] => destruct c
         end; lra.
Qed.

Lemma lyapunov_loss_nonneg_witness :
  exists loss printed,
    lyapunov_loss Example.no_solve [[0]] [[0]] [true] [false]
      (set_use_QP false Example.net) 0.1 10 0.001 true = Ok (loss, printed)
    /\ 0 <= loss.
Proof.
  do 2 eexists. split; [reflexivity|].
  refine (lyapunov_loss_nonneg Example.no_solve [[0]] [[0]] [true] [false]
            (set_use_QP false Example.net) 0.1 10 0.001 true _ _ _ _ _ _ eq_refl).
  - reflexivity.
  - discriminate.
  - discriminate.
  - intros s _. reflexivity.
Defined.

(** ** The learned controller at the goal *)

Lemma zipM_minus_self (y w : vec) :
  zipM (fun a b => Ok (a - b)) y y = Ok w ->
  Forall (fun a => a = 0) w /\ length w = length y.
Proof.
  revert w. induction y as [|a y IH]; intros w H; simpl in H.
  - injection H as <-. split; [constructor | reflexivity].
  - apply bind_Ok in H. destruct H as (w' & Hw' & H).
    injection H as <-.
    destruct (IH w' Hw') as [Hz Hl]. split.
    + constructor; [ring | exact Hz].
    + simpl. rewrite Hl. reflexivity.
Qed.

Lemma bcast_vec_minus_self (y w : vec) :
  bcast_vec Rminus y y = Ok w ->
  Forall (fun a => a = 0) w /\ length w = length y.
Proof.
  unfold bcast_vec, bcast. rewrite Nat.eqb_refl. apply zipM_minus_self.
Qed.

Lemma fold_zero_columns (k w : vec) :
  Forall (fun a => a = 0) w ->
  fold_right vadd [0] (zip_with vscale k (unsqueeze_last w)) = [0].
Proof.
  intros Hw. revert k. induction Hw as [|a w Ha _ IH]; intros [|c k]; simpl;
    try reflexivity.
  rewrite IH. subst a. unfold vadd. simpl. f_equal. ring.
Qed.

(** A row times a column of zeros is zero. *)
Lemma vecmat_zero_column (k w : vec) :
  Forall (fun a => a = 0) w -> w <> [] -> vecmat k (unsqueeze_last w) = [0].
Proof.
  intros Hw Hne. unfold vecmat.
  assert (Hn : ncols (unsqueeze_last w) = 1%nat).
  { destruct w; [congruence | reflexivity]. }
  rewrite Hn. apply fold_zero_columns, Hw.
Qed.

Lemma Forall_eq_replicate {A : Type} (a : A) (l : list A) :
  Forall (fun b => b = a) l -> l = replicate (length l) a.
Proof.
  induction 1 as [|b l -> _ IH]; [reflexivity|]. simpl. f_equal. exact IH.
Qed.

(** X5: At the goal state the learned controller returns the equilibrium
    control whatever the weights of the gain networks are: the feedback
    -K (x - x_goal) vanishes. *)
Theorem compute_controls_at_goal (net : CLF_K_QP_Net) (y : vec) (x : list vec)
    (u : list mat) :
  x_goal net = [y] -> y <> [] ->
  Forall (fun row => row = y) x ->
  length (u_eq net) = 2%nat -> Forall (fun r => length r = 1%nat) (u_eq net) ->
  compute_controls net x = Ok u ->
  u = replicate (length x) (u_eq net).
Proof.
  intros Hgoal Hy Hx Hlen Hrows H. unfold compute_controls in H.
  apply bind_Ok in H. destruct H as (K1fc1 & _ & H).
  apply bind_Ok in H. destruct H as (K1 & _ & H).
  apply bind_Ok in H. destruct H as (K2fc1 & _ & H).
  apply bind_Ok in H. destruct H as (K2 & _ & H).
  apply bind_Ok in H. destruct H as (K & HK & H).
  apply bind_Ok in H. destruct H as (dx & Hdx & H).
  apply bind_Ok in H. destruct H as (Kdx & HKdx & H).
  rewrite Hgoal in Hdx. apply bcast_single in Hdx.
  apply zipM_Forall3 in HK. apply zipM_Forall3 in HKdx.
  apply bcast_single in H.
  assert (Hzero : Forall (fun w => Forall (fun a => a = 0) w /\ w <> []) dx).
  { clear - Hdx Hx Hy. induction Hdx as [|row w x dx Hw _ IH]; [constructor|].
    inversion Hx as [|? ? Hrow Hx']; subst.
    constructor; [|apply IH, Hx'].
    apply bcast_vec_minus_self in Hw. destruct Hw as [Hz Hl].
    split; [exact Hz|]. intros ->. destruct y; [congruence | discriminate Hl]. }
  assert (HP : Forall (fun P => P = [[0]; [0]]) Kdx).
  { clear - HK HKdx Hzero. revert K1 K2 HK Hzero.
    remember (map unsqueeze_last dx) as Ms eqn:HMs. revert dx HMs.
    induction HKdx as [|Kb M P K Ms Kdx HPb _ IH]; intros dx HMs K1 K2 HK Hzero;
      [constructor|].
    destruct dx as [|w dx]; [discriminate HMs|]. simpl in HMs.
    injection HMs as -> ->.
    inversion HK as [|k1 k2 ? K1' K2' ? Hb HK']; subst.
    inversion Hzero as [|? ? [Hw Hne] Hzero']; subst.
    constructor; [|eapply IH; [reflexivity | exact HK' | exact Hzero']].
    destruct (length k1 =? length k2)%nat; [|discriminate Hb].
    injection Hb as <-. unfold matmul_chk in HPb.
    destruct (matmul_ok _ _); [|discriminate HPb]. injection HPb as <-.
    unfold matmul. simpl. rewrite !vecmat_zero_column by assumption.
    reflexivity. }
  assert (Hu : Forall (fun ub => ub = u_eq net) u).
  { clear - H HP Hlen Hrows.
    destruct (u_eq net) as [|[|e1 [|? ?]] [|[|e2 [|? ?]] [|? ?]]];
      try discriminate Hlen;
      try (exfalso; inversion Hrows as [|? ? Hr Hrows']; subst;
           first [discriminate Hr
                 | inversion Hrows' as [|? ? Hr' _]; subst; discriminate Hr']).
    remember (map (mscale (-1)) Kdx) as Ns eqn:HNs. revert Kdx HNs HP.
    induction H as [|N ub Ns u Hub _ IH]; intros Kdx HNs HP; [constructor|].
    destruct Kdx as [|P Kdx]; [discriminate HNs|]. simpl in HNs.
    injection HNs as -> ->. inversion HP as [|? ? -> HP']; subst.
    constructor; [|eapply IH; [reflexivity | exact HP']].
    unfold bcast_mat, bcast, bcast_vec, bcast in Hub. simpl in Hub.
    injection Hub as <-.
    repeat (apply (f_equal2 cons);
            [apply (f_equal2 cons); [ring | reflexivity]|]).
    reflexivity. }
  assert (Hl : length u = length x).
  { apply Forall2_length in H. apply Forall2_length in Hdx.
    pose proof (Forall3_length_lr _ _ _ _ HKdx) as HKr.
    pose proof (Forall3_length_lm _ _ _ _ HKdx) as HKM.
    rewrite length_map in H. rewrite length_map in HKM. lia. }
  rewrite <- Hl. apply Forall_eq_replicate, Hu.
Qed.

Lemma compute_controls_at_goal_witness :
  compute_controls Example.net [[0]; [0]; [0]] = Ok (replicate 3 [[5]; [0]]).
Proof.
  destruct (compute_controls Example.net [[0]; [0]; [0]]) as [u|e] eqn:Hu;
    [|discriminate Hu].
  f_equal.
  apply (compute_controls_at_goal Example.net [0] [[0]; [0]; [0]] u).
  - reflexivity.
  - discriminate.
  - repeat constructor.
  - reflexivity.
  - repeat constructor.
  - exact Hu.
Defined.

(** ** The relaxation with the QP *)

Lemma iadd1_maps {A : Type} (f g : A -> R) (l : list A) :
  iadd1 (map f l) (map g l) = Ok (map (fun a => f a + g a) l).
Proof.
  unfold iadd1. induction l as [|a l IH]; [reflexivity|].
  simpl. rewrite IH. reflexivity.
Qed.

Lemma relaxation_sum_S (k : nat) (s : QPVars) :
  relaxation_sum (S k) s = relaxation_sum k s + nth k (v_clf_relaxations s) 0.
Proof.
  unfold relaxation_sum. rewrite seq_S, map_app, Rsum_app. f_equal.
  unfold Rsum. simpl. ring.
Qed.

Section Relaxations.

Variable sols : list QPVars.
Variable n : nat.

Lemma layer_relaxations_lookup (i : nat) :
  (i < n)%nat ->
  (layer_relaxations n sols) !! i = Some (map (fun s => nth i (v_clf_relaxations s) 0) sols).
Proof.
  intros Hi. unfold layer_relaxations. rewrite list_lookup_fmap.
  rewrite lookup_seq_lt by exact Hi. reflexivity.
Qed.

Lemma layer_relaxations_first :
  (0 < n)%nat -> (layer_relaxations n sols) = <[0%nat := relaxation_sums 1 sols]> (layer_relaxations n sols).
Proof.
  intros Hn. symmetry. apply list_insert_id.
  rewrite layer_relaxations_lookup by exact Hn. f_equal.
  unfold relaxation_sums. apply map_ext. intros s.
  rewrite relaxation_sum_S. unfold relaxation_sum, Rsum. simpl. ring.
Qed.

Lemma accumulate_relaxations (lam : R) (L_f_Vs L_g_Vs : list (list vec))
    (u : list mat) (V : vec) (m : nat) :
  forall (k : nat) (Vdot Vdot' : list (list vec)) (heap' : list vec),
    (0 < k)%nat -> (k + m = n)%nat ->
    accumulate lam L_f_Vs L_g_Vs u V (seq 0 n) 0 (seq k m) Vdot
      (<[0%nat := relaxation_sums k sols]> (layer_relaxations n sols)) = Ok (Vdot', heap') ->
    heap' = <[0%nat := relaxation_sums n sols]> (layer_relaxations n sols).
Proof.
  induction m as [|m IH]; intros k Vdot Vdot' heap' Hk Hn H; simpl in H.
  - injection H as _ <-. replace k with n by lia. reflexivity.
  - apply bind_Ok in H. destruct H as (L_f_V & _ & H).
    apply bind_Ok in H. destruct H as (L_g_V & _ & H).
    apply bind_Ok in H. destruct H as (t & _ & H).
    apply bind_Ok in H. destruct H as (Vdot1 & _ & H).
    apply bind_Ok in H. destruct H as (r_i & Hri & H).
    apply bind_Ok in H. destruct H as (heap1 & Hheap & H).
    unfold index in Hri. rewrite lookup_seq_lt in Hri by lia.
    injection Hri as <-. simpl in Hheap.
    assert (Hlen : (0 < length (layer_relaxations n sols))%nat).
    { unfold layer_relaxations. rewrite length_map, length_seq. lia. }
    unfold heap_iadd, index in Hheap.
    rewrite (list_lookup_insert_eq (layer_relaxations n sols) 0) in Hheap
      by exact Hlen.
    simpl in Hheap.
    rewrite (list_lookup_insert_ne (layer_relaxations n sols) 0 k) in Hheap by lia.
    rewrite layer_relaxations_lookup in Hheap by lia. simpl in Hheap.
    unfold relaxation_sums in Hheap. rewrite iadd1_maps in Hheap.
    simpl in Hheap. injection Hheap as <-.
    rewrite list_insert_insert_eq in H.
    apply (IH (S k) Vdot1 Vdot' heap'); [lia | lia|].
    replace (relaxation_sums (S k) sols)
      with (map (fun a => relaxation_sum k a + nth k (v_clf_relaxations a) 0) sols);
      [exact H|].
    unfold relaxation_sums. apply map_ext. intros s.
    symmetry. apply relaxation_sum_S.
Qed.

End Relaxations.

(** X4: With the QP switched on, forward returns the control of the solver and,
    for every state of the batch, the mean over the scenarios of the
    relaxations in the solver's answer; every answer comes from the solver,
    called on the problem of the layer. *)
Theorem forward_relaxation_average
    (cvx_solve : Problem -> QPParams -> res QPVars)
    (net : CLF_K_QP_Net) (x : list vec)
    (u : list mat) (r V : vec) (Vdot : list (list vec)) :
  use_QP net = true ->
  forward cvx_solve net x = Ok (u, r, V, Vdot) ->
  exists sols,
    length sols = length V
    /\ Forall (fun s => exists p,
                 cvx_solve (layer_problem (qp_layer net)) p = Ok s) sols
    /\ u = map unsqueeze_last (map v_u sols)
    /\ r = map (fun s => relaxation_sum (length (scenarios net)) s
                         / INR (length (scenarios net))) sols.
Proof.
  intros Hqp H. unfold forward in H. rewrite Hqp in H.
  apply bind_Ok in H. destruct H as ([V0 grad_V] & _ & H).
  apply bind_Ok in H. destruct H as (u_learned & _ & H).
  apply bind_Ok in H. destruct H as (Ls & HLs & H).
  apply bind_Ok in H. destruct H as ([[u' heap] rs] & Hqpb & H).
  apply bind_Ok in Hqpb. destruct Hqpb as (u_sq & _ & Hqpb).
  apply bind_Ok in Hqpb. destruct Hqpb as ([u0 result_rs] & Hcall & Hqpb).
  injection Hqpb as <- <- <-.
  unfold qp_layer_call in Hcall.
  match type of Hcall with (if ?c then _ else _) = _ =>
    destruct c eqn:Hc; [|discriminate Hcall] end.
  apply bind_Ok in Hcall. destruct Hcall as (sols & Hsols & Hcall).
  injection Hcall as <- <-.
  repeat (apply andb_true_iff in Hc; destruct Hc as [Hc ?]).
  apply Nat.eqb_eq in Hc. rewrite length_map in Hc.
  apply mapM_res_Forall2 in HLs. apply Forall2_length in HLs.
  apply bind_Ok in H. destruct H as (L_f_V0 & HLf0 & H).
  assert (Hn : (0 < length (scenarios net))%nat).
  { apply index_0_nonempty in HLf0. rewrite HLs.
    destruct Ls; [exfalso; apply HLf0; reflexivity | simpl; lia]. }
  apply bind_Ok in H. destruct H as (L_g_V0 & _ & H).
  apply bind_Ok in H. destruct H as (t0 & _ & H).
  apply bind_Ok in H. destruct H as (relaxation & Hrel & H).
  apply bind_Ok in H. destruct H as ([Vdot1 heap1] & Hacc & H).
  apply bind_Ok in H. destruct H as (heap2 & Hdiv & H).
  apply bind_Ok in H. destruct H as (r' & Hr & H).
  injection H as <- <- <- <-.
  assert (Hnl : layer_n_scenarios (qp_layer net) = length (scenarios net))
    by congruence.
  rewrite Hnl in *. clear Hnl Hc.
  change (map (fun i => map (fun s => nth i (v_clf_relaxations s) 0) sols)
            (seq 0 (length (scenarios net))))
    with (layer_relaxations (length (scenarios net)) sols) in *.
  assert (Hlen : length (layer_relaxations (length (scenarios net)) sols)
                 = length (scenarios net)).
  { unfold layer_relaxations. rewrite length_map, length_seq. reflexivity. }
  rewrite Hlen in *.
  unfold index in Hrel. rewrite lookup_seq_lt in Hrel by exact Hn.
  injection Hrel as <-. simpl in Hacc, Hdiv, Hr.
  rewrite (layer_relaxations_first sols _ Hn) in Hacc.
  apply (accumulate_relaxations sols (length (scenarios net)) _ _ _ _ _
           (length (scenarios net) - 1) 1) in Hacc; [|lia|lia].
  subst heap1. unfold heap_idiv, index in Hdiv.
  rewrite list_lookup_insert_eq in Hdiv by (rewrite Hlen; exact Hn).
  simpl in Hdiv. injection Hdiv as <-.
  unfold index in Hr.
  rewrite list_lookup_insert_eq in Hr
    by (rewrite length_insert, Hlen; exact Hn).
  injection Hr as <-.
  exists sols. split; [|split; [|split]].
  - apply mapM_res_Forall2 in Hsols. apply Forall2_length in Hsols.
    rewrite length_seq, length_map in Hsols. symmetry. exact Hsols.
  - apply mapM_res_Forall2 in Hsols. clear - Hsols.
    induction Hsols as [|b s bs sols Hs _ IH]; constructor; eauto.
  - reflexivity.
  - unfold relaxation_sums. rewrite map_map. reflexivity.
Qed.

Lemma forward_relaxation_average_witness :
  exists sols u r V Vdot,
    forward Example.example_solve Example.net [[0]] = Ok (u, r, V, Vdot)
    /\ length sols = length V
    /\ r = map (fun s => relaxation_sum 1 s / INR 1) sols.
Proof.
  destruct (forward Example.example_solve Example.net [[0]])
    as [[[[u r] V] Vdot]|e] eqn:Hf; [|discriminate Hf].
  destruct (forward_relaxation_average Example.example_solve Example.net [[0]]
              u r V Vdot eq_refl Hf) as (sols & Hlen & _ & _ & Hr).
  exists sols, u, r, V, Vdot. split; [reflexivity|]. split; assumption.
Defined.

(** ** The losses and the QP solver *)

(** X13: With use_QP false neither forward nor the two losses consult the QP
    solver: each of them returns the same, value or exception, for any two
    solvers. *)
Theorem losses_ignore_solver_without_qp
    (s1 s2 : Problem -> QPParams -> res QPVars)
    (x x_goal : list vec) (safe_mask unsafe_mask : list bool)
    (net : CLF_K_QP_Net) (lam safe_level timestep loss_coeff : R)
    (print_loss use_nominal : bool) (use_eq : option (list vec)) :
  use_QP net = false ->
  forward s1 net x = forward s2 net x
  /\ lyapunov_loss s1 x x_goal safe_mask unsafe_mask net lam safe_level
       timestep print_loss
     = lyapunov_loss s2 x x_goal safe_mask unsafe_mask net lam safe_level
         timestep print_loss
  /\ controller_loss s1 x net print_loss use_nominal use_eq loss_coeff
     = controller_loss s2 x net print_loss use_nominal use_eq loss_coeff.
Proof.
  intros Hqp.
  assert (Hf : forward s1 net x = forward s2 net x).
  { unfold forward. rewrite Hqp. reflexivity. }
  split; [exact Hf|]. split.
  - unfold lyapunov_loss. rewrite Hf. reflexivity.
  - unfold controller_loss. rewrite Hf. reflexivity.
Qed.

Lemma losses_ignore_solver_without_qp_witness :
  use_QP (set_use_QP false Example.net) = false
  /\ forward Example.no_solve (set_use_QP false Example.net) [[0]]
     = forward Example.example_solve (set_use_QP false Example.net) [[0]]
  /\ lyapunov_loss Example.no_solve [[0]] [[0]] [true] [false]
       (set_use_QP false Example.net) 0.1 10 0.001 true
     = lyapunov_loss Example.example_solve [[0]] [[0]] [true] [false]
         (set_use_QP false Example.net) 0.1 10 0.001 true
  /\ controller_loss Example.no_solve [[0]] (set_use_QP false Example.net)
       true true None 0.1
     = controller_loss Example.example_solve [[0]]
         (set_use_QP false Example.net) true true None 0.1.
Proof.
  split; [reflexivity|].
  apply (losses_ignore_solver_without_qp Example.no_solve Example.example_solve
           [[0]] [[0]] [true] [false] (set_use_QP false Example.net)
           0.1 10 0.001 0.1 true true None).
  reflexivity.
Defined.

(** * Further properties of the training script *)

(** ** The schedules *)

Lemma pow_01_le (n m : nat) : (n <= m)%nat -> 0.1 ^ m <= 0.1 ^ n.
Proof.
  induction 1 as [|m _ IH]; [lra|]. simpl.
  assert (0 < 0.1 ^ m) by (apply pow_lt; lra). lra.
Qed.

(** X10: The weight of the controller term is 0.1 * 0.1 ^ epoch in the epochs 0
    to 4 and stays at the floor 0.00001 from epoch 5 on. *)
Theorem controller_penalty_schedule (epoch : nat) :
  quad9d_robust_clf_qp.adjust_controller_penalty epoch
  = if (epoch <=? 4)%nat then 0.1 * 0.1 ^ epoch else 0.00001.
Proof.
  unfold quad9d_robust_clf_qp.adjust_controller_penalty,
    quad9d_robust_clf_qp.init_controller_loss_coeff.
  rewrite Nat.div_1_r.
  destruct (epoch <=? 4)%nat eqn:He.
  - apply Nat.leb_le in He. apply Rmax_left.
    pose proof (pow_01_le epoch 4 He) as H. simpl in H. lra.
  - apply Nat.leb_gt in He. apply Rmax_right.
    pose proof (pow_01_le 5 epoch ltac:(lia)) as H. simpl in H. lra.
Qed.

(** ** The masks *)

Section Masks.

Import quad9d_robust_clf_qp.

Lemma Rleb_elim (a b : R) : Rleb a b = true -> a <= b.
Proof. unfold Rleb. destruct (Rle_dec a b); [auto | discriminate]. Qed.

(** X11: No state is labelled safe and unsafe at once. *)
Theorem masks_disjoint (PZ : nat) (x : list vec) (safe unsafe : list bool) :
  safe_mask_of PZ x = Ok safe ->
  unsafe_mask_of PZ x = Ok unsafe ->
  Forall2 (fun a b => a && b = false) safe unsafe.
Proof.
  unfold safe_mask_of, unsafe_mask_of. revert safe unsafe.
  induction x as [|row x IH]; intros safe unsafe Hs Hu; simpl in Hs, Hu.
  - inv_res. constructor.
  - apply bind_Ok in Hs. destruct Hs as (a & Ha & Hs).
    apply bind_Ok in Hs. destruct Hs as (safe' & Hs' & Hs).
    apply bind_Ok in Hu. destruct Hu as (b & Hb & Hu).
    apply bind_Ok in Hu. destruct Hu as (unsafe' & Hu' & Hu).
    injection Hs as <-. injection Hu as <-.
    constructor; [|apply IH; assumption].
    apply bind_Ok in Ha. destruct Ha as (z & Hz & Ha).
    apply bind_Ok in Hb. destruct Hb as (z' & Hz' & Hb).
    rewrite Hz in Hz'. injection Hz' as <-.
    injection Ha as <-. injection Hb as <-.
    apply andb_false_iff.
    destruct (Rleb z safe_z && Rleb (norm row) safe_radius) eqn:Hsafe;
      [right | left; reflexivity].
    apply andb_true_iff in Hsafe. destruct Hsafe as [H1 H2].
    apply Rleb_elim in H1, H2. unfold safe_z, safe_radius in *.
    apply orb_false_iff. split; apply Rleb_false;
      unfold unsafe_z, unsafe_radius; lra.
Qed.

Lemma masks_disjoint_witness :
  Forall2 (fun a b => a && b = false) [true] [false].
Proof.
  exact (masks_disjoint 0 [[0]] [true] [false] safe_mask_origin unsafe_mask_origin).
Defined.

End Masks.

(** ** Saving the best model *)

Lemma Rltb_true (a b : R) : a < b -> Rltb a b = true.
Proof. intros H. unfold Rltb. destruct (Rlt_dec a b); [reflexivity | contradiction]. Qed.

Lemma Rltb_false (a b : R) : ~ a < b -> Rltb a b = false.
Proof. intros H. unfold Rltb. destruct (Rlt_dec a b); [contradiction | reflexivity]. Qed.

Lemma lt_fold_Rmin (loss : R) (l : list R) :
  forall a, loss < fold_left Rmin l a <-> loss < a /\ Forall (fun b => loss < b) l.
Proof.
  induction l as [|b l IH]; intros a; simpl.
  - split; [intros H; split; [exact H | constructor] | intros [H _]; exact H].
  - rewrite IH. split.
    + intros [Hab Hl]. pose proof (Rmin_l a b). pose proof (Rmin_r a b).
      split; [lra|]. constructor; [lra | exact Hl].
    + intros [Ha Hl]. inversion Hl; subst. split; [|assumption].
      apply Rmin_glb_lt; assumption.
Qed.

(** A loss is below min(test_losses) exactly when it is below every entry. *)
Lemma lt_list_min (loss : R) (l : list R) :
  l <> [] -> (loss < list_min l <-> Forall (fun b => loss < b) l).
Proof.
  destruct l as [|a l]; [congruence|]. intros _. unfold list_min.
  rewrite lt_fold_Rmin. split.
  - intros [Ha Hl]. constructor; assumption.
  - intros H. inversion H; subst. split; assumption.
Qed.

Section Saving.

Import quad9d_robust_clf_qp.

(** X12: After the held-out evaluation the loss is appended to test_losses and
    the network is untouched; the checkpoint is overwritten exactly when
    the loss is strictly below every earlier test loss, and then it holds
    the attribute relaxation_penalty and the current parameters. *)
Theorem save_if_best_outcome (loss penalty : R) (st : TrainState) :
  extra_attrs (clf_net st) !! "relaxation_penalty"%string = Some penalty ->
  exists st',
    save_if_best loss st = ([], (Ok tt, st'))
    /\ test_losses st' = test_losses st ++ [loss]
    /\ clf_net st' = clf_net st
    /\ optimizer_lr st' = optimizer_lr st
    /\ (Forall (fun b => loss < b) (test_losses st) ->
        saved st' = Some (checkpoint_of penalty st))
    /\ (~ Forall (fun b => loss < b) (test_losses st) -> saved st' = saved st).
Proof.
  intros Hattr. unfold save_if_best, loop_bind, get_state, put_state, lift,
    loop_ret. simpl.
  destruct (test_losses st) as [|a l] eqn:Hl.
  - rewrite Hattr. simpl. eexists. split; [reflexivity|]. simpl.
    rewrite ?Hl. split; [reflexivity|]. split; [reflexivity|].
    split; [reflexivity|]. split; [reflexivity|].
    intros H. exfalso. apply H. constructor.
  - destruct (Rlt_dec loss (list_min (a :: l))) as [Hlt|Hge].
    + rewrite (Rltb_true _ _ Hlt). rewrite Hattr. simpl.
      eexists. split; [reflexivity|]. simpl.
      rewrite ?Hl. split; [reflexivity|]. split; [reflexivity|].
      split; [reflexivity|]. split; [reflexivity|].
      intros H. exfalso. apply H. apply lt_list_min; [discriminate | exact Hlt].
    + rewrite (Rltb_false _ _ Hge). simpl.
      eexists. split; [reflexivity|]. simpl.
      rewrite ?Hl. split; [reflexivity|]. split; [reflexivity|].
      split; [reflexivity|]. split; [|reflexivity].
      intros H. exfalso. apply Hge. apply lt_list_min; [discriminate | exact H].
Qed.

End Saving.

Lemma save_if_best_outcome_witness :
  exists st',
    quad9d_robust_clf_qp.save_if_best 1
      {| clf_net := quad9d_robust_clf_qp.adjust_relaxation_penalty Example.net 0;
         optimizer_lr := 0.001; test_losses := [2; 1]; saved := None |}
    = ([], (Ok tt, st'))
    /\ test_losses st' = [2; 1; 1]
    /\ saved st' = None.
Proof.
  destruct (save_if_best_outcome 1
              (quad9d_robust_clf_qp.relaxation_penalty * 2 ^ (0 / 2))
              {| clf_net := quad9d_robust_clf_qp.adjust_relaxation_penalty
                              Example.net 0;
                 optimizer_lr := 0.001; test_losses := [2; 1]; saved := None |}
              eq_refl)
    as (st' & Hrun & Hlosses & _ & _ & _ & Hkeep).
  exists st'. split; [exact Hrun|]. split; [exact Hlosses|].
  apply Hkeep. intros H. inversion H as [|? ? _ H']; subst.
  inversion H' as [|? ? Hlt _]; subst. lra.
Defined.


(** ** The checkpoint and the schedule of the relaxation penalty *)

Section Checkpoints.

Import quad9d_robust_clf_qp.

Variable imported_lyapunov_loss :
  list vec -> list vec -> list bool -> list bool -> CLF_K_QP_Net ->
  R -> R -> R -> bool -> res (R * list (string * R)).
Variable imported_controller_loss :
  list vec -> CLF_K_QP_Net -> bool -> bool -> R -> res (R * list (string * R)).
Variable sgd_step : CLF_K_QP_Net -> list vec -> R -> R -> StateDict.
Variable randperm : nat -> list nat.
Variable PZ : nat.
Variables x_train x_test x0 : list vec.

Lemma triple_lyapunov_call_keeps (P : TrainState -> Prop) epoch held_out x x_goal
    sm um print :
  triple any_call P
    (call_lyapunov_loss imported_lyapunov_loss epoch held_out x x_goal sm um print)
    (fun _ st => P st).
Proof.
  intros st Hst. simpl. split; [constructor; [exact I | constructor]|].
  destruct (returned _); [exact Hst | exact I].
Qed.

Lemma triple_controller_call_keeps (P : TrainState -> Prop) epoch held_out x
    print coeff :
  triple any_call P (call_controller_loss imported_controller_loss epoch held_out x print coeff)
    (fun _ st => P st).
Proof.
  intros st Hst. simpl. split; [constructor; [exact I | constructor]|].
  destruct (returned _); [exact Hst | exact I].
Qed.

Lemma adjust_relaxation_penalty_attr (net : CLF_K_QP_Net) (epoch : nat) :
  extra_attrs (adjust_relaxation_penalty net epoch) !! "relaxation_penalty"%string
  = Some (relaxation_penalty * 2 ^ (epoch / 2)).
Proof.
  unfold adjust_relaxation_penalty, setattr_float. simpl.
  apply lookup_insert_eq.
Qed.

Lemma triple_train_batch_scheduled e s0 epoch permutation coeff i :
  triple any_call (scheduled e s0)
    (train_batch imported_lyapunov_loss imported_controller_loss
      sgd_step PZ x_train x0 epoch permutation coeff i)
    (fun _ st => scheduled e s0 st).
Proof.
  unfold train_batch.
  do 3 (eapply triple_bind; [apply triple_lift | intros ?]).
  eapply triple_bind; [apply triple_lyapunov_call_keeps | intros ?].
  eapply triple_bind; [apply triple_controller_call_keeps | intros ?].
  eapply triple_bind; [apply triple_get | intros ?].
  intros st [-> Hst]. simpl. split; [constructor | exact Hst].
Qed.

Lemma triple_save_if_best_scheduled e s0 loss :
  triple any_call (scheduled e s0) (save_if_best loss)
    (fun _ st => saved_in e s0 st).
Proof.
  intros st [Hattr Hsaved]. unfold save_if_best, loop_bind, get_state,
    put_state, lift, loop_ret. simpl.
  destruct (match test_losses st with [] => true | _ => _ end).
  - rewrite Hattr. simpl. split; [constructor|]. right. eexists. reflexivity.
  - simpl. split; [constructor|]. left. exact Hsaved.
Qed.

(** X23: An epoch that ends normally leaves the checkpoint as it was or has
    written one that stores the relaxation penalty scheduled for this
    epoch, 10 * 2 ^ (epoch // 2): the attribute is always set before it is
    read. *)
Theorem checkpoint_penalty_follows_schedule (m1 m2 : list bool) (epoch : nat)
    (st st' : TrainState) (log : list LossCall) :
  epoch_body imported_lyapunov_loss imported_controller_loss
      sgd_step randperm PZ x_train x_test x0 m1 m2 epoch st
    = (log, (Ok tt, st')) ->
  saved_in epoch (saved st) st'.
Proof.
  intros Hrun.
  assert (H : triple any_call (fun s => saved s = saved st)
                (epoch_body imported_lyapunov_loss imported_controller_loss
      sgd_step randperm PZ x_train x_test x0
                   m1 m2 epoch)
                (fun _ s => saved_in epoch (saved st) s)).
  { unfold epoch_body.
    eapply (triple_bind _ _ _ (fun _ s => saved s = saved st));
      [intros s Hs; simpl; split; [constructor | exact Hs] | intros ?].
    eapply triple_bind; [apply triple_get | intros ?].
    eapply (triple_bind _ _ _ (fun _ s => scheduled epoch (saved st) s)).
    { intros s [-> Hs]. simpl. split; [constructor|].
      split; [apply adjust_relaxation_penalty_attr | exact Hs]. }
    intros ?.
    eapply triple_bind;
      [apply triple_for_each; intros ?; apply triple_train_batch_scheduled
      | intros ?].
    eapply (triple_bind _ _ _ (fun _ s => scheduled epoch (saved st) s)).
    { destruct (length x_train =? 0)%nat.
      - apply triple_lift.
      - intros s Hs. simpl. split; [constructor | exact Hs]. }
    intros ?. unfold test_evaluation.
    eapply triple_bind; [apply triple_lyapunov_call_keeps | intros ?].
    eapply triple_bind; [apply triple_controller_call_keeps | intros ?].
    apply triple_save_if_best_scheduled. }
  destruct (H st eq_refl) as [_ HQ]. rewrite Hrun in HQ. exact HQ.
Qed.

End Checkpoints.

Section FirstEpoch.

Import quad9d_robust_clf_qp.
Import Example.

Lemma first_epoch_ends :
  exists log st', Example2.first_epoch = (log, (Ok tt, st')).
Proof.
  unfold Example2.first_epoch, epoch_body. do 2 eexists.
  eapply bind_eq; [reflexivity|]. cbv beta.
  eapply bind_eq; [reflexivity|]. cbv beta.
  eapply bind_eq; [reflexivity|]. cbv beta.
  eapply bind_eq.
  { change (map _ (seq 0 _)) with [0%nat]. unfold for_each.
    eapply bind_eq; [|reflexivity].
    match goal with
    | |- train_batch _ _ _ _ _ _ _ _ ?c _ ?s = _ =>
        exact (train_batch_origin s c eq_refl)
    end. }
  cbv beta.
  eapply bind_eq; [reflexivity|]. cbv beta.
  unfold test_evaluation.
  eapply bind_eq; [reflexivity|]. cbv beta.
  eapply bind_eq; [reflexivity|]. cbv beta.
  reflexivity.
Qed.

End FirstEpoch.

Lemma checkpoint_penalty_follows_schedule_witness :
  exists log st',
    Example2.first_epoch = (log, (Ok tt, st'))
    /\ saved_in 0 None st'.
Proof.
  destruct first_epoch_ends as (log & st' & Hrun).
  exists log, st'. split; [exact Hrun|].
  exact (checkpoint_penalty_follows_schedule Example.example_lyapunov_loss
           Example.example_controller_loss
           Example.keep_weights (fun _ => [0%nat]) 0%nat [[0]] [[0]] [[0]]
           [true] [false] 0%nat Example2.before_first_epoch st' log Hrun).
Defined.

(** * The planar quadrotor *)

(** ** The control bounds *)

(** X16: G u <= h says that each thrust lies between -max_u and max_u. *)
Theorem pvtol_control_box (u1 u2 : R) :
  Forall2 Rle (matvec pvtol.G [u1; u2]) pvtol.h
  <-> Rabs u1 <= pvtol.max_u /\ Rabs u2 <= pvtol.max_u.
Proof.
  unfold pvtol.G, pvtol.h, pvtol.max_u, matvec, dot, Rsum. simpl. split.
  - intros H.
    inversion H as [|? ? ? ? H1 H']; subst.
    inversion H' as [|? ? ? ? H2 H'']; subst.
    inversion H'' as [|? ? ? ? H3 H''']; subst.
    inversion H''' as [|? ? ? ? H4 _]; subst.
    split; apply Rabs_le; lra.
  - intros [H1 H2].
    pose proof (Rle_abs u1) as A1. pose proof (Rle_abs (- u1)) as A1'.
    pose proof (Rle_abs u2) as A2. pose proof (Rle_abs (- u2)) as A2'.
    rewrite Rabs_Ropp in A1', A2'.
    constructor; [lra|]. constructor; [lra|].
    constructor; [lra|]. constructor; [lra|]. constructor.
Qed.

(** ** Shapes and errors of the dynamics *)

Lemma f_row_ok (x : vec) :
  (6 <= length x)%nat ->
  exists f, pvtol.f_row x = Ok f /\ length f = length x.
Proof.
  intros Hx. unfold pvtol.f_row, index.
  destruct (lookup_lt_is_Some_2 x 3 ltac:(lia)) as [a3 ->].
  destruct (lookup_lt_is_Some_2 x 4 ltac:(lia)) as [a4 ->].
  destruct (lookup_lt_is_Some_2 x 5 ltac:(lia)) as [a5 ->].
  simpl. eexists. split; [reflexivity|].
  rewrite !length_insert, length_replicate. reflexivity.
Qed.

Lemma f_row_short (x : vec) :
  (length x < 6)%nat -> pvtol.f_row x = Raise IndexError.
Proof.
  intros Hx. unfold pvtol.f_row, index.
  destruct (x !! 3%nat) as [a3|] eqn:H3; [|reflexivity].
  destruct (x !! 4%nat) as [a4|] eqn:H4; [|reflexivity].
  destruct (x !! 5%nat) as [a5|] eqn:H5; [|reflexivity].
  apply lookup_lt_Some in H5. lia.
Qed.

Lemma mapM_res_defined {A B : Type} (f : A -> res B) (P : A -> B -> Prop)
    (l : list A) :
  Forall (fun a => exists b, f a = Ok b /\ P a b) l ->
  exists r, mapM_res f l = Ok r /\ Forall2 P l r.
Proof.
  induction 1 as [|a l (b & Hb & HP) _ (r & Hr & HF)].
  - exists []. split; [reflexivity | constructor].
  - exists (b :: r). simpl. rewrite Hb. simpl. rewrite Hr. simpl.
    split; [reflexivity | constructor; assumption].
Qed.

(** X17: On states of at least six entries and with a nonzero inertia the
    dynamics is defined: f has the shape of x and g is a 6 x 2 matrix for
    every state of the batch. *)
Theorem control_affine_dynamics_defined (x : list vec) (m inertia : R) :
  Forall (fun row => (6 <= length row)%nat) x ->
  inertia <> 0 ->
  exists f g,
    pvtol.control_affine_dynamics x m inertia = Ok (f, g)
    /\ Forall2 (fun row f_row => length f_row = length row) x f
    /\ length g = length x
    /\ Forall (fun M => length M = 6%nat /\ Forall (fun r => length r = 2%nat) M) g.
Proof.
  intros Hx Hi. unfold pvtol.control_affine_dynamics, pvtol.f_func, pvtol.g_func.
  assert (Hf : exists f, mapM_res pvtol.f_row x = Ok f
                         /\ Forall2 (fun row f_row => length f_row = length row) x f).
  { apply mapM_res_defined. eapply Forall_impl; [exact Hx|].
    intros row Hrow. apply f_row_ok, Hrow. }
  assert (Ht : exists thetas, mapM_res (fun row => index row 2) x = Ok thetas
                              /\ Forall2 (fun _ _ => True) x thetas).
  { apply mapM_res_defined. eapply Forall_impl; [exact Hx|].
    intros row Hrow. simpl in Hrow. unfold index.
    destruct (lookup_lt_is_Some_2 row 2 ltac:(lia)) as [a ->]. eauto. }
  destruct Hf as (f & Hf & Hshape). destruct Ht as (thetas & Ht & Hlen).
  rewrite Hf. simpl. rewrite Ht. simpl.
  destruct (Req_dec_T inertia 0) as [H0|_]; [contradiction|].
  simpl. do 2 eexists. split; [reflexivity|].
  split; [exact Hshape|].
  split; [rewrite length_map; symmetry; exact (Forall2_length _ _ _ Hlen)|].
  apply Forall_map, Forall_true. intros theta. simpl.
  split; [reflexivity|]. repeat constructor.
Qed.

Lemma control_affine_dynamics_defined_witness :
  exists f g,
    pvtol.control_affine_dynamics [at_rest 1 2] pvtol.low_m pvtol.low_I
      = Ok (f, g)
    /\ Forall2 (fun row f_row => length f_row = length row) [at_rest 1 2] f
    /\ length g = 1%nat
    /\ Forall (fun M => length M = 6%nat /\ Forall (fun r => length r = 2%nat) M) g.
Proof.
  apply (control_affine_dynamics_defined [at_rest 1 2] pvtol.low_m pvtol.low_I).
  - constructor; [simpl; lia | constructor].
  - unfold pvtol.low_I. lra.
Defined.

(** X18: A state with fewer than six entries makes the dynamics raise
    IndexError. *)
Theorem control_affine_dynamics_short_state (x : list vec) (m inertia : R) :
  Exists (fun row => (length row < 6)%nat) x ->
  pvtol.control_affine_dynamics x m inertia = Raise IndexError.
Proof.
  intros Hx. unfold pvtol.control_affine_dynamics, pvtol.f_func.
  assert (Hf : mapM_res pvtol.f_row x = Raise IndexError).
  { induction x as [|row x IH]; [inversion Hx|]. simpl.
    destruct (Nat.lt_ge_cases (length row) 6) as [Hlt|Hge].
    - rewrite (f_row_short row Hlt). reflexivity.
    - destruct (f_row_ok row Hge) as (fr & -> & _). simpl.
      rewrite IH; [reflexivity|].
      inversion Hx as [? ? Hrow|? ? Hrest]; subst; [lia | exact Hrest]. }
  rewrite Hf. reflexivity.
Qed.

Lemma control_affine_dynamics_short_state_witness :
  pvtol.control_affine_dynamics [[0; 0; 0; 0; 0]] pvtol.low_m pvtol.low_I
  = Raise IndexError.
Proof.
  apply (control_affine_dynamics_short_state [[0; 0; 0; 0; 0]]).
  constructor. simpl. lia.
Defined.

(** ** Hover *)

Lemma control_affine_dynamics_row (x0 x1 theta x3 x4 x5 m inertia : R) :
  inertia <> 0 ->
  pvtol.control_affine_dynamics [[x0; x1; theta; x3; x4; x5]] m inertia
  = Ok ([[x3; x4; x5; 0; - pvtol.g; 0]],
        [[ [0; 0]; [0; 0]; [0; 0];
           [- sin theta / m; - sin theta / m];
           [cos theta / m; cos theta / m];
           [pvtol.r / inertia; - pvtol.r / inertia] ]]).
Proof.
  intros Hi. unfold pvtol.control_affine_dynamics, pvtol.f_func, pvtol.g_func.
  simpl. destruct (Req_dec_T inertia 0) as [H0|_]; [contradiction|]. reflexivity.
Qed.

Lemma x_dot_row (x0 x1 theta x3 x4 x5 m inertia u1 u2 : R) :
  inertia <> 0 ->
  x_dot [x0; x1; theta; x3; x4; x5] m inertia [u1; u2]
  = Ok [ x3 + dot [0; 0] [u1; u2];
         x4 + dot [0; 0] [u1; u2];
         x5 + dot [0; 0] [u1; u2];
         0 + dot [- sin theta / m; - sin theta / m] [u1; u2];
         - pvtol.g + dot [cos theta / m; cos theta / m] [u1; u2];
         0 + dot [pvtol.r / inertia; - pvtol.r / inertia] [u1; u2] ].
Proof.
  intros Hi. unfold x_dot. rewrite control_affine_dynamics_row by exact Hi.
  reflexivity.
Qed.

(** X19: At rest, with no tilt, the hover control m g / 2 on each rotor keeps
    the state where it is: f + g u vanishes. *)
Theorem hover_is_equilibrium (px pz m inertia : R) :
  m <> 0 -> inertia <> 0 ->
  x_dot (at_rest px pz) m inertia (hover_control m) = Ok (replicate 6 0).
Proof.
  intros Hm Hi. unfold at_rest, hover_control.
  rewrite x_dot_row by exact Hi. unfold dot, Rsum. simpl.
  rewrite sin_0, cos_0. apply f_equal.
  repeat (apply (f_equal2 cons); [field; auto|]). reflexivity.
Qed.

Lemma hover_is_equilibrium_witness :
  x_dot (at_rest 1 2) pvtol.low_m pvtol.low_I (hover_control pvtol.low_m)
  = Ok (replicate 6 0).
Proof.
  apply (hover_is_equilibrium 1 2 pvtol.low_m pvtol.low_I);
    unfold pvtol.low_m, pvtol.low_I; lra.
Defined.

(** ** The linearisation behind the nominal controller *)

(** X20: The input matrix B that u_nominal passes to lqr is g_func at any state
    without tilt (for a nonzero mass and inertia, as u_nominal needs them). *)
Theorem linearisation_input_matrix (x0 x1 x3 x4 x5 m inertia : R) :
  m <> 0 -> inertia <> 0 ->
  pvtol.g_func [[x0; x1; 0; x3; x4; x5]] m inertia = Ok [pvtol.B m inertia].
Proof.
  intros _ Hi. unfold pvtol.g_func. simpl.
  destruct (Req_dec_T inertia 0) as [H0|_]; [contradiction|].
  unfold pvtol.B. simpl. rewrite sin_0, cos_0. apply f_equal.
  apply (f_equal2 cons); [|reflexivity].
  do 3 (apply (f_equal2 cons); [reflexivity|]).
  apply (f_equal2 cons); [|reflexivity].
  repeat (apply (f_equal2 cons); [unfold Rdiv; ring|]). reflexivity.
Qed.

Lemma linearisation_input_matrix_witness :
  pvtol.g_func [[1; 2; 0; 3; 4; 5]] pvtol.low_m pvtol.low_I
  = Ok [pvtol.B pvtol.low_m pvtol.low_I].
Proof.
  apply (linearisation_input_matrix 1 2 3 4 5 pvtol.low_m pvtol.low_I).
  - unfold pvtol.low_m. lra.
  - unfold pvtol.low_I. lra.
Defined.

Lemma dlim_ext (f g : R -> R) (l : R) :
  (forall t, f t = g t) -> derivable_pt_lim f 0 l -> derivable_pt_lim g 0 l.
Proof. intros H Hf. exact (derivable_pt_lim_ext f g 0 l H Hf). Qed.

Lemma dlim_affine (a b : R) : derivable_pt_lim (fun t => a + t * b) 0 b.
Proof.
  apply (dlim_plus (fun _ => a) (fun t => t * b) 0 b);
    [apply dlim_const | | lra].
  apply (dlim_mult (fun t => t) (fun _ => b) 1 0);
    [apply dlim_id | apply dlim_const | lra].
Qed.

Lemma dlim_sin_affine (b : R) : derivable_pt_lim (fun t => sin (0 + t * b)) 0 b.
Proof.
  pose proof (derivable_pt_lim_comp (fun t => 0 + t * b) sin 0 b
                (cos (0 + 0 * b)) (dlim_affine 0 b)) as H.
  assert (Hs : derivable_pt_lim sin (0 + 0 * b) (cos (0 + 0 * b)))
    by apply derivable_pt_lim_sin.
  specialize (H Hs).
  replace (cos (0 + 0 * b) * b) with b in H
    by (replace (0 + 0 * b) with 0 by ring; rewrite cos_0; ring).
  exact H.
Qed.

Lemma dlim_cos_affine (b : R) : derivable_pt_lim (fun t => cos (0 + t * b)) 0 0.
Proof.
  pose proof (derivable_pt_lim_comp (fun t => 0 + t * b) cos 0 b
                (- sin (0 + 0 * b)) (dlim_affine 0 b)) as H.
  assert (Hs : derivable_pt_lim cos (0 + 0 * b) (- sin (0 + 0 * b)))
    by apply derivable_pt_lim_cos.
  specialize (H Hs).
  replace (- sin (0 + 0 * b) * b) with 0 in H
    by (replace (0 + 0 * b) with 0 by ring; rewrite sin_0; ring).
  exact H.
Qed.

(** X21: The state matrix A that u_nominal passes to lqr is the Jacobian of the
    dynamics under the hover control at a state at rest: along every
    direction d the derivative of f + g u_eq is A d. *)
Theorem linearisation_state_matrix (px pz m inertia : R) (d : vec) (i : nat) :
  m <> 0 -> inertia <> 0 -> length d = 6%nat -> (i < 6)%nat ->
  derivable_pt_lim
    (fun t => nth i (hover_drift m inertia (eval (line (at_rest px pz) d) t)) 0)
    0 (nth i (matvec pvtol.A d) 0).
Proof.
  intros Hm Hi Hd Hlt.
  destruct d as [|d0 [|d1 [|d2 [|d3 [|d4 [|d5 [|? ?]]]]]]]; try discriminate Hd.
  unfold hover_drift, at_rest, hover_control, eval, line. simpl zip_with.
  simpl map.
  assert (Hdrift : forall t,
    x_dot [px + t * d0; pz + t * d1; 0 + t * d2; 0 + t * d3; 0 + t * d4;
           0 + t * d5] m inertia [m * pvtol.g / 2; m * pvtol.g / 2]
    = Ok [ 0 + t * d3 + dot [0; 0] [m * pvtol.g / 2; m * pvtol.g / 2];
           0 + t * d4 + dot [0; 0] [m * pvtol.g / 2; m * pvtol.g / 2];
           0 + t * d5 + dot [0; 0] [m * pvtol.g / 2; m * pvtol.g / 2];
           0 + dot [- sin (0 + t * d2) / m; - sin (0 + t * d2) / m]
                 [m * pvtol.g / 2; m * pvtol.g / 2];
           - pvtol.g + dot [cos (0 + t * d2) / m; cos (0 + t * d2) / m]
                         [m * pvtol.g / 2; m * pvtol.g / 2];
           0 + dot [pvtol.r / inertia; - pvtol.r / inertia]
                 [m * pvtol.g / 2; m * pvtol.g / 2] ]).
  { intros t. apply x_dot_row, Hi. }
  unfold pvtol.A, matvec, dot, Rsum. simpl.
  destruct i as [|[|[|[|[|[|i]]]]]]; [| | | | | | lia].
  - apply (dlim_ext (fun t => 0 + t * d3)).
    + intros t. rewrite Hdrift. unfold dot, Rsum. simpl. ring.
    + replace (0 * d0 + (0 * d1 + (0 * d2 + (1 * d3 + (0 * d4 + (0 * d5 + 0))))))
        with d3 by ring.
      apply dlim_affine.
  - apply (dlim_ext (fun t => 0 + t * d4)).
    + intros t. rewrite Hdrift. unfold dot, Rsum. simpl. ring.
    + replace (0 * d0 + (0 * d1 + (0 * d2 + (0 * d3 + (1 * d4 + (0 * d5 + 0))))))
        with d4 by ring.
      apply dlim_affine.
  - apply (dlim_ext (fun t => 0 + t * d5)).
    + intros t. rewrite Hdrift. unfold dot, Rsum. simpl. ring.
    + replace (0 * d0 + (0 * d1 + (0 * d2 + (0 * d3 + (0 * d4 + (1 * d5 + 0))))))
        with d5 by ring.
      apply dlim_affine.
  - apply (dlim_ext (fun t => (- pvtol.g) * sin (0 + t * d2))).
    + intros t. rewrite Hdrift. unfold dot, Rsum. simpl. field. exact Hm.
    + apply (dlim_scal (- pvtol.g) (fun t => sin (0 + t * d2)) d2);
        [apply dlim_sin_affine | ring].
  - apply (dlim_ext (fun t => - pvtol.g + pvtol.g * cos (0 + t * d2))).
    + intros t. rewrite Hdrift. unfold dot, Rsum. simpl. field. exact Hm.
    + apply (dlim_plus (fun _ => - pvtol.g)
               (fun t => pvtol.g * cos (0 + t * d2)) 0 0);
        [apply dlim_const | | ring].
      apply (dlim_scal pvtol.g (fun t => cos (0 + t * d2)) 0);
        [apply dlim_cos_affine | ring].
  - apply (dlim_ext (fun _ => 0)).
    + intros t. rewrite Hdrift. unfold dot, Rsum. simpl. field. exact Hi.
    + replace (0 * d0 + (0 * d1 + (0 * d2 + (0 * d3 + (0 * d4 + (0 * d5 + 0))))))
        with 0 by ring.
      apply dlim_const.
Qed.

Lemma linearisation_state_matrix_witness :
  derivable_pt_lim
    (fun t => nth 3 (hover_drift pvtol.low_m pvtol.low_I
                       (eval (line (at_rest 0 0) [0; 0; 1; 0; 0; 0]) t)) 0)
    0 (nth 3 (matvec pvtol.A [0; 0; 1; 0; 0; 0]) 0).
Proof.
  apply (linearisation_state_matrix 0 0 pvtol.low_m pvtol.low_I
           [0; 0; 1; 0; 0; 0] 3).
  - unfold pvtol.low_m. lra.
  - unfold pvtol.low_I. lra.
  - reflexivity.
  - lia.
Defined.

(** ** The nominal controller *)

(** X22: At the origin the nominal controller returns the hover control
    m g / 2 on both rotors, whatever 2 x 6 gain the LQR solver produced. *)
Theorem u_nominal_at_origin (lqr : mat -> mat -> mat -> mat -> res mat)
    (m inertia : R) (K : mat) :
  m <> 0 -> inertia <> 0 ->
  lqr pvtol.A (pvtol.B m inertia) (pvtol.eye pvtol.n_dims)
    (pvtol.eye pvtol.n_controls) = Ok K ->
  length K = 2%nat -> Forall (fun k => length k = 6%nat) K ->
  pvtol.u_nominal lqr [at_rest 0 0] m inertia = Ok [hover_control m].
Proof.
  intros Hm Hi HK Hlen Hrows. unfold pvtol.u_nominal.
  destruct (Req_dec_T m 0) as [H0|_]; [contradiction|].
  destruct (Req_dec_T inertia 0) as [H0|_]; [contradiction|].
  rewrite HK. clear HK.
  destruct K as [|k1 [|k2 [|? ?]]]; try discriminate Hlen.
  inversion Hrows as [|? ? H1 Hrows']; subst.
  inversion Hrows' as [|? ? H2 _]; subst.
  destruct k1 as [|a0 [|a1 [|a2 [|a3 [|a4 [|a5 [|? ?]]]]]]]; try discriminate H1.
  destruct k2 as [|b0 [|b1 [|b2 [|b3 [|b4 [|b5 [|? ?]]]]]]]; try discriminate H2.
  unfold at_rest, hover_control. simpl. apply f_equal.
  apply (f_equal2 cons); [|reflexivity].
  repeat (apply (f_equal2 cons); [ring|]). reflexivity.
Qed.

Lemma u_nominal_at_origin_witness :
  pvtol.u_nominal Example2.lqr_gain [at_rest 0 0] pvtol.low_m pvtol.low_I
  = Ok [hover_control pvtol.low_m].
Proof.
  apply (u_nominal_at_origin Example2.lqr_gain pvtol.low_m pvtol.low_I
           [[1; 0; 2; 0; 0; 3]; [0; 1; 0; 4; 5; 0]]).
  - unfold pvtol.low_m. lra.
  - unfold pvtol.low_I. lra.
  - reflexivity.
  - reflexivity.
  - repeat constructor.
Defined.

(** * The sampled states *)

Lemma stretched_step (dom : list (R * R)) (k : nat) (row : vec) (lo hi : R) :
  dom !! k = Some (lo, hi) -> lo <= hi ->
  stretched dom k row ->
  exists a, row !! k = Some a
    /\ stretched dom (S k) (<[k := a * (hi - lo) + lo]> row).
Proof.
  intros Hdom Hle [Hlen Hrow].
  assert (Hk : (k < length row)%nat).
  { rewrite Hlen. apply lookup_lt_Some in Hdom. exact Hdom. }
  destruct (lookup_lt_is_Some_2 row k Hk) as [a Ha].
  exists a. split; [exact Ha|]. split; [rewrite length_insert; exact Hlen|].
  intros j a' Hj. apply list_lookup_insert_Some in Hj.
  destruct Hj as [(<- & <- & _) | (Hne & Hj)].
  - assert (Hlt : (k <? S k)%nat = true) by (apply Nat.ltb_lt; lia).
    rewrite Hlt. exists (lo, hi). split; [exact Hdom|]. simpl.
    specialize (Hrow k a Ha). rewrite Nat.ltb_irrefl in Hrow. nra.
  - specialize (Hrow j a' Hj).
    destruct (j <? k)%nat eqn:Hjk.
    + assert (Hlt : (j <? S k)%nat = true).
      { apply Nat.ltb_lt. apply Nat.ltb_lt in Hjk. lia. }
      rewrite Hlt. exact Hrow.
    + assert (Hlt : (j <? S k)%nat = false).
      { apply Nat.ltb_ge. apply Nat.ltb_ge in Hjk. lia. }
      rewrite Hlt. exact Hrow.
Qed.

Lemma rescale_column_stretched (dom : list (R * R)) (k : nat) (x : list vec) :
  (k < length dom)%nat ->
  Forall (fun b => fst b <= snd b) dom ->
  Forall (stretched dom k) x ->
  exists y, sampling.rescale_column dom x k = Ok y
    /\ Forall2 (fun _ row' => stretched dom (S k) row') x y.
Proof.
  intros Hk Hdom Hx. unfold sampling.rescale_column, index.
  destruct (lookup_lt_is_Some_2 dom k Hk) as [[lo hi] Hb]. rewrite Hb. simpl.
  assert (Hle : lo <= hi).
  { exact (Forall_lookup_1 _ _ _ _ Hdom Hb). }
  apply mapM_res_defined. eapply Forall_impl; [exact Hx|].
  intros row Hrow. simpl.
  destruct (stretched_step dom k row lo hi Hb Hle Hrow) as (a & Ha & Hs).
  rewrite Ha. simpl. eauto.
Qed.

Lemma rescale_from (dom : list (R * R)) (m : nat) :
  Forall (fun b => fst b <= snd b) dom ->
  forall (k : nat) (x : list vec),
    (k + m <= length dom)%nat ->
    Forall (stretched dom k) x ->
    exists y, foldM_res (sampling.rescale_column dom) (seq k m) x = Ok y
      /\ length y = length x /\ Forall (stretched dom (k + m)) y.
Proof.
  intros Hdom. induction m as [|m IH]; intros k x Hk Hx; simpl.
  - exists x. rewrite Nat.add_0_r. auto.
  - destruct (rescale_column_stretched dom k x ltac:(lia) Hdom Hx)
      as (y & Hy & Hs).
    rewrite Hy. simpl.
    assert (Hy' : Forall (stretched dom (S k)) y).
    { clear Hy Hx.
      induction Hs as [|row row' x' y' Hrow _ IH'];
        [constructor | constructor; [exact Hrow | exact IH']]. }
    destruct (IH (S k) y ltac:(lia) Hy') as (z & Hz & Hlen & Hz').
    exists z. split; [exact Hz|]. split.
    + rewrite Hlen. symmetry. exact (Forall2_length _ _ _ Hs).
    + replace (k + S m)%nat with (S k + m)%nat by lia. exact Hz'.
Qed.

(** Stretching a sample from [0, 1] to a box succeeds and puts every row
    into the box. *)
Lemma rescale_in_box (dom : list (R * R)) (x : list vec) :
  Forall (fun b => fst b <= snd b) dom ->
  unit_sample (length dom) x ->
  exists y, sampling.rescale (length dom) dom x = Ok y
    /\ length y = length x /\ Forall (in_box dom) y.
Proof.
  intros Hdom Hx. unfold sampling.rescale.
  assert (H0 : Forall (stretched dom 0) x).
  { eapply Forall_impl; [exact Hx|]. intros row [Hlen Hrow]. split; [exact Hlen|].
    intros j a Hj. simpl. exact (Forall_lookup_1 _ _ _ _ Hrow Hj). }
  destruct (rescale_from dom (length dom) Hdom 0 x ltac:(lia) H0)
    as (y & Hy & Hlen & Hs).
  exists y. split; [exact Hy|]. split; [exact Hlen|].
  eapply Forall_impl; [exact Hs|]. intros row [Hl Hrow]. unfold in_box.
  apply Forall2_same_length_lookup_2; [exact Hl|].
  intros j a b Ha Hb. specialize (Hrow j a Ha).
  assert (Hlt : (j <? 0 + length dom)%nat = true).
  { apply Nat.ltb_lt. apply lookup_lt_Some in Hb. lia. }
  rewrite Hlt in Hrow. destruct Hrow as (b' & Hb' & Hin).
  rewrite Hb in Hb'. injection Hb' as <-. exact Hin.
Qed.

Lemma in_box_weaken (dom dom' : list (R * R)) (row : vec) :
  Forall2 (fun b b' => fst b' <= fst b /\ snd b <= snd b') dom dom' ->
  in_box dom row -> in_box dom' row.
Proof.
  unfold in_box. intros Hd Hrow. revert dom' Hd.
  induction Hrow as [|a b row dom Hab _ IH]; intros dom' Hd;
    inversion Hd as [|? b' ? dom'' Hb Hd']; subst; constructor.
  - lra.
  - apply IH, Hd'.
Qed.

Lemma domain_ordered : Forall (fun b => fst b <= snd b) sampling.domain.
Proof.
  pose proof PI_RGT_0. unfold sampling.domain.
  repeat (constructor; [simpl; lra|]). constructor.
Qed.

Lemma domain_near_origin_ordered :
  Forall (fun b => fst b <= snd b) sampling.domain_near_origin.
Proof.
  pose proof PI_RGT_0. unfold sampling.domain_near_origin.
  repeat (constructor; [simpl; lra|]). constructor.
Qed.

(** X14: The training and the held-out states of the script, which stack a
    sample stretched to the domain on a sample stretched to the box near the
    origin, are computed without error and all lie in the domain. *)
Theorem sampled_states_in_domain (a b : list vec) :
  unit_sample 9 a -> unit_sample 9 b ->
  exists x x_near_origin,
    sampling.rescale 9 sampling.domain a = Ok x
    /\ sampling.rescale 9 sampling.domain_near_origin b = Ok x_near_origin
    /\ length (x ++ x_near_origin) = (length a + length b)%nat
    /\ Forall (in_box sampling.domain) (x ++ x_near_origin).
Proof.
  intros Ha Hb.
  destruct (rescale_in_box sampling.domain a domain_ordered Ha)
    as (x & Hx & Hlx & Hbx).
  destruct (rescale_in_box sampling.domain_near_origin b
              domain_near_origin_ordered Hb) as (y & Hy & Hly & Hby).
  exists x, y. split; [exact Hx|]. split; [exact Hy|].
  split; [rewrite length_app; lia|].
  apply Forall_app. split; [exact Hbx|].
  eapply Forall_impl; [exact Hby|]. intros row. apply in_box_weaken.
  pose proof PI_RGT_0. unfold sampling.domain, sampling.domain_near_origin.
  repeat (constructor; [simpl; lra|]). constructor.
Qed.

Lemma sampled_states_in_domain_witness :
  exists x x_near_origin,
    sampling.rescale 9 sampling.domain [replicate 9 0] = Ok x
    /\ sampling.rescale 9 sampling.domain_near_origin [replicate 9 1]
       = Ok x_near_origin
    /\ length (x ++ x_near_origin) = 2%nat
    /\ Forall (in_box sampling.domain) (x ++ x_near_origin).
Proof.
  apply (sampled_states_in_domain [replicate 9 0] [replicate 9 1]).
  - constructor; [|constructor]. split; [reflexivity|].
    repeat (constructor; [lra|]). constructor.
  - constructor; [|constructor]. split; [reflexivity|].
    repeat (constructor; [lra|]). constructor.
Defined.

(** X15: The goal state x0 of the script is the origin whatever the sample: its
    box is the single point 0. *)
Theorem goal_sample_is_origin (a : list vec) :
  unit_sample 9 a ->
  sampling.rescale 9 sampling.goal_domain a
  = Ok (replicate (length a) (replicate 9 0)).
Proof.
  intros Ha.
  assert (Hdom : Forall (fun b => fst b <= snd b) sampling.goal_domain).
  { unfold sampling.goal_domain. repeat (constructor; [simpl; lra|]). constructor. }
  destruct (rescale_in_box sampling.goal_domain a Hdom Ha)
    as (y & Hy & Hlen & Hbox).
  change (length sampling.goal_domain) with 9%nat in Hy. rewrite Hy. f_equal.
  rewrite <- Hlen. clear Hy Hlen Ha.
  induction Hbox as [|row y Hrow _ IH]; [reflexivity|].
  simpl. f_equal; [|exact IH].
  unfold in_box, sampling.goal_domain in Hrow.
  repeat match goal with
         | H : Forall2 _ _ (_ :: _) |- _ =>
             inversion H; clear H; subst
         | H : Forall2 _ _ [] |- _ => inversion H; clear H; subst
         end.
  simpl in *. repeat (apply (f_equal2 cons); [lra|]). reflexivity.
Qed.

Lemma goal_sample_is_origin_witness :
  sampling.rescale 9 sampling.goal_domain [replicate 9 0.5]
  = Ok [replicate 9 0].
Proof.
  apply (goal_sample_is_origin [replicate 9 0.5]).
  constructor; [|constructor]. split; [reflexivity|].
  repeat (constructor; [lra|]). constructor.
Defined.
